(** * ExpenseFlow: versioned event log, forensic replay and differential sync

    A shallow embedding of
    - [models/FinancialEvent.js]: the event schema and its indexes;
    - [services/forensicReplayEngine.js]: replayToTime, replayToVersion and
      generateAuditTrail;
    - [routes/forensics.js]: GET /replay/:entityId, GET /audit/:entityId and
      POST /verify/:entityId;
    - [routes/sync.js]: GET /delta;
    together with the collaborators those files require but whose code is
    described only in the specification: [services/eventProcessor.js]
    (append, verifyIntegrity), [utils/eventDiffEngine.js] (reconstruct) and
    [services/syncManager.js] (getDifferentialUpdates).  Each definition of
    the second kind says so in its comment.

    Conventions.
    - A MongoDB collection is a list of documents in insertion order.
    - An [async] function is a function into [Promise]: it resolves with a
      value or rejects with an error message.
    - JavaScript numbers that hold versions and millisecond timestamps are
      integers ([Z]); [NaN] and [Invalid Date] are kept as separate cases.
    - An ObjectId is an opaque integer; a route parameter that names an
      entity is taken as the ObjectId it casts to.
    - The [auth] middleware in front of every route has let the request
      through. *)

From Stdlib Require Import ZArith List String Ascii Bool Lia DecimalString.
From Stdlib Require Import Permutation Sorted.
Import ListNotations.
Open Scope string_scope.
Open Scope list_scope.
Open Scope Z_scope.

(* ================================================================== *)
(** * JavaScript primitives used by the handlers *)
(* ================================================================== *)

Module JS.

(** A JavaScript number as far as the routes use it: an integer or NaN. *)
Inductive Number := NaN | Num (z : Z).

(** The result of [new Date(x)]: milliseconds since the epoch, or Invalid Date. *)
Inductive Date := InvalidDate | Millis (ms : Z).

(** A query-string or header value: [undefined] when absent, else a string. *)
Definition Param := option string.

(** Truthiness of [undefined] and of strings: only [undefined] and the empty
    string are falsy. *)
Definition truthy (p : Param) : bool :=
  match p with
  | None => false
  | Some EmptyString => false
  | Some (String _ _) => true
  end.

(** The string handed on once a parameter has been found truthy. *)
Definition str (p : Param) : string :=
  match p with
  | None => "undefined"
  | Some s => s
  end.

(** White space that [parseInt] skips, within ASCII: tab, line feed,
    vertical tab, form feed, carriage return and space. *)
Definition isWhiteSpace (c : ascii) : bool :=
  let n := nat_of_ascii c in
  (Nat.leb 9 n && Nat.leb n 13) || Nat.eqb n 32.

Fixpoint trimStart (s : string) : string :=
  match s with
  | String c rest => if isWhiteSpace c then trimStart rest else s
  | EmptyString => s
  end.

(** Value of a character as a digit in radix up to 36. *)
Definition digitValue (c : ascii) : option Z :=
  let n := nat_of_ascii c in
  if (Nat.leb 48 n && Nat.leb n 57)%bool then Some (Z.of_nat n - 48)
  else if (Nat.leb 97 n && Nat.leb n 122)%bool then Some (Z.of_nat n - 87)
  else if (Nat.leb 65 n && Nat.leb n 90)%bool then Some (Z.of_nat n - 55)
  else None.

(** Longest prefix of radix digits, accumulated left to right; [None] when
    the prefix is empty. *)
Fixpoint digits (radix : Z) (s : string) (acc : option Z) : option Z :=
  match s with
  | String c rest =>
      match digitValue c with
      | Some d =>
          if d <? radix
          then digits radix rest
                 (Some (radix * match acc with Some a => a | None => 0 end + d))
          else acc
      | None => acc
      end
  | EmptyString => acc
  end.

Definition stripSign (s : string) : Z * string :=
  match s with
  | String "-" rest => (-1, rest)
  | String "+" rest => (1, rest)
  | _ => (1, s)
  end.

Definition stripHexPrefix (s : string) : Z * string :=
  match s with
  | String "0" (String "x" rest) => (16, rest)
  | String "0" (String "X" rest) => (16, rest)
  | _ => (10, s)
  end.

(** [parseInt(s)] with no radix argument. *)
Definition parseInt (s : string) : Number :=
  let '(sign, s1) := stripSign (trimStart s) in
  let '(radix, s2) := stripHexPrefix s1 in
  match digits radix s2 None with
  | Some n => Num (sign * n)
  | None => NaN
  end.

(** [parseInt(p)] on a possibly absent parameter: [undefined] is converted to
    the string "undefined", which has no digits. *)
Definition parseIntParam (p : Param) : Number := parseInt (str p).

(** [x || 0] on numbers: NaN and 0 are falsy. *)
Definition orZero (x : Number) : Z :=
  match x with
  | NaN => 0
  | Num z => z
  end.

End JS.

(* ================================================================== *)
(** * Promises: the outcome of an [async] function *)
(* ================================================================== *)

Inductive Promise (A : Type) : Type :=
| Resolved (value : A)
| Rejected (message : string).

Arguments Resolved {A} value.
Arguments Rejected {A} message.

Definition bind {A B : Type} (p : Promise A) (k : A -> Promise B) : Promise B :=
  match p with
  | Resolved a => k a
  | Rejected m => Rejected m
  end.

Declare Scope promise_scope.
Delimit Scope promise_scope with promise.
Notation "'await' x <- p ;; k" := (bind p (fun x => k))
  (at level 61, x name, p at next level, right associativity) : promise_scope.
Open Scope promise_scope.

(** [try { ... } catch (error) { handler(error.message) }] around an awaited
    computation. *)
Definition tryCatch {A : Type} (p : Promise A) (handler : string -> A) : A :=
  match p with
  | Resolved a => a
  | Rejected m => handler m
  end.

Fixpoint mapP {A B : Type} (f : A -> Promise B) (l : list A) : Promise (list B) :=
  match l with
  | [] => Resolved []
  | x :: rest =>
      await y <- f x ;;
      await ys <- mapP f rest ;;
      Resolved (y :: ys)
  end.

(* ================================================================== *)
(** * Entity states, snapshots and deltas *)
(* ================================================================== *)

Definition ObjectId := Z.

Inductive Value :=
| VNull
| VBool (b : bool)
| VNum (z : Z)
| VStr (s : string).

(** A reconstructed entity: field paths with their values; [{}] is [[]]. *)
Definition State := list (string * Value).

(** A delta: changed field paths with their old and new values. *)
Definition Diff := list (string * (Value * Value)).

(** [payload] is Mixed in the schema; the engine distinguishes a delta
    ([payload._isDelta] truthy, carrying [payload.diff]) from a full
    snapshot. *)
Inductive Payload :=
| Snapshot (state : State)
| Delta (diff : Diff).

Definition _isDelta (p : Payload) : bool :=
  match p with
  | Snapshot _ => false
  | Delta _ => true
  end.

(** [payload.diff]; a snapshot has no such key. *)
Definition payloadDiff (p : Payload) : option Diff :=
  match p with
  | Snapshot _ => None
  | Delta d => Some d
  end.

Definition emptyState : State := [].

Fixpoint hasPath (path : string) (s : State) : bool :=
  match s with
  | [] => false
  | (k, _) :: rest => String.eqb k path || hasPath path rest
  end.

Fixpoint setPath (path : string) (v : Value) (s : State) : State :=
  match s with
  | [] => []
  | (k, old) :: rest =>
      if String.eqb k path then (k, v) :: rest else (k, old) :: setPath path v rest
  end.

(** Modelled from the spec: [utils/eventDiffEngine.js] is not among the
    sources.  "applyDelta(baseState, delta) -> newState": every changed path
    takes its new value; a path absent from the state is skipped (the stated
    policy for a malformed delta). *)
Definition applyDelta (base : State) (delta : Diff) : State :=
  fold_left
    (fun s change =>
       if hasPath (fst change) s
       then setPath (fst change) (snd (snd change)) s
       else s)
    delta base.

(** Modelled from the spec: "applySnapshot(_, snapshot) -> snapshot". *)
Definition applySnapshot (base : State) (snapshot : State) : State := snapshot.

(* ================================================================== *)
(** * Sorting a query result by an integer field *)
(* ================================================================== *)

(** [.sort({ field: 1 })]: ascending by [key].  Insertion sort keeps the
    stored order among documents with equal keys; where a unique index rules
    equal keys out, the result is the only ascending arrangement. *)
Section SortBy.
Variable A : Type.
Variable key : A -> Z.

Fixpoint insertBy (x : A) (l : list A) : list A :=
  match l with
  | [] => [x]
  | y :: rest => if key x <=? key y then x :: l else y :: insertBy x rest
  end.

Fixpoint sortBy (l : list A) : list A :=
  match l with
  | [] => []
  | x :: rest => insertBy x (sortBy rest)
  end.

(** The last element of an array, [undefined] ([None]) when it is empty. *)
Fixpoint lastOpt (l : list A) : option A :=
  match l with
  | [] => None
  | [x] => Some x
  | _ :: rest => lastOpt rest
  end.

End SortBy.

Arguments insertBy {A} key x l.
Arguments sortBy {A} key l.
Arguments lastOpt {A} l.

(* ================================================================== *)
(** * models/FinancialEvent.js *)
(* ================================================================== *)

Module FinancialEvent.

Inductive EventType :=
| TX_CREATED | TX_UPDATED | TX_DELETED
| WS_CREATED | WS_UPDATED | WS_MEMBER_ADDED
| BUDGET_EXCEEDED | SYSTEM_AUDIT_LOG.

Record Metadata := {
  deviceId : option string;
  ipAddress : option string;
  userAgent : option string;
  correlationId : option string;
  timestamp : Z
}.

Record t := {
  _id : ObjectId;
  userId : ObjectId;
  eventType : EventType;
  entityType : string;
  entityId : ObjectId;
  payload : Payload;
  previousEventId : option ObjectId;
  metadata : Metadata;
  checksum : string;
  version : Z
}.

(** The collection, in insertion order. *)
Definition Collection := list t.

(** Key of the unique index [{ entityId: 1, version: 1 }]. *)
Definition indexKey (e : t) : ObjectId * Z := (entityId e, version e).

Definition uniqueIndex (c : Collection) : Prop := NoDup (map indexKey c).

(** The conditions the engine puts in a [find]: always [entityId], and at
    most one of [version: { $lte }] and ['metadata.timestamp': { $lte }]. *)
Record Query := {
  q_entityId : ObjectId;
  q_version_lte : option JS.Number;
  q_timestamp_lte : option JS.Date
}.

(** Mongoose casts every operand to the type of its path before the query
    runs; NaN for a Number path and an invalid date for a Date path are
    cast errors, which reject the query. *)
Definition castNumber (n : JS.Number) : Promise Z :=
  match n with
  | JS.Num z => Resolved z
  | JS.NaN => Rejected "Cast to Number failed for value NaN"
  end.

Definition castDate (d : JS.Date) : Promise Z :=
  match d with
  | JS.Millis ms => Resolved ms
  | JS.InvalidDate => Rejected "Cast to date failed for value Invalid Date"
  end.

Definition lteVersion (bound : option Z) (e : t) : bool :=
  match bound with
  | Some v => version e <=? v
  | None => true
  end.

Definition lteTimestamp (bound : option Z) (e : t) : bool :=
  match bound with
  | Some ms => timestamp (metadata e) <=? ms
  | None => true
  end.

Definition castOpt {A : Type} (cast : A -> Promise Z) (o : option A)
  : Promise (option Z) :=
  match o with
  | None => Resolved None
  | Some a => await z <- cast a ;; Resolved (Some z)
  end.

Definition find (c : Collection) (q : Query) : Promise (list t) :=
  await v <- castOpt castNumber (q_version_lte q) ;;
  await ms <- castOpt castDate (q_timestamp_lte q) ;;
  Resolved
    (filter (fun e => (entityId e =? q_entityId q) && lteVersion v e && lteTimestamp ms e) c).

(** [.sort({ version: 1 })]. *)
Definition sortByVersion : list t -> list t := sortBy version.

Definition findSorted (c : Collection) (q : Query) : Promise (list t) :=
  await docs <- find c q ;;
  Resolved (sortByVersion docs).

End FinancialEvent.

Import FinancialEvent.

(* ================================================================== *)
(** * What the platform provides *)
(* ================================================================== *)

(** The two library functions the event log relies on: the [Date]
    constructor on a string, and the SHA-256 digest of the canonical encoding
    of a checksum input. *)
Class Runtime := {
  Date_new : string -> JS.Date;
  digest : Payload -> option ObjectId -> ObjectId -> Z -> string
}.

(* ================================================================== *)
(** * utils/eventDiffEngine.js: reconstruct *)
(* ================================================================== *)

(** Modelled from the spec: one step of the fold.  A snapshot replaces the
    state, a delta is applied to it. *)
Definition applyEvent (state : State) (event : FinancialEvent.t) : State :=
  match payload event with
  | Snapshot s => applySnapshot state s
  | Delta d => applyDelta state d
  end.

(** Modelled from the spec: [utils/eventDiffEngine.js] is not among the
    sources.  The replay "starts from an empty state ... and folds each
    event's payload via DiffEngine": [reconstruct(base, events)] folds the
    events, in the order given, onto [base]. *)
Definition reconstruct (base : State) (events : list FinancialEvent.t) : State :=
  fold_left applyEvent events base.

(* ================================================================== *)
(** * services/forensicReplayEngine.js *)
(* ================================================================== *)

Record User := {
  user_id : ObjectId;
  name : string;
  email : string
}.

(** [.populate('userId', 'name email')]: the referenced user, or [null] when
    no user has that id. *)
Definition populate (users : list User) (id : ObjectId) : option User :=
  List.find (fun u => user_id u =? id) users.

(** The [changes] key of an audit entry: [payload.diff] as stored
    ([undefined] when the payload has none), or the string 'FULL_SNAPSHOT'. *)
Inductive Changes :=
| FULL_SNAPSHOT
| DiffOf (diff : option Diff).

Module AuditEntry.
Record t := {
  version : Z;
  action : FinancialEvent.EventType;
  actor : string;
  timestamp : Z;
  changes : Changes;
  correlationId : option string
}.
End AuditEntry.

Module ForensicReplayEngine.
Section Engine.
Context {R : Runtime}.
Variable events_db : FinancialEvent.Collection.
Variable users_db : list User.

Definition isEmpty (events : list FinancialEvent.t) : bool :=
  Nat.eqb (List.length events) 0.

Definition replayToTime (entityId : ObjectId) (timestamp : string)
  : Promise (option State) :=
  let targetDate := Date_new timestamp in
  await events <- findSorted events_db
                    {| q_entityId := entityId;
                       q_version_lte := None;
                       q_timestamp_lte := Some targetDate |} ;;
  if isEmpty events then Resolved None
  else Resolved (Some (reconstruct emptyState events)).

Definition replayToVersion (entityId : ObjectId) (version : JS.Number)
  : Promise (option State) :=
  await events <- findSorted events_db
                    {| q_entityId := entityId;
                       q_version_lte := Some version;
                       q_timestamp_lte := None |} ;;
  if isEmpty events then Resolved None
  else Resolved (Some (reconstruct emptyState events)).

(** One element of [events.map(event => ({ ... }))]; reading [.name] of a
    [userId] that populated to [null] throws. *)
Definition auditEntry (event : FinancialEvent.t) : Promise AuditEntry.t :=
  match populate users_db (userId event) with
  | None => Rejected "Cannot read properties of null (reading 'name')"
  | Some user =>
      Resolved
        {| AuditEntry.version := version event;
           AuditEntry.action := eventType event;
           AuditEntry.actor := name user;
           AuditEntry.timestamp := timestamp (metadata event);
           AuditEntry.changes :=
             if _isDelta (payload event)
             then DiffOf (payloadDiff (payload event))
             else FULL_SNAPSHOT;
           AuditEntry.correlationId := correlationId (metadata event) |}
  end.

Definition generateAuditTrail (entityId : ObjectId)
  : Promise (list AuditEntry.t) :=
  await events <- findSorted events_db
                    {| q_entityId := entityId;
                       q_version_lte := None;
                       q_timestamp_lte := None |} ;;
  mapP auditEntry events.

End Engine.
End ForensicReplayEngine.

(* ================================================================== *)
(** * What a route sends *)
(* ================================================================== *)

Module Http.

(** What [res.status(...).json(...)] sends: the status (200 unless set), the
    [success] flag, the remaining keys of a success body, and the [error]
    key of a failure body. *)
Record Response (B : Type) := {
  status : Z;
  success : bool;
  body : option B;
  error : option string
}.

Arguments status {B} _.
Arguments success {B} _.
Arguments body {B} _.
Arguments error {B} _.

Definition ok {B : Type} (b : B) : Response B :=
  {| status := 200; success := true; body := Some b; error := None |}.

Definition fail {B : Type} (code : Z) (message : string) : Response B :=
  {| status := code; success := false; body := None; error := Some message |}.

End Http.

(* ================================================================== *)
(** * services/eventProcessor.js *)
(* ================================================================== *)

Module EventProcessor.
Section Processor.
Context {R : Runtime}.

(** Modelled from the spec: the insert behind [append].  The schema's unique
    index [{ entityId: 1, version: 1 }] rejects a document whose key is
    already stored; otherwise the document is added at the end of the
    collection. *)
Definition insert (c : FinancialEvent.Collection) (e : FinancialEvent.t)
  : Promise FinancialEvent.Collection :=
  if existsb
       (fun x => (entityId x =? entityId e) && (version x =? version e)) c
  then Rejected "E11000 duplicate key error"
  else Resolved (c ++ [e]).

(** The arguments of [append]; [newId] is the ObjectId the driver generates
    for the new document, [actor] the acting user. *)
Record AppendArgs := {
  newId : ObjectId;
  a_entityType : string;
  a_entityId : ObjectId;
  a_eventType : FinancialEvent.EventType;
  a_payload : Payload;
  a_actor : ObjectId;
  a_metadata : FinancialEvent.Metadata
}.

(** Modelled from the spec: the checksum of an event, "deterministic digest
    over (payload, previousEventId, entityId, version)", recomputed from the
    event's stored fields. *)
Definition computeChecksum (e : FinancialEvent.t) : string :=
  digest (payload e) (previousEventId e) (entityId e) (version e).

(** Modelled from the spec: the event [append] builds, with version = 1 +
    the version of the prior event (1 when there is none), the link to the
    prior event, and the checksum over the four inputs. *)
Definition newEvent (a : AppendArgs) (prior : option FinancialEvent.t)
  : FinancialEvent.t :=
  let nextVersion :=
    match prior with
    | Some p => version p + 1
    | None => 1
    end in
  let previous := option_map _id prior in
  {| _id := newId a;
     userId := a_actor a;
     eventType := a_eventType a;
     entityType := a_entityType a;
     entityId := a_entityId a;
     payload := a_payload a;
     previousEventId := previous;
     metadata := a_metadata a;
     checksum := digest (a_payload a) previous (a_entityId a) nextVersion;
     version := nextVersion |}.

(** Modelled from the spec: [services/eventProcessor.js] is not among the
    sources.  "append(entityType, entityId, eventType, payload, actor,
    metadata) -> Event": assigns version = 1 + the current maximum version
    for the entity, sets previousEventId to the prior event's identifier,
    computes the checksum, and stores the event.  The prior event is the
    last of the entity's chain in version order.  The result is the outcome
    together with the collection afterwards. *)
Definition append (c : FinancialEvent.Collection) (a : AppendArgs)
  : Promise FinancialEvent.t * FinancialEvent.Collection :=
  match findSorted c {| q_entityId := a_entityId a;
                        q_version_lte := None;
                        q_timestamp_lte := None |} with
  | Rejected m => (Rejected m, c)
  | Resolved chain =>
      let event := newEvent a (lastOpt chain) in
      match insert c event with
      | Rejected m => (Rejected m, c)
      | Resolved c' => (Resolved event, c')
      end
  end.

(** Modelled from the spec: the result of verify, "{valid: bool,
    brokenAtVersion: int|null}". *)
Record VerifyResult := {
  valid : bool;
  brokenAtVersion : option Z
}.

Definition optIdEqb (x y : option ObjectId) : bool :=
  match x, y with
  | None, None => true
  | Some a, Some b => a =? b
  | _, _ => false
  end.

(** Modelled from the spec: an event passes when its previous-event link
    names the event before it in the chain ([null] for the first) and the
    checksum recomputed from its stored fields equals the stored one. *)
Definition eventIntact (prev : option ObjectId) (e : FinancialEvent.t) : bool :=
  optIdEqb (previousEventId e) prev && String.eqb (computeChecksum e) (checksum e).

(** Modelled from the spec: the chain walk "from version 1", which stops at
    the first event that does not pass and reports its version. *)
Fixpoint walk (prev : option ObjectId) (chain : list FinancialEvent.t)
  : VerifyResult :=
  match chain with
  | [] => {| valid := true; brokenAtVersion := None |}
  | e :: rest =>
      if eventIntact prev e then walk (Some (_id e)) rest
      else {| valid := false; brokenAtVersion := Some (version e) |}
  end.

(** Modelled from the spec: [services/eventProcessor.js] is not among the
    sources.  "verify(entityId) -> {valid, brokenAtVersion}": walks the
    chain from version 1, recomputing each event's checksum from its stored
    fields and previous-event linkage, comparing against the stored
    checksum; read-only.  The result is the outcome together with the
    collection afterwards. *)
Definition verifyIntegrity (c : FinancialEvent.Collection) (entityId : ObjectId)
  : Promise VerifyResult * FinancialEvent.Collection :=
  match findSorted c {| q_entityId := entityId;
                        q_version_lte := None;
                        q_timestamp_lte := None |} with
  | Rejected m => (Rejected m, c)
  | Resolved chain => (Resolved (walk None chain), c)
  end.

(** Collections built from the empty one by successful appends. *)
Inductive appended : FinancialEvent.Collection -> Prop :=
| appended_empty : appended []
| appended_step c a e c' :
    appended c -> append c a = (Resolved e, c') -> appended c'.

End Processor.
End EventProcessor.

(* ================================================================== *)
(** * routes/forensics.js *)
(* ================================================================== *)

Module ForensicsRoutes.
Section Routes.
Context {R : Runtime}.
Variable events_db : FinancialEvent.Collection.
Variable users_db : list User.

Record ReplayRequest := {
  params_entityId : ObjectId;
  query_time : JS.Param;
  query_v : JS.Param
}.

(** The keys of a replay body beside [success]: [data] is the reconstructed
    state or [null]. *)
Record ReplayBody := { data : option State }.

(** GET /replay/:entityId, after the [auth] middleware has let the request
    through. *)
Definition getReplay (req : ReplayRequest) : Http.Response ReplayBody :=
  let entityId := params_entityId req in
  let time := query_time req in
  let v := query_v req in
  tryCatch
    (if JS.truthy time then
       await state <- ForensicReplayEngine.replayToTime events_db entityId (JS.str time) ;;
       Resolved (Http.ok {| data := state |})
     else if JS.truthy v then
       await state <- ForensicReplayEngine.replayToVersion events_db entityId
                        (JS.parseInt (JS.str v)) ;;
       Resolved (Http.ok {| data := state |})
     else
       Resolved (Http.fail 400 "Provide time or version (v)"))
    (fun message => Http.fail 500 message).

Record AuditBody := { trail : list AuditEntry.t }.

(** Mongoose's cast of a string to the ObjectId the schema declares for
    [entityId], made when a query with that condition runs: the id, or
    [None] for a string the cast refuses with a CastError.  Which strings
    it takes is Mongoose's matter. *)
Variable castObjectId : string -> option ObjectId.

(** GET /audit/:entityId; [entityId] is the path parameter as it came.  The
    handler hands it to [generateAuditTrail], whose first step is the query
    on [entityId]: a parameter that does not cast rejects there, before any
    event is read, and the handler's [catch] answers 500. *)
Definition getAudit (entityId : string) : Http.Response AuditBody :=
  tryCatch
    (match castObjectId entityId with
     | None => Rejected "Cast to ObjectId failed for value at path entityId"
     | Some id =>
         await trail <- ForensicReplayEngine.generateAuditTrail events_db users_db id ;;
         Resolved (Http.ok {| trail := trail |})
     end)
    (fun message => Http.fail 500 message).

(** POST /verify/:entityId: the result's keys are spread into the body.
    The second component is the collection after the request. *)
Definition postVerify (entityId : ObjectId)
  : Http.Response EventProcessor.VerifyResult * FinancialEvent.Collection :=
  let '(outcome, after) := EventProcessor.verifyIntegrity events_db entityId in
  (tryCatch
     (await result <- outcome ;; Resolved (Http.ok result))
     (fun message => Http.fail 500 message),
   after).

End Routes.
End ForensicsRoutes.

(* ================================================================== *)
(** * routes/sync.js: GET /delta *)
(* ================================================================== *)

Module SyncLog.

Inductive Operation := CREATE | UPDATE | DELETE.

(** Modelled from the spec: [models/SyncLog.js] is not among the sources.
    One logged mutation of a user's data, with the user's version number
    for it. *)
Record t := {
  userId : ObjectId;
  deviceId : string;
  entityType : string;
  entityId : ObjectId;
  operation : Operation;
  changes : Diff;
  version : Z
}.

End SyncLog.

Module SyncRoutes.
Section Routes.
Variable sync_logs : list SyncLog.t.

(** Modelled from the spec: [services/syncManager.js] is not among the
    sources.  "Fetches all mutations that occurred since the client's last
    synchronization", "ordered ascending by version": the user's mutations
    with a version above [lastVersion], ascending. *)
Definition getDifferentialUpdates (userId : ObjectId) (lastVersion : Z)
  : Promise (list SyncLog.t) :=
  Resolved
    (sortBy SyncLog.version
       (filter
          (fun l => (SyncLog.userId l =? userId) && (lastVersion <? SyncLog.version l))
          sync_logs)).

Record DeltaRequest := {
  user_id : ObjectId;
  query_v : JS.Param
}.

Record DeltaBody := {
  v : Z;
  count : nat;
  changes : list SyncLog.t
}.

(** GET /delta, after the [auth] middleware has set [req.user]. *)
Definition getDelta (req : DeltaRequest) : Http.Response DeltaBody :=
  tryCatch
    (let lastVersion := JS.orZero (JS.parseIntParam (query_v req)) in
     await changes <- getDifferentialUpdates (user_id req) lastVersion ;;
     let latestVersion :=
       if Nat.ltb 0 (List.length changes)
       then match nth_error changes (List.length changes - 1) with
            | Some c => SyncLog.version c
            | None => lastVersion
            end
       else lastVersion in
     Resolved
       (Http.ok {| v := latestVersion; count := List.length changes; changes := changes |}))
    (fun message => Http.fail 500 message).

End Routes.
End SyncRoutes.

(* ================================================================== *)
(** * Properties the statements below are written with *)
(* ================================================================== *)

(** The chain of an entity: what [find({ entityId }).sort({ version: 1 })]
    returns. *)
Definition chainOf (c : FinancialEvent.Collection) (entityId : ObjectId)
  : list FinancialEvent.t :=
  sortByVersion (filter (fun e => FinancialEvent.entityId e =? entityId) c).

(** The versions 1, 2, ..., n. *)
Definition versionsUpTo (n : nat) : list Z := map Z.of_nat (seq 1 n).

(** Versions of every entity are 1..n without gaps, and the pair
    (entityId, version) is unique in the collection. *)
Definition versionInvariant (c : FinancialEvent.Collection) : Prop :=
  uniqueIndex c /\
  forall entityId,
    map FinancialEvent.version (chainOf c entityId)
    = versionsUpTo (List.length (chainOf c entityId)).

Definition ascendingVersions (l : list FinancialEvent.t) : Prop :=
  StronglySorted (fun a b => FinancialEvent.version a <= FinancialEvent.version b) l.

(** The events of a chain, each paired with the identifier of the event
    before it ([None] for the first). *)
Fixpoint linked (prev : option ObjectId) (chain : list FinancialEvent.t)
  : list (option ObjectId * FinancialEvent.t) :=
  match chain with
  | [] => []
  | e :: rest => (prev, e) :: linked (Some (_id e)) rest
  end.

(** An event is intact at its place in the chain: its previous-event link
    names the event before it, and the checksum recomputed from its stored
    fields is the stored checksum. *)
Definition intact {R : Runtime} (pe : option ObjectId * FinancialEvent.t) : Prop :=
  previousEventId (snd pe) = fst pe /\
  digest (payload (snd pe)) (previousEventId (snd pe)) (entityId (snd pe))
    (FinancialEvent.version (snd pe))
  = checksum (snd pe).

(** An audit entry renders an event for the users at hand. *)
Definition renders (users : list User) (e : FinancialEvent.t) (a : AuditEntry.t)
  : Prop :=
  AuditEntry.version a = FinancialEvent.version e /\
  AuditEntry.action a = eventType e /\
  (exists u, populate users (FinancialEvent.userId e) = Some u /\ AuditEntry.actor a = name u) /\
  AuditEntry.timestamp a = FinancialEvent.timestamp (metadata e) /\
  AuditEntry.correlationId a = FinancialEvent.correlationId (metadata e) /\
  AuditEntry.changes a =
    match payload e with
    | Delta d => DiffOf (Some d)
    | Snapshot _ => FULL_SNAPSHOT
    end.

(** The latest version in a user's sync log, if the user has any entry. *)
Definition isLatestVersion (logs : list SyncLog.t) (user : ObjectId) (latest : Z)
  : Prop :=
  (exists l, In l logs /\ SyncLog.userId l = user /\ SyncLog.version l = latest) /\
  (forall l, In l logs -> SyncLog.userId l = user -> SyncLog.version l <= latest).

(* ================================================================== *)
(** * A worked log: entity 1 created with amount 10, then updated to 20 *)
(* ================================================================== *)

Module Sample.

Definition encodeZ (z : Z) : string := NilZero.string_of_int (Z.to_int z).

Definition encodeValue (v : Value) : string :=
  match v with
  | VNull => "null"
  | VBool true => "true"
  | VBool false => "false"
  | VNum z => encodeZ z
  | VStr s => String.append "'" (String.append s "'")
  end.

Definition encodeState (s : State) : string :=
  String.concat ","
    (map (fun kv => String.append (fst kv) (String.append ":" (encodeValue (snd kv)))) s).

Definition encodeDiff (d : Diff) : string :=
  String.concat ","
    (map (fun ch =>
            String.append (fst ch)
              (String.append ":" (String.append (encodeValue (fst (snd ch)))
                 (String.append ">" (encodeValue (snd (snd ch))))))) d).

Definition encodePayload (p : Payload) : string :=
  match p with
  | Snapshot s => String.append "S{" (String.append (encodeState s) "}")
  | Delta d => String.append "D{" (String.append (encodeDiff d) "}")
  end.

(** A stand-in for SHA-256 that keeps its whole input: the canonical
    encoding of the four checksum inputs. *)
Definition canonical (p : Payload) (prev : option ObjectId) (entity : ObjectId)
  (version : Z) : string :=
  String.concat "|"
    [encodePayload p;
     match prev with Some i => encodeZ i | None => "null" end;
     encodeZ entity;
     encodeZ version].

Definition jan1 : string := "2024-01-01T00:00:00.000Z".
Definition jan2 : string := "2024-01-02T00:00:00.000Z".
Definition jan3 : string := "2024-01-03T00:00:00.000Z".

(** The [Date] constructor on the three instants used below; every other
    string is taken as unparseable. *)
Definition dateOf (s : string) : JS.Date :=
  if String.eqb s jan1 then JS.Millis 1704067200000
  else if String.eqb s jan2 then JS.Millis 1704153600000
  else if String.eqb s jan3 then JS.Millis 1704240000000
  else JS.InvalidDate.

#[local] Instance runtime : Runtime :=
  {| Date_new := dateOf; digest := canonical |}.

Definition meta (ms : Z) (corr : string) : FinancialEvent.Metadata :=
  {| deviceId := Some "web-default";
     ipAddress := None;
     userAgent := None;
     correlationId := Some corr;
     timestamp := ms |}.

Definition create : EventProcessor.AppendArgs :=
  {| EventProcessor.newId := 101;
     EventProcessor.a_entityType := "Transaction";
     EventProcessor.a_entityId := 1;
     EventProcessor.a_eventType := TX_CREATED;
     EventProcessor.a_payload := Snapshot [("amount", VNum 10); ("category", VStr "food")];
     EventProcessor.a_actor := 7;
     EventProcessor.a_metadata := meta 1704067200000 "req-1" |}.

Definition update : EventProcessor.AppendArgs :=
  {| EventProcessor.newId := 102;
     EventProcessor.a_entityType := "Transaction";
     EventProcessor.a_entityId := 1;
     EventProcessor.a_eventType := TX_UPDATED;
     EventProcessor.a_payload := Delta [("amount", (VNum 10, VNum 20))];
     EventProcessor.a_actor := 7;
     EventProcessor.a_metadata := meta 1704240000000 "req-2" |}.

Definition afterCreate : FinancialEvent.Collection :=
  snd (EventProcessor.append [] create).

Definition afterUpdate : FinancialEvent.Collection :=
  snd (EventProcessor.append afterCreate update).

Definition users : list User :=
  [{| user_id := 7; name := "Asha"; email := "asha@example.org" |}].

(** The users once the account of user 7 is gone. *)
Definition remainingUsers : list User :=
  [{| user_id := 8; name := "Ben"; email := "ben@example.org" |}].

Fixpoint allHex (s : string) : bool :=
  match s with
  | EmptyString => true
  | String c rest =>
      match JS.digitValue c with
      | Some d => (d <? 16) && allHex rest
      | None => false
      end
  end.

(** The cast to ObjectId on the strings every version of Mongoose takes, 24
    hexadecimal digits, read as the number they spell; every other string
    is taken as refused. *)
Definition objectIdOf (s : string) : option ObjectId :=
  if Nat.eqb (String.length s) 24 && allHex s then JS.digits 16 s None else None.

(** Entity 1 as a path parameter. *)
Definition entity1 : string := "000000000000000000000001".

Definition log (user : ObjectId) (version : Z) : SyncLog.t :=
  {| SyncLog.userId := user;
     SyncLog.deviceId := "web-default";
     SyncLog.entityType := "Transaction";
     SyncLog.entityId := 1;
     SyncLog.operation := SyncLog.UPDATE;
     SyncLog.changes := [];
     SyncLog.version := version |}.

Definition syncLogs : list SyncLog.t :=
  [log 7 3; log 8 1; log 7 1; log 7 2].

(** The two events of the log, as [append] stored them. *)
Definition created : FinancialEvent.t :=
  EventProcessor.newEvent create None.

Definition updated : FinancialEvent.t :=
  EventProcessor.newEvent update (Some created).

Definition withPayload (p : Payload) (e : FinancialEvent.t) : FinancialEvent.t :=
  {| _id := _id e;
     userId := userId e;
     eventType := eventType e;
     entityType := entityType e;
     entityId := entityId e;
     payload := p;
     previousEventId := previousEventId e;
     metadata := metadata e;
     checksum := checksum e;
     version := version e |}.

(** The log after the payload of version 1 was overwritten behind the
    event store's back. *)
Definition tampered : FinancialEvent.Collection :=
  [withPayload (Snapshot [("amount", VNum 999)]) created; updated].

Definition bothRequest : ForensicsRoutes.ReplayRequest :=
  {| ForensicsRoutes.params_entityId := 1;
     ForensicsRoutes.query_time := Some jan2;
     ForensicsRoutes.query_v := Some "2" |}.

Definition versionRequest : ForensicsRoutes.ReplayRequest :=
  {| ForensicsRoutes.params_entityId := 1;
     ForensicsRoutes.query_time := None;
     ForensicsRoutes.query_v := Some "2" |}.

Definition bareRequest : ForensicsRoutes.ReplayRequest :=
  {| ForensicsRoutes.params_entityId := 1;
     ForensicsRoutes.query_time := None;
     ForensicsRoutes.query_v := None |}.

Definition deltaRequest : SyncRoutes.DeltaRequest :=
  {| SyncRoutes.user_id := 7; SyncRoutes.query_v := Some "1" |}.

End Sample.

(* ================================================================== *)
(** * JSON values as the middleware and the sync routes read them *)
(* ================================================================== *)

Module Json.

(** A request or response body.  An object is the list of its own keys with
    their values, each key once. *)
#[warnings="-register-all"]
Inductive t :=
| Undefined
| Null
| Bool (b : bool)
| Num (n : JS.Number)
| Str (s : string)
| Arr (items : list t)
| Obj (fields : list (string * t)).

(** Truthiness: [undefined], [null], [false], [0], [NaN] and the empty
    string are falsy; every array and object is truthy. *)
Definition truthy (v : t) : bool :=
  match v with
  | Undefined => false
  | Null => false
  | Bool b => b
  | Num JS.NaN => false
  | Num (JS.Num z) => negb (z =? 0)
  | Str EmptyString => false
  | Str (String _ _) => true
  | Arr _ => true
  | Obj _ => true
  end.

Fixpoint lookup (key : string) (fields : list (string * t)) : t :=
  match fields with
  | [] => Undefined
  | (k, v) :: rest => if String.eqb k key then v else lookup key rest
  end.

(** [v.key] for a key that is neither an index nor [length]: reading a
    property of [undefined] or [null] throws, an object gives the key's value
    or [undefined], every other value gives [undefined]. *)
Definition get (v : t) (key : string) : Promise t :=
  match v with
  | Undefined => Rejected "Cannot read properties of undefined"
  | Null => Rejected "Cannot read properties of null"
  | Obj fields => Resolved (lookup key fields)
  | _ => Resolved Undefined
  end.

(** [Array.isArray(v) ? v : [v]]. *)
Definition asArray (v : t) : list t :=
  match v with
  | Arr items => items
  | _ => [v]
  end.

End Json.

(* ================================================================== *)
(** * middleware/syncInterceptor.js *)
(* ================================================================== *)

Module SyncInterceptor.

Record Request := {
  method : string;
  originalUrl : string;
  x_device_id : JS.Param;
  user_id : ObjectId;
  body : Json.t
}.

(** The arguments of one call of [syncManager.logMutation]. *)
Record Mutation := {
  m_userId : ObjectId;
  m_deviceId : string;
  m_entity : Json.t;
  m_operation : string;
  m_changes : Json.t
}.

Definition syncableRoutes : list string :=
  ["/api/expenses"; "/api/budgets"; "/api/workspaces"].

Definition isMutation (method : string) : bool :=
  existsb (String.eqb method) ["POST"; "PUT"; "PATCH"; "DELETE"].

(** [url.startsWith(route)]. *)
Definition startsWith (url route : string) : bool := String.prefix route url.

Definition isSyncable (url : string) : bool :=
  existsb (fun route => startsWith url route) syncableRoutes.

(** [req.headers['x-device-id'] || 'web-default']. *)
Definition deviceIdOf (header : JS.Param) : string :=
  if JS.truthy header then JS.str header else "web-default".

Definition operationOf (method : string) : string :=
  if String.eqb method "POST" then "CREATE"
  else if String.eqb method "DELETE" then "DELETE"
  else "UPDATE".

(** What a call of [res.json(data)] does: the mutations handed to
    [syncManager.logMutation], in order, and the value handed to the original
    [json]; or the exception it throws.  A failed [logMutation] is caught and
    only printed. *)
Definition Sent : Type := Promise (list Mutation * Json.t).

(** The function the middleware installs as [res.json]. *)
Definition hookedJson (req : Request) (deviceId : string)
  (statusCode : Z) (data : Json.t) : Sent :=
  await logged <-
    (if (statusCode =? 200) || (statusCode =? 201) then
       await success <- Json.get data "success" ;;
       if Json.truthy success then
         await entities <- Json.get data "data" ;;
         if Json.truthy entities then
           let operation := operationOf (method req) in
           Resolved
             (map (fun entity =>
                     {| m_userId := user_id req;
                        m_deviceId := deviceId;
                        m_entity := entity;
                        m_operation := operation;
                        m_changes := body req |})
                  (Json.asArray entities))
         else Resolved []
       else Resolved []
     else Resolved []) ;;
  Resolved (logged, data).

(** What the middleware leaves behind before it calls [next()]: [res.json]
    as it was, or replaced. *)
Inductive Installed :=
| Untouched
| Replaced (json : Z -> Json.t -> Sent).

Definition syncInterceptor (req : Request) : Installed :=
  if negb (isMutation (method req)) || negb (isSyncable (originalUrl req))
  then Untouched
  else
    let deviceId := deviceIdOf (x_device_id req) in
    Replaced (hookedJson req deviceId).

(** A route behind the middleware answers with [res.json(data)] while
    [res.statusCode] is [statusCode]. *)
Definition respond (req : Request) (statusCode : Z) (data : Json.t) : Sent :=
  match syncInterceptor req with
  | Untouched => Resolved ([], data)
  | Replaced json => json statusCode data
  end.

End SyncInterceptor.

(* ================================================================== *)
(** * routes/sync.js: POST /push *)
(* ================================================================== *)

Module SyncPush.
Section Routes.

(** [syncManager.applyIncomingUpdate(userId, deviceId, entityType, data)],
    whose code is not among the sources: any function of its arguments. *)
Variable applyIncomingUpdate :
  ObjectId -> string -> Json.t -> Json.t -> Promise Json.t.

Record PushRequest := {
  user_id : ObjectId;
  x_device_id : JS.Param;
  body : Json.t
}.

(** The keys of a push answer beside [success]. *)
Record PushBody := {
  action : Json.t;
  entity : Json.t;
  logs : Json.t
}.

Definition postPush (req : PushRequest) : Http.Response PushBody :=
  tryCatch
    (let deviceId := SyncInterceptor.deviceIdOf (x_device_id req) in
     await entityType <- Json.get (body req) "entityType" ;;
     await data <- Json.get (body req) "data" ;;
     if negb (Json.truthy entityType) || negb (Json.truthy data) then
       Resolved (Http.fail 400 "Missing sync payload")
     else
       await result <- applyIncomingUpdate (user_id req) deviceId entityType data ;;
       await action <- Json.get result "action" ;;
       await entity <- Json.get result "entity" ;;
       await logs <- Json.get result "logs" ;;
       Resolved (Http.ok {| action := action; entity := entity; logs := logs |}))
    (fun message => Http.fail 500 message).

End Routes.
End SyncPush.

(* ================================================================== *)
(** * Workspaces: the document the service and the routes work on *)
(* ================================================================== *)

Module Workspace.

Record Member := {
  user : ObjectId;
  role : string;
  status : string;
  joinedAt : Z
}.

Record Discussion := {
  parentType : string;
  parentId : Json.t;
  title : string;
  lastMessageAt : Z
}.

(** The fields of a workspace document that the code below reads or
    writes; an activity is kept as the document [logActivity] stored.
    Reading the collection ([findById], [populate]) is taken to succeed;
    writing ([save]) may be rejected. *)
Record t := {
  _id : ObjectId;
  name : string;
  description : option string;
  settings : Json.t;
  owner : ObjectId;
  members : list Member;
  activityLog : list Json.t;
  discussions : list Discussion
}.

Definition withMembers (w : t) (ms : list Member) : t :=
  {| _id := _id w;
     name := name w;
     description := description w;
     settings := settings w;
     owner := owner w;
     members := ms;
     activityLog := activityLog w;
     discussions := discussions w |}.

Definition withOwner (w : t) (o : ObjectId) : t :=
  {| _id := _id w;
     name := name w;
     description := description w;
     settings := settings w;
     owner := o;
     members := members w;
     activityLog := activityLog w;
     discussions := discussions w |}.

Definition withRole (m : Member) (r : string) : Member :=
  {| user := user m; role := r; status := status m; joinedAt := joinedAt m |}.

(** [members.find(m => m.user.toString() === id)]: the first entry of the
    user. *)
Definition findMember (ms : list Member) (id : ObjectId) : option Member :=
  List.find (fun m => user m =? id) ms.

(** [member.role = r] on the entry [find] returned: the first entry of the
    user takes the role, in place. *)
Fixpoint setRoleOfFirst (id : ObjectId) (r : string) (ms : list Member)
  : list Member :=
  match ms with
  | [] => []
  | m :: rest =>
      if user m =? id then withRole m r :: rest
      else m :: setRoleOfFirst id r rest
  end.

(** [members.findIndex(...)] followed by [members.splice(index, 1)]: the
    first entry of the user is taken out. *)
Fixpoint removeFirst (id : ObjectId) (ms : list Member) : list Member :=
  match ms with
  | [] => []
  | m :: rest => if user m =? id then rest else m :: removeFirst id rest
  end.

End Workspace.

(* ================================================================== *)
(** * services/workspaceService.js *)
(* ================================================================== *)

Module WorkspaceService.
Import Workspace.

Section Service.

(** [workspace.save()]: resolves once the document is stored, or rejects
    (validation, connection); its code is Mongoose's. *)
Variable save : Workspace.t -> Promise unit.

(** The collection [Workspace.findById] reads. *)
Variable db : list Workspace.t.

Definition findById (id : ObjectId) : option Workspace.t :=
  List.find (fun w => _id w =? id) db.

(** [!isOwner && (!adminMember || adminMember.role !== 'admin')]. *)
Definition lacksAuthority (workspace : Workspace.t) (adminId : ObjectId) : bool :=
  let adminMember := findMember (members workspace) adminId in
  let isOwner := owner workspace =? adminId in
  negb isOwner &&
  match adminMember with
  | None => true
  | Some m => negb (String.eqb (role m) "admin")
  end.

Definition removeMember (workspaceId adminId targetUserId : ObjectId)
  : Promise Workspace.t :=
  match findById workspaceId with
  | None => Rejected "Workspace not found"
  | Some workspace =>
      if lacksAuthority workspace adminId then
        Rejected "Only owners and admins can remove members"
      else if owner workspace =? targetUserId then
        Rejected "Cannot remove the workspace owner"
      else
        let workspace' :=
          withMembers workspace
            (filter (fun m => negb (user m =? targetUserId)) (members workspace)) in
        await _ <- save workspace' ;;
        Resolved workspace'
  end.

Definition updateMemberRole (workspaceId adminId targetUserId : ObjectId)
  (newRole : string) : Promise Workspace.t :=
  match findById workspaceId with
  | None => Rejected "Workspace not found"
  | Some workspace =>
      if lacksAuthority workspace adminId then
        Rejected "Only owners and admins can change roles"
      else
        match findMember (members workspace) targetUserId with
        | None => Rejected "User is not a member of this workspace"
        | Some _ =>
            let workspace' :=
              withMembers workspace
                (setRoleOfFirst targetUserId newRole (members workspace)) in
            await _ <- save workspace' ;;
            Resolved workspace'
        end
  end.

(** [Object.assign(workspace, data)] for the [data] a caller passes: any
    function of the document and the data. *)
Variable Data : Type.
Variable objectAssign : Workspace.t -> Data -> Workspace.t.

Definition updateWorkspace (workspaceId userId : ObjectId) (data : Data)
  : Promise Workspace.t :=
  match findById workspaceId with
  | None => Rejected "Workspace not found"
  | Some workspace =>
      let member := findMember (members workspace) userId in
      if match member with
         | None => true
         | Some m =>
             negb (String.eqb (role m) "admin") && negb (owner workspace =? userId)
         end
      then Rejected "Only owners and admins can update workspace settings"
      else
        let workspace' := objectAssign workspace data in
        await _ <- save workspace' ;;
        Resolved workspace'
  end.

(** [d.parentId === parentId] with [parentId] a query string: true only for
    a stored string with the same characters. *)
Definition strictEqString (v : Json.t) (s : string) : bool :=
  match v with
  | Json.Str s' => String.eqb s' s
  | _ => false
  end.

(** [discussions.sort((a, b) => b.lastMessageAt - a.lastMessageAt)]:
    descending by [lastMessageAt]; the sort is stable. *)
Definition newestFirst (ds : list Discussion) : list Discussion :=
  sortBy (fun d => - lastMessageAt d) ds.

Definition getDiscussions (workspaceId : ObjectId) (parentType parentId : JS.Param)
  : Promise (list Discussion) :=
  match findById workspaceId with
  | None => Rejected "Workspace not found"
  | Some workspace =>
      let discussions := discussions workspace in
      let discussions :=
        if JS.truthy parentType then
          let byType :=
            filter (fun d => String.eqb (Workspace.parentType d) (JS.str parentType))
              discussions in
          if JS.truthy parentId then
            filter (fun d => strictEqString (Workspace.parentId d) (JS.str parentId)) byType
          else byType
        else discussions in
      Resolved (newestFirst discussions)
  end.

End Service.
End WorkspaceService.

(* ================================================================== *)
(** * routes/workspaces.js: members, ownership, activity, joining *)
(* ================================================================== *)

Module Rest.

(** What these routes send: [res.status(code).json({ error })], or a body
    with [success: true], possibly [data] and [message]. *)
Inductive Answer (D : Type) :=
| Failure (code : Z) (error : string)
| Success (code : Z) (data : option D) (message : option string).

Arguments Failure {D} code error.
Arguments Success {D} code data message.

Definition code {D : Type} (a : Answer D) : Z :=
  match a with
  | Failure c _ => c
  | Success c _ _ => c
  end.

End Rest.

(** Arithmetic on JavaScript numbers, with NaN absorbing. *)
Module JSNum.

Definition neg (x : JS.Number) : JS.Number :=
  match x with
  | JS.NaN => JS.NaN
  | JS.Num z => JS.Num (- z)
  end.

Definition sub (x y : JS.Number) : JS.Number :=
  match x, y with
  | JS.Num a, JS.Num b => JS.Num (a - b)
  | _, _ => JS.NaN
  end.

(** [x || undefined]: NaN and zero give [undefined]. *)
Definition orUndefined (x : JS.Number) : option JS.Number :=
  match x with
  | JS.NaN => None
  | JS.Num z => if z =? 0 then None else Some x
  end.

(** An index argument of [slice] against an array of [len] elements: NaN
    counts as 0, a negative index counts from the end, and the result is
    kept within 0..len. *)
Definition relativeIndex (len : nat) (x : JS.Number) : nat :=
  match x with
  | JS.NaN => 0%nat
  | JS.Num z =>
      if z <? 0 then Z.to_nat (Z.max (Z.of_nat len + z) 0)
      else Z.to_nat (Z.min z (Z.of_nat len))
  end.

(** [array.slice(start, end)], [end] possibly [undefined]. *)
Definition slice {A : Type} (l : list A) (start : JS.Number) (stop : option JS.Number)
  : list A :=
  let len := List.length l in
  let k := relativeIndex len start in
  let final :=
    match stop with
    | None => len
    | Some e => relativeIndex len e
    end in
  firstn (final - k) (skipn k l).

End JSNum.

(** [String.prototype.trim], for white space within ASCII. *)
Module JSString.

Fixpoint reverseOnto (s acc : string) : string :=
  match s with
  | EmptyString => acc
  | String c rest => reverseOnto rest (String c acc)
  end.

Definition reverse (s : string) : string := reverseOnto s EmptyString.

Definition trimEnd (s : string) : string := reverse (JS.trimStart (reverse s)).

Definition trim (s : string) : string := trimEnd (JS.trimStart s).

End JSString.

Module WorkspaceRoutes.
Import Workspace.

Section Routes.

(** [Object.values(ROLES)] of [middleware/rbac], the model methods
    [workspace.canManageRole(userId, role)] and
    [workspace.logActivity(action, userId, details)], and
    [workspace.save()]: their code is not among the sources. *)
Variable ROLE_VALUES : list string.
Variable canManageRole : Workspace.t -> ObjectId -> string -> bool.
Variable logActivity : Workspace.t -> string -> ObjectId -> Json.t -> Workspace.t.
Variable save : Workspace.t -> Promise unit.

Definition idJson (id : ObjectId) : Json.t := Json.Num (JS.Num id).

(** The end of a mutating handler: save, then answer; a rejected save is
    caught and answered with 500.  The [populate] calls some handlers make
    between the save and the answer only read, and are taken to succeed.
    The second component is the document that was stored, if any. *)
Definition saveAndAnswer {D : Type} (workspace : Workspace.t) (answer : Rest.Answer D)
  : Rest.Answer D * option Workspace.t :=
  match save workspace with
  | Resolved _ => (answer, Some workspace)
  | Rejected message => (Rest.Failure 500 message, None)
  end.

(** POST /, which creates a workspace.  [requester] is [req.user._id];
    [name], [description] and [settings] are the body's keys; [newId] is the
    ObjectId the driver gives the document and [now] the reading of
    [new Date()].  Array fields the constructor is not given start empty. *)
Definition postCreate (newId requester : ObjectId) (now : Z)
  (name description : JS.Param) (settings : Json.t)
  : Rest.Answer Workspace.t * option Workspace.t :=
  if negb (JS.truthy name)
     || Nat.eqb (String.length (JSString.trim (JS.str name))) 0
  then (Rest.Failure 400 "Workspace name is required", None)
  else
    let workspace :=
      {| _id := newId;
         Workspace.name := JSString.trim (JS.str name);
         Workspace.description := option_map JSString.trim description;
         Workspace.settings := if Json.truthy settings then settings else Json.Obj [];
         owner := requester;
         members :=
           [{| user := requester; role := "owner"; status := "active"; joinedAt := now |}];
         activityLog := [];
         discussions := [] |} in
    let logged := logActivity workspace "workspace:created" requester Json.Undefined in
    match save logged with
    | Resolved _ =>
        (Rest.Success 201 (Some logged) (Some "Workspace created successfully"),
         Some logged)
    | Rejected message => (Rest.Failure 500 message, None)
    end.

(** PUT /:id/members/:userId, after [checkPermission('members:promote')] has
    set [req.workspace]; [requester] is [req.user._id], [role] is
    [req.body.role]. *)
Definition putMemberRole (workspace : Workspace.t) (requester userId : ObjectId)
  (role : JS.Param) : Rest.Answer Member * option Workspace.t :=
  if negb match role with
          | Some r => existsb (String.eqb r) ROLE_VALUES
          | None => false
          end
  then (Rest.Failure 400 "Invalid role", None)
  else if owner workspace =? userId
  then (Rest.Failure 400 "Cannot change owner role", None)
  else if String.eqb (JS.str role) "owner"
  then (Rest.Failure 400 "Cannot promote to owner. Use transfer ownership instead.", None)
  else if negb (canManageRole workspace requester (JS.str role))
  then (Rest.Failure 403 "You cannot assign this role", None)
  else
    match findMember (members workspace) userId with
    | None => (Rest.Failure 404 "Member not found", None)
    | Some member =>
        let oldRole := Workspace.role member in
        let changed :=
          withMembers workspace (setRoleOfFirst userId (JS.str role) (members workspace)) in
        let logged :=
          logActivity changed "member:role_changed" requester
            (Json.Obj [("targetUser", idJson userId);
                       ("oldRole", Json.Str oldRole);
                       ("newRole", Json.Str (JS.str role))]) in
        saveAndAnswer logged
          (Rest.Success 200 (Some (withRole member (JS.str role)))
             (Some (String.append "Member role updated to " (JS.str role))))
    end.

(** DELETE /:id/members/:userId, after [checkPermission('members:remove')]. *)
Definition deleteMember (workspace : Workspace.t) (requester userId : ObjectId)
  : Rest.Answer unit * option Workspace.t :=
  if owner workspace =? userId
  then (Rest.Failure 400 "Cannot remove workspace owner", None)
  else
    match findMember (members workspace) userId with
    | None => (Rest.Failure 404 "Member not found", None)
    | Some removedMember =>
        if negb (canManageRole workspace requester (Workspace.role removedMember))
        then (Rest.Failure 403 "You cannot remove members with this role", None)
        else
          let changed := withMembers workspace (removeFirst userId (members workspace)) in
          let logged :=
            logActivity changed "member:removed" requester
              (Json.Obj [("targetUser", idJson userId);
                         ("removedRole", Json.Str (Workspace.role removedMember))]) in
          saveAndAnswer logged
            (Rest.Success 200 None (Some "Member removed successfully"))
    end.

(** POST /:id/leave, after [workspaceAccess()]; [userId] is [req.user._id]. *)
Definition postLeave (workspace : Workspace.t) (userId : ObjectId)
  : Rest.Answer unit * option Workspace.t :=
  if owner workspace =? userId
  then (Rest.Failure 400 "Owner cannot leave workspace. Transfer ownership first.", None)
  else
    match findMember (members workspace) userId with
    | None => (Rest.Failure 404 "You are not a member of this workspace", None)
    | Some _ =>
        let changed := withMembers workspace (removeFirst userId (members workspace)) in
        let logged :=
          logActivity changed "member:removed" userId
            (Json.Obj [("targetUser", idJson userId);
                       ("selfRemoval", Json.Bool true)]) in
        saveAndAnswer logged
          (Rest.Success 200 None (Some "You have left the workspace"))
    end.

(** POST /:id/transfer, after [requireOwner()]; [newOwnerId] is
    [req.body.newOwnerId], [None] when it is missing. *)
Definition postTransfer (workspace : Workspace.t) (requester : ObjectId)
  (newOwnerId : option ObjectId) : Rest.Answer Workspace.t * option Workspace.t :=
  match newOwnerId with
  | None => (Rest.Failure 400 "New owner ID is required", None)
  | Some newOwner =>
      match findMember (members workspace) newOwner with
      | None => (Rest.Failure 400 "New owner must be an existing member", None)
      | Some _ =>
          let oldOwnerId := owner workspace in
          let promoted := setRoleOfFirst newOwner "owner" (members workspace) in
          let demoted :=
            match findMember promoted oldOwnerId with
            | Some _ => setRoleOfFirst oldOwnerId "manager" promoted
            | None => promoted
            end in
          let changed := withMembers (withOwner workspace newOwner) demoted in
          let logged :=
            logActivity changed "workspace:transfer" requester
              (Json.Obj [("oldOwner", idJson oldOwnerId);
                         ("newOwner", idJson newOwner)]) in
          saveAndAnswer logged
            (Rest.Success 200 (Some logged) (Some "Ownership transferred successfully"))
      end
  end.

(** The keys of the activity answer beside [success]. *)
Record ActivityPage := {
  data : list Json.t;
  total : nat
}.

(** GET /:id/activity, after [checkPermission('audit:view')].  [limit] and
    [offset] are the numbers the query values convert to, whole numbers or
    NaN, [None] when the query has no such key.  [Workspace.populate] only
    reads and is taken to succeed; the activities are answered as stored. *)
Definition getActivity (workspace : Workspace.t) (limit offset : option JS.Number)
  : Rest.Answer ActivityPage :=
  let limit := match limit with Some n => n | None => JS.Num 50 end in
  let offset := match offset with Some n => n | None => JS.Num 0 end in
  let activities :=
    rev (JSNum.slice (activityLog workspace)
           (JSNum.sub (JSNum.neg limit) offset)
           (JSNum.orUndefined (JSNum.neg offset))) in
  Rest.Success 200
    (Some {| data := activities; total := List.length (activityLog workspace) |})
    None.

End Routes.

Section Join.

(** [inviteService.acceptInvite(token, userId)] and
    [inviteService.joinViaLink(linkToken, userId)], whose code is not among
    the sources: any functions of their arguments. *)
Variable acceptInvite : string -> ObjectId -> Promise Json.t.
Variable joinViaLink : string -> ObjectId -> Promise Json.t.

Record JoinData := {
  result : Json.t;
  resultMessage : Json.t
}.

(** POST /join; [token] and [linkToken] are the string values of the body's
    keys.  The answer carries the result and its [message]; a rejection is
    caught and answered with 400. *)
Definition postJoin (userId : ObjectId) (token linkToken : JS.Param)
  : Rest.Answer JoinData :=
  tryCatch
    (if JS.truthy token then
       await result <- acceptInvite (JS.str token) userId ;;
       await message <- Json.get result "message" ;;
       Resolved
         (Rest.Success 200 (Some {| result := result; resultMessage := message |}) None)
     else if JS.truthy linkToken then
       await result <- joinViaLink (JS.str linkToken) userId ;;
       await message <- Json.get result "message" ;;
       Resolved
         (Rest.Success 200 (Some {| result := result; resultMessage := message |}) None)
     else Resolved (Rest.Failure 400 "Invite token or link token is required"))
    (fun message => Rest.Failure 400 message).

End Join.
End WorkspaceRoutes.

(* ================================================================== *)
(** * Numbers with a fraction *)
(* ================================================================== *)

(** The arithmetic of JavaScript numbers, for the services that compute with
    amounts and rates: the type of doubles, the double a numeric literal
    denotes, the operators, [Math.round], and NaN.  Nothing below depends on
    what these compute. *)
Class Doubles := {
  double : Type;
  literal : string -> double;
  fadd : double -> double -> double;
  fsub : double -> double -> double;
  fmul : double -> double -> double;
  fdiv : double -> double -> double;
  fgt : double -> double -> bool;
  fge : double -> double -> bool;
  fround : double -> double;
  fnan : double
}.

(** [Math.round(x * 100) / 100]. *)
Definition round2 {F : Doubles} (x : double) : double :=
  fdiv (fround (fmul x (literal "100"))) (literal "100").

(** An operand read from an object: a missing key is [undefined], which
    arithmetic converts to NaN. *)
Definition operand {F : Doubles} (x : option double) : double :=
  match x with
  | Some d => d
  | None => fnan
  end.

(* ================================================================== *)
(** * services/currencyService.js *)
(* ================================================================== *)

Module CurrencyService.
Section Service.
Context {F : Doubles}.

(** An object with currency codes as keys, in key order. *)
Definition Rates := list (string * double).

Fixpoint rateOf (currency : string) (rates : Rates) : option double :=
  match rates with
  | [] => None
  | (k, v) :: rest => if String.eqb k currency then Some v else rateOf currency rest
  end.

Fixpoint setRate (currency : string) (v : double) (rates : Rates) : Rates :=
  match rates with
  | [] => [(currency, v)]
  | (k, old) :: rest =>
      if String.eqb k currency then (k, v) :: rest
      else (k, old) :: setRate currency v rest
  end.

(** [{ ...rates, ...newRates }]. *)
Definition spread (rates newRates : Rates) : Rates :=
  fold_left (fun acc kv => setRate (fst kv) (snd kv) acc) newRates rates.

Record Cached := {
  rates : Rates;
  timestamp : Z
}.

(** [this.rateCache], a Map from cache key to entry. *)
Definition Cache := list (string * Cached).

Fixpoint cacheGet (key : string) (cache : Cache) : option Cached :=
  match cache with
  | [] => None
  | (k, v) :: rest => if String.eqb k key then Some v else cacheGet key rest
  end.

Fixpoint cacheSet (key : string) (v : Cached) (cache : Cache) : Cache :=
  match cache with
  | [] => [(key, v)]
  | (k, old) :: rest =>
      if String.eqb k key then (k, v) :: rest
      else (k, old) :: cacheSet key v rest
  end.

(** The fields of the service that change; [validCurrencies] and [cacheTTL]
    are set in the constructor and never assigned again. *)
Record t := {
  exchangeRates : Rates;
  rateCache : Cache
}.

Definition validCurrencies : list string := ["USD"; "EUR"; "GBP"; "INR"; "JPY"].

Definition cacheTTL : Z := 5 * 60 * 1000.

(** The service as [new CurrencyService()] leaves it. *)
Definition constructed : t :=
  {| exchangeRates :=
       [("USD", literal "1");
        ("EUR", literal "0.85");
        ("GBP", literal "0.73");
        ("INR", literal "83.12");
        ("JPY", literal "110.25")];
     rateCache := [] |}.

Definition isValidCurrency (currency : string) : bool :=
  existsb (String.eqb currency) validCurrencies.

(** The three readings of [Date.now()] in one call of
    [getExchangeRatesWithCache]: at the freshness test, when the entry is
    stored, and in the value returned. *)
Record Clock := {
  atTest : Z;
  atStore : Z;
  atReturn : Z
}.

(** The rates the method computes when it does not answer from the cache. *)
Definition ratesFor (exchangeRates : Rates) (baseCurrency : string) : Rates :=
  if negb (String.eqb baseCurrency "USD") then
    let baseRate := rateOf baseCurrency exchangeRates in
    map (fun kv => (fst kv, fdiv (snd kv) (operand baseRate))) exchangeRates
  else exchangeRates.

Definition getExchangeRatesWithCache (s : t) (baseCurrency : string) (now : Clock)
  : Cached * t :=
  let cacheKey := String.append "rates_" baseCurrency in
  match cacheGet cacheKey (rateCache s) with
  | Some cached =>
      if atTest now - timestamp cached <? cacheTTL then (cached, s)
      else
        let rates := ratesFor (exchangeRates s) baseCurrency in
        ({| rates := rates; timestamp := atReturn now |},
         {| exchangeRates := exchangeRates s;
            rateCache :=
              cacheSet cacheKey {| rates := rates; timestamp := atStore now |}
                (rateCache s) |})
  | None =>
      let rates := ratesFor (exchangeRates s) baseCurrency in
      ({| rates := rates; timestamp := atReturn now |},
       {| exchangeRates := exchangeRates s;
          rateCache :=
            cacheSet cacheKey {| rates := rates; timestamp := atStore now |}
              (rateCache s) |})
  end.

Definition getExchangeRate (s : t) (fromCurrency toCurrency : string) (now : Clock)
  : double * t :=
  let '(cached, s') := getExchangeRatesWithCache s "USD" now in
  let fromRate := rateOf fromCurrency (rates cached) in
  let toRate := rateOf toCurrency (rates cached) in
  (fdiv (operand toRate) (operand fromRate), s').

Record Conversion := {
  convertedAmount : double;
  exchangeRate : double;
  c_fromCurrency : string;
  c_toCurrency : string
}.

Definition convertCurrency (s : t) (amount : double) (fromCurrency toCurrency : string)
  (now : Clock) : Promise Conversion * t :=
  if negb (isValidCurrency fromCurrency) || negb (isValidCurrency toCurrency) then
    (Rejected "Invalid currency", s)
  else
    let '(cached, s') := getExchangeRatesWithCache s "USD" now in
    let fromRate := rateOf fromCurrency (rates cached) in
    let toRate := rateOf toCurrency (rates cached) in
    let convertedAmount := fmul (fdiv amount (operand fromRate)) (operand toRate) in
    (Resolved
       {| convertedAmount := round2 convertedAmount;
          exchangeRate := fdiv (operand toRate) (operand fromRate);
          c_fromCurrency := fromCurrency;
          c_toCurrency := toCurrency |},
     s').

Definition clearCache (s : t) : t :=
  {| exchangeRates := exchangeRates s; rateCache := [] |}.

Definition updateExchangeRates (s : t) (newRates : Rates) : t :=
  clearCache
    {| exchangeRates := spread (exchangeRates s) newRates;
       rateCache := rateCache s |}.

(** The states the service can be in: as constructed, and after any call of
    a method. *)
Inductive reachable : t -> Prop :=
| reach_constructed : reachable constructed
| reach_rates s base now :
    reachable s -> reachable (snd (getExchangeRatesWithCache s base now))
| reach_rate s from to now :
    reachable s -> reachable (snd (getExchangeRate s from to now))
| reach_convert s amount from to now :
    reachable s -> reachable (snd (convertCurrency s amount from to now))
| reach_clear s : reachable s -> reachable (clearCache s)
| reach_update s newRates : reachable s -> reachable (updateExchangeRates s newRates).

End Service.
End CurrencyService.

(* ================================================================== *)
(** * services/debtService.js: the amortization schedule *)
(* ================================================================== *)

Module DebtService.
Section Service.
Context {F : Doubles}.

(** The fields of a debt that the schedule reads. *)
Record Debt := {
  interestRate : double;
  currentBalance : double;
  monthlyPayment : double
}.

Record Row := {
  month : Z;
  payment : double;
  principalPayment : double;
  interestPayment : double;
  remainingBalance : double;
  totalInterestToDate : double
}.

Definition maxMonths : Z := 600.

(** [schedule.reduce((sum, p) => sum + p.interestPayment, 0)]. *)
Definition interestSoFar (schedule : list Row) : double :=
  fold_left (fun sum p => fadd sum (interestPayment p)) schedule (literal "0").

(** The [while] loop, with the iterations left to run as the structural
    argument; the loop's own test on [month] ends it after at most
    [maxMonths] rounds. *)
Fixpoint amortize (rounds : nat) (monthlyInterestRate monthlyPayment : double)
  (month : Z) (remainingBalance : double) (schedule : list Row) : list Row :=
  match rounds with
  | O => schedule
  | S rounds' =>
      if fgt remainingBalance (literal "0.01") && (month <=? maxMonths) then
        let interestPayment := fmul remainingBalance monthlyInterestRate in
        let principalPayment := fsub monthlyPayment interestPayment in
        let '(principalPayment, remainingBalance) :=
          if fge principalPayment remainingBalance
          then (remainingBalance, literal "0")
          else (principalPayment, fsub remainingBalance principalPayment) in
        let row :=
          {| month := month;
             payment := monthlyPayment;
             principalPayment := round2 principalPayment;
             interestPayment := round2 interestPayment;
             remainingBalance := round2 remainingBalance;
             totalInterestToDate := fadd (interestSoFar schedule) interestPayment |} in
        amortize rounds' monthlyInterestRate monthlyPayment
          (month + 1) remainingBalance (schedule ++ [row])
      else schedule
  end.

Definition calculateAmortizationScheduleWithin (rounds : nat) (debt : Debt)
  (extraPayment : double) : list Row :=
  let monthlyInterestRate :=
    fdiv (fdiv (interestRate debt) (literal "100")) (literal "12") in
  let monthlyPayment := fadd (monthlyPayment debt) extraPayment in
  amortize rounds monthlyInterestRate monthlyPayment 1 (currentBalance debt) [].

(** [calculateAmortizationSchedule(debt, extraPayment)]: the loop starts at
    month 1 and tests [month <= maxMonths], so 600 rounds are all it can
    run. *)
Definition calculateAmortizationSchedule (debt : Debt) (extraPayment : double)
  : list Row :=
  calculateAmortizationScheduleWithin 600 debt extraPayment.

End Service.
End DebtService.

(* ================================================================== *)
(** * Properties of workspaces the statements below are written with *)
(* ================================================================== *)

(** The owner of the workspace has an entry among its members. *)
Definition ownerIsMember (w : Workspace.t) : Prop :=
  exists m, In m (Workspace.members w) /\ Workspace.user m = Workspace.owner w.

(** [logActivity] writes the activity log only: it leaves the owner and the
    members of the document as they are. *)
Definition keepsMembership
  (logActivity : Workspace.t -> string -> ObjectId -> Json.t -> Workspace.t) : Prop :=
  forall w action userId details,
    Workspace.owner (logActivity w action userId details) = Workspace.owner w /\
    Workspace.members (logActivity w action userId details) = Workspace.members w.

(** Newest first: descending by [lastMessageAt]. *)
Definition newestFirstOrder (ds : list Workspace.Discussion) : Prop :=
  StronglySorted
    (fun a b => Workspace.lastMessageAt b <= Workspace.lastMessageAt a) ds.

(** The months of a schedule are 1, 2, ..., n. *)
Definition monthsFromOne {F : Doubles} (schedule : list DebtService.Row) : Prop :=
  map DebtService.month schedule = versionsUpTo (List.length schedule).

(** Every entry of the rate cache holds the rates the service would compute
    now for the entry's base currency. *)
Definition cacheCoherent {F : Doubles} (s : CurrencyService.t) : Prop :=
  forall base entry,
    CurrencyService.cacheGet (String.append "rates_" base) (CurrencyService.rateCache s)
    = Some entry ->
    CurrencyService.rates entry
    = CurrencyService.ratesFor (CurrencyService.exchangeRates s) base.

(** Each of the five valid currencies has a rate. *)
Definition validCurrenciesRated {F : Doubles} (s : CurrencyService.t) : Prop :=
  forall currency,
    CurrencyService.isValidCurrency currency = true ->
    exists r, CurrencyService.rateOf currency (CurrencyService.exchangeRates s) = Some r.

(* ================================================================== *)
(** * A worked workspace, requests and arithmetic *)
(* ================================================================== *)

Module Demo.

Definition member (id : ObjectId) (r : string) : Workspace.Member :=
  {| Workspace.user := id;
     Workspace.role := r;
     Workspace.status := "active";
     Workspace.joinedAt := 1704067200000 |}.

Definition discussion (type : string) (at_ : Z) : Workspace.Discussion :=
  {| Workspace.parentType := type;
     Workspace.parentId := Json.Str "e1";
     Workspace.title := "Receipt";
     Workspace.lastMessageAt := at_ |}.

(** A workspace owned by user 1, with an admin 2 and a viewer 3. *)
Definition team : Workspace.t :=
  {| Workspace._id := 10;
     Workspace.name := "Household";
     Workspace.description := None;
     Workspace.settings := Json.Obj [];
     Workspace.owner := 1;
     Workspace.members := [member 1 "owner"; member 2 "admin"; member 3 "viewer"];
     Workspace.activityLog :=
       [Json.Str "a1"; Json.Str "a2"; Json.Str "a3"; Json.Str "a4"; Json.Str "a5"];
     Workspace.discussions :=
       [discussion "expense" 5; discussion "budget" 9; discussion "expense" 7] |}.

(** A [save] that always stores. *)
Definition save (w : Workspace.t) : Promise unit := Resolved tt.

(** A [logActivity] that appends to the activity log. *)
Definition logActivity (w : Workspace.t) (action : string) (userId : ObjectId)
  (details : Json.t) : Workspace.t :=
  {| Workspace._id := Workspace._id w;
     Workspace.name := Workspace.name w;
     Workspace.description := Workspace.description w;
     Workspace.settings := Workspace.settings w;
     Workspace.owner := Workspace.owner w;
     Workspace.members := Workspace.members w;
     Workspace.activityLog :=
       Workspace.activityLog w
       ++ [Json.Obj [("action", Json.Str action);
                     ("performedBy", Json.Num (JS.Num userId));
                     ("details", details)]];
     Workspace.discussions := Workspace.discussions w |}.

Definition roles : list string := ["owner"; "manager"; "editor"; "viewer"].

Definition canManageRole (w : Workspace.t) (userId : ObjectId) (role : string) : bool :=
  true.

Definition createExpense : SyncInterceptor.Request :=
  {| SyncInterceptor.method := "POST";
     SyncInterceptor.originalUrl := "/api/expenses";
     SyncInterceptor.x_device_id := Some "phone-1";
     SyncInterceptor.user_id := 7;
     SyncInterceptor.body := Json.Obj [("amount", Json.Num (JS.Num 10))] |}.

Definition createdFields : list (string * Json.t) :=
  [("success", Json.Bool true);
   ("data", Json.Arr [Json.Obj [("amount", Json.Num (JS.Num 10))];
                      Json.Obj [("amount", Json.Num (JS.Num 20))]])].

Definition created : Json.t := Json.Obj createdFields.

(** A push whose body has no [data]. *)
Definition emptyPush : SyncPush.PushRequest :=
  {| SyncPush.user_id := 7;
     SyncPush.x_device_id := None;
     SyncPush.body := Json.Obj [("entityType", Json.Str "Transaction")] |}.

Definition applied (userId : ObjectId) (deviceId : string) (entityType data : Json.t)
  : Promise Json.t :=
  Resolved (Json.Obj [("action", Json.Str "created"); ("entity", data)]).

Definition accepted (token : string) (userId : ObjectId) : Promise Json.t :=
  Resolved (Json.Obj [("message", Json.Str "Joined")]).

Definition expired (token : string) (userId : ObjectId) : Promise Json.t :=
  Rejected "Invite link has expired".

(** An event of another entity. *)
Definition elsewhere : FinancialEvent.t :=
  {| FinancialEvent._id := 201;
     FinancialEvent.userId := 7;
     FinancialEvent.eventType := FinancialEvent.WS_CREATED;
     FinancialEvent.entityType := "Workspace";
     FinancialEvent.entityId := 2;
     FinancialEvent.payload := Snapshot [("name", VStr "Household")];
     FinancialEvent.previousEventId := None;
     FinancialEvent.metadata := Sample.meta 1704153600000 "req-9";
     FinancialEvent.checksum := "none";
     FinancialEvent.version := 1 |}.

(** A patch of the workspace name, for [updateWorkspace]. *)
Definition rename (w : Workspace.t) (newName : string) : Workspace.t :=
  {| Workspace._id := Workspace._id w;
     Workspace.name := newName;
     Workspace.description := Workspace.description w;
     Workspace.settings := Workspace.settings w;
     Workspace.owner := Workspace.owner w;
     Workspace.members := Workspace.members w;
     Workspace.activityLog := Workspace.activityLog w;
     Workspace.discussions := Workspace.discussions w |}.

(** A stand-in arithmetic on integers, to evaluate the services with. *)
#[local] Instance integers : Doubles :=
  {| double := Z;
     literal := fun s => JS.orZero (JS.parseInt s);
     fadd := Z.add;
     fsub := Z.sub;
     fmul := Z.mul;
     fdiv := Z.div;
     fgt := fun a b => b <? a;
     fge := fun a b => b <=? a;
     fround := fun x => x;
     fnan := 0 |}.

Definition loan : DebtService.Debt :=
  {| DebtService.interestRate := 12;
     DebtService.currentBalance := 1000;
     DebtService.monthlyPayment := 300 |}.

Definition noon : CurrencyService.Clock :=
  {| CurrencyService.atTest := 1704110400000;
     CurrencyService.atStore := 1704110400000;
     CurrencyService.atReturn := 1704110400000 |}.

End Demo.

(* ================================================================== *)
(** * Facts about sorted query results *)
(* ================================================================== *)

Section SortFacts.
Context {A : Type}.
Variable key : A -> Z.

Definition ascending : list A -> Prop :=
  StronglySorted (fun a b => key a <= key b).

Lemma insertBy_perm (x : A) (l : list A) :
  Permutation (insertBy key x l) (x :: l).
Proof.
  induction l as [|y rest IH]; simpl.
  - apply Permutation_refl.
  - destruct (key x <=? key y).
    + apply Permutation_refl.
    + eapply Permutation_trans.
      * apply perm_skip, IH.
      * apply perm_swap.
Qed.

Lemma sortBy_perm (l : list A) : Permutation (sortBy key l) l.
Proof.
  induction l as [|x rest IH]; simpl.
  - constructor.
  - eapply Permutation_trans; [apply insertBy_perm|].
    now apply perm_skip.
Qed.

Lemma sortBy_In (l : list A) (x : A) : In x (sortBy key l) <-> In x l.
Proof.
  split; apply Permutation_in;
    [apply sortBy_perm | apply Permutation_sym, sortBy_perm].
Qed.

Lemma sortBy_length (l : list A) : List.length (sortBy key l) = List.length l.
Proof. apply Permutation_length, sortBy_perm. Qed.

Lemma insertBy_ascending (x : A) (l : list A) :
  ascending l -> ascending (insertBy key x l).
Proof.
  unfold ascending.
  induction l as [|y rest IH]; intros Hs; simpl.
  - repeat constructor.
  - inversion Hs as [|? ? Hrest Hall]; subst.
    destruct (key x <=? key y) eqn:Hxy.
    + apply Z.leb_le in Hxy.
      constructor; [assumption|].
      constructor; [assumption|].
      eapply Forall_impl; [|exact Hall].
      simpl; intros; lia.
    + apply Z.leb_gt in Hxy.
      constructor; [now apply IH|].
      apply (Permutation_Forall (Permutation_sym (insertBy_perm x rest))).
      constructor; [lia | assumption].
Qed.

Lemma sortBy_ascending (l : list A) : ascending (sortBy key l).
Proof.
  induction l as [|x rest IH]; simpl.
  - constructor.
  - now apply insertBy_ascending.
Qed.

(** An element above everything in the list goes to the end. *)
Lemma insertBy_above (x : A) (l : list A) :
  Forall (fun y => key y < key x) l -> insertBy key x l = l ++ [x].
Proof.
  induction 1 as [|y rest Hy _ IH]; simpl; [reflexivity|].
  destruct (key x <=? key y) eqn:Hxy.
  - apply Z.leb_le in Hxy; lia.
  - now rewrite IH.
Qed.

(** Inserting below the last element leaves the last element in place. *)
Lemma insertBy_before_last (a x : A) (s : list A) :
  key a <= key x -> insertBy key a (s ++ [x]) = insertBy key a s ++ [x].
Proof.
  intros Hax.
  induction s as [|y rest IH]; simpl.
  - apply Z.leb_le in Hax. now rewrite Hax.
  - destruct (key a <=? key y); [reflexivity|].
    now rewrite IH.
Qed.

Lemma sortBy_snoc (l : list A) (x : A) :
  Forall (fun y => key y <= key x) l ->
  sortBy key (l ++ [x]) = sortBy key l ++ [x].
Proof.
  induction 1 as [|y rest Hy _ IH]; simpl; [reflexivity|].
  rewrite IH. now apply insertBy_before_last.
Qed.

Lemma filter_ext_In (f g : A -> bool) (l : list A) :
  (forall x, In x l -> f x = g x) -> filter f l = filter g l.
Proof.
  induction l as [|x rest IH]; intros H; simpl; [reflexivity|].
  rewrite (H x (or_introl eq_refl)).
  rewrite IH; [reflexivity|].
  intros y Hy; apply H; now right.
Qed.

(** Raising the bound of a query by one adds the single document whose key
    is the new bound, at the end of the sorted result. *)
Lemma sortBy_filter_next (sel : A -> bool) (n : Z) (e : A) (l : list A) :
  NoDup (map key (filter sel l)) ->
  In e l -> sel e = true -> key e = n + 1 ->
  sortBy key (filter (fun x => sel x && (key x <=? n + 1)) l)
  = sortBy key (filter (fun x => sel x && (key x <=? n)) l) ++ [e].
Proof.
  intros Hnd Hin Hsel Hkey.
  induction l as [|x rest IH]; [contradiction|].
  simpl in Hnd. simpl.
  destruct (sel x) eqn:Hsx; simpl.
  - inversion Hnd as [|? ? Hnotin Hnd']; subst.
    destruct (key x <=? n) eqn:Hle.
    + apply Z.leb_le in Hle.
      assert (Hle1 : (key x <=? n + 1) = true) by (apply Z.leb_le; lia).
      rewrite Hle1. simpl.
      destruct Hin as [Heq|Hin]; [subst; lia|].
      rewrite (IH Hnd' Hin).
      apply insertBy_before_last; lia.
    + apply Z.leb_gt in Hle.
      destruct (key x <=? n + 1) eqn:Hle1.
      * apply Z.leb_le in Hle1.
        assert (Hkx : key x = key e) by lia.
        assert (Hxe : e = x).
        { destruct Hin as [Heq|Hin]; [now symmetry|].
          exfalso. apply Hnotin. rewrite Hkx.
          apply in_map. apply filter_In. now split. }
        subst x. simpl.
        assert (Hsame : filter (fun x => sel x && (key x <=? n + 1)) rest
                        = filter (fun x => sel x && (key x <=? n)) rest).
        { apply filter_ext_In. intros y Hy.
          destruct (sel y) eqn:Hsy; simpl; [|reflexivity].
          destruct (Z.eq_dec (key y) (key e)) as [Heq|Hne].
          - exfalso. apply Hnotin. rewrite <- Heq.
            apply in_map. apply filter_In. now split.
          - destruct (key y <=? n + 1) eqn:H1, (key y <=? n) eqn:H2;
              try reflexivity.
            + apply Z.leb_le in H1. apply Z.leb_gt in H2. lia.
            + apply Z.leb_gt in H1. apply Z.leb_le in H2. lia. }
        rewrite Hsame.
        apply insertBy_above.
        apply Forall_forall. intros y Hy.
        apply (proj1 (sortBy_In _ _)) in Hy. apply filter_In in Hy.
        destruct Hy as [_ Hy]. apply andb_prop in Hy.
        destruct Hy as [_ Hy]. apply Z.leb_le in Hy. lia.
      * apply Z.leb_gt in Hle1.
        destruct Hin as [Heq|Hin]; [subst; lia|].
        now apply IH.
  - destruct Hin as [Heq|Hin]; [subst; congruence|].
    now apply IH.
Qed.

Lemma lastOpt_snoc (l : list A) (x : A) : lastOpt (l ++ [x]) = Some x.
Proof.
  induction l as [|y rest IH]; simpl; [reflexivity|].
  destruct (rest ++ [x]) eqn:Hr; [|exact IH].
  destruct rest; discriminate.
Qed.

End SortFacts.

(* ================================================================== *)
(** * Facts about the event collection's queries *)
(* ================================================================== *)

Section QueryFacts.
Variable c : FinancialEvent.Collection.

Lemma findSorted_entity (entity : ObjectId) :
  findSorted c {| q_entityId := entity; q_version_lte := None; q_timestamp_lte := None |}
  = Resolved (chainOf c entity).
Proof.
  unfold findSorted, find, chainOf; simpl.
  do 2 f_equal. apply filter_ext. intros e.
  now rewrite !andb_true_r.
Qed.

Lemma findSorted_version (entity : ObjectId) (v : Z) :
  findSorted c {| q_entityId := entity;
                  q_version_lte := Some (JS.Num v);
                  q_timestamp_lte := None |}
  = Resolved
      (sortByVersion
         (filter (fun e => (entityId e =? entity) && (version e <=? v)) c)).
Proof.
  unfold findSorted, find; simpl.
  do 2 f_equal. apply filter_ext. intros e.
  now rewrite andb_true_r.
Qed.

Lemma findSorted_timestamp (entity : ObjectId) (ms : Z) :
  findSorted c {| q_entityId := entity;
                  q_version_lte := None;
                  q_timestamp_lte := Some (JS.Millis ms) |}
  = Resolved
      (sortByVersion
         (filter (fun e => (entityId e =? entity) && (timestamp (metadata e) <=? ms)) c)).
Proof.
  unfold findSorted, find; simpl.
  do 2 f_equal. apply filter_ext. intros e.
  now rewrite andb_true_r.
Qed.

Lemma chainOf_perm (entity : ObjectId) :
  Permutation (chainOf c entity) (filter (fun e => entityId e =? entity) c).
Proof. apply sortBy_perm. Qed.

Lemma chainOf_ascending (entity : ObjectId) : ascendingVersions (chainOf c entity).
Proof. apply sortBy_ascending. Qed.

Lemma chainOf_In (entity : ObjectId) (e : FinancialEvent.t) :
  In e (chainOf c entity) <-> In e c /\ entityId e = entity.
Proof.
  unfold chainOf, sortByVersion. rewrite sortBy_In, filter_In.
  now rewrite Z.eqb_eq.
Qed.

(** Under the unique index the events of one entity have distinct versions. *)
Lemma uniqueIndex_versions (entity : ObjectId) :
  uniqueIndex c ->
  NoDup (map version (filter (fun e => entityId e =? entity) c)).
Proof.
  unfold uniqueIndex.
  induction c as [|x rest IH]; simpl; intros Hnd; [constructor|].
  inversion Hnd as [|? ? Hnotin Hnd']; subst.
  destruct (entityId x =? entity) eqn:Hx; simpl; [|now apply IH].
  constructor; [|now apply IH].
  intros Hin. apply in_map_iff in Hin.
  destruct Hin as [y [Hv Hy]]. apply filter_In in Hy.
  destruct Hy as [Hy Hey].
  apply Hnotin. apply in_map_iff. exists y. split; [|assumption].
  apply Z.eqb_eq in Hx. apply Z.eqb_eq in Hey.
  unfold indexKey. congruence.
Qed.

End QueryFacts.

Lemma isEmpty_nil_iff (events : list FinancialEvent.t) :
  ForensicReplayEngine.isEmpty events = true <-> events = [].
Proof.
  unfold ForensicReplayEngine.isEmpty.
  destruct events; simpl; split; intros H; congruence.
Qed.

Lemma reconstruct_snoc (base : State) (events : list FinancialEvent.t)
  (e : FinancialEvent.t) :
  reconstruct base (events ++ [e]) = applyEvent (reconstruct base events) e.
Proof. unfold reconstruct. now rewrite fold_left_app. Qed.

(* ================================================================== *)
(** * The replay engine *)
(* ================================================================== *)

(** C5. For every entity E and version bound v: when the collection holds
    no event of E with a version at or below v, [replayToVersion(E, v)]
    resolves with [null]; it does not reject. *)
Theorem replayToVersion_no_events_null
  (c : FinancialEvent.Collection) (entity : ObjectId) (v : Z) :
  (forall e, In e c -> entityId e = entity -> ~ version e <= v) ->
  ForensicReplayEngine.replayToVersion c entity (JS.Num v) = Resolved None.
Proof.
  intros Hnone.
  unfold ForensicReplayEngine.replayToVersion.
  rewrite findSorted_version. simpl.
  assert (Hnil : filter (fun e => (entityId e =? entity) && (version e <=? v)) c = []).
  { induction c as [|x rest IH]; simpl; [reflexivity|].
    destruct ((entityId x =? entity) && (version x <=? v)) eqn:Hx.
    - exfalso. apply andb_prop in Hx. destruct Hx as [He Hv].
      apply Z.eqb_eq in He. apply Z.leb_le in Hv.
      exact (Hnone x (or_introl eq_refl) He Hv).
    - apply IH. intros e He. apply Hnone. now right. }
  now rewrite Hnil.
Qed.

(** C3. For every entity E and version n with events up to n+1 stored
    (an event at or below n, and the event e of version n+1): replaying to n
    gives a state s, and replaying to n+1 gives exactly s with e folded onto
    it. *)
Theorem replayToVersion_fold_next
  (c : FinancialEvent.Collection) (entity : ObjectId) (n : Z)
  (e : FinancialEvent.t) :
  uniqueIndex c ->
  In e c -> entityId e = entity -> version e = n + 1 ->
  (exists e0, In e0 c /\ entityId e0 = entity /\ version e0 <= n) ->
  exists s,
    ForensicReplayEngine.replayToVersion c entity (JS.Num n) = Resolved (Some s) /\
    ForensicReplayEngine.replayToVersion c entity (JS.Num (n + 1))
    = Resolved (Some (applyEvent s e)).
Proof.
  intros Huniq Hin Hent Hver [e0 [Hin0 [Hent0 Hver0]]].
  unfold ForensicReplayEngine.replayToVersion.
  rewrite !findSorted_version. simpl.
  unfold sortByVersion.
  rewrite (sortBy_filter_next version (fun x => entityId x =? entity) n e c);
    [ | now apply uniqueIndex_versions | assumption
      | now apply Z.eqb_eq | assumption ].
  set (upto := sortBy version
                 (filter (fun x => (entityId x =? entity) && (version x <=? n)) c)).
  assert (Hne : ForensicReplayEngine.isEmpty upto = false).
  { destruct (ForensicReplayEngine.isEmpty upto) eqn:Hemp; [|reflexivity].
    apply isEmpty_nil_iff in Hemp.
    assert (Hin' : In e0 upto).
    { apply sortBy_In. apply filter_In. split; [assumption|].
      apply andb_true_intro. split; [now apply Z.eqb_eq | now apply Z.leb_le]. }
    rewrite Hemp in Hin'. contradiction. }
  assert (Hne' : ForensicReplayEngine.isEmpty (upto ++ [e]) = false).
  { unfold ForensicReplayEngine.isEmpty. rewrite length_app. simpl.
    apply Nat.eqb_neq. lia. }
  rewrite Hne, Hne'.
  exists (reconstruct emptyState upto).
  split; [reflexivity|].
  now rewrite reconstruct_snoc.
Qed.

(** C6. For every entity E and timestamp t that the Date constructor reads
    as the instant ms: [replayToTime(E, t)] reconstructs the state from the
    empty state and exactly the events of E whose [metadata.timestamp] is at
    or before ms, handed to the fold in ascending version order, and
    resolves with [null] when there is no such event. *)
Theorem replayToTime_folds_events_until
  {R : Runtime} (c : FinancialEvent.Collection) (entity : ObjectId)
  (t : string) (ms : Z) :
  Date_new t = JS.Millis ms ->
  exists events,
    Permutation events
      (filter (fun e => (entityId e =? entity) && (timestamp (metadata e) <=? ms)) c) /\
    ascendingVersions events /\
    ForensicReplayEngine.replayToTime c entity t
    = Resolved
        match events with
        | [] => None
        | _ :: _ => Some (reconstruct emptyState events)
        end.
Proof.
  intros Hdate.
  exists (sortByVersion
            (filter (fun e => (entityId e =? entity) && (timestamp (metadata e) <=? ms)) c)).
  split; [apply sortBy_perm|].
  split; [apply sortBy_ascending|].
  unfold ForensicReplayEngine.replayToTime.
  rewrite Hdate, findSorted_timestamp. simpl.
  destruct (sortByVersion _) as [|x rest]; reflexivity.
Qed.

Lemma auditEntry_renders (users : list User) (e : FinancialEvent.t) :
  populate users (userId e) <> None ->
  exists a, ForensicReplayEngine.auditEntry users e = Resolved a /\ renders users e a.
Proof.
  intros Hpop. unfold ForensicReplayEngine.auditEntry.
  destruct (populate users (userId e)) as [u|] eqn:Hu; [|congruence].
  eexists. split; [reflexivity|].
  unfold renders; simpl. rewrite Hu.
  repeat split; try reflexivity.
  - exists u. now split.
  - now destruct (payload e).
Qed.

Lemma mapP_auditEntry (users : list User) (events : list FinancialEvent.t) :
  (forall e, In e events -> populate users (userId e) <> None) ->
  exists trail,
    mapP (ForensicReplayEngine.auditEntry users) events = Resolved trail /\
    Forall2 (renders users) events trail.
Proof.
  induction events as [|e rest IH]; intros Hpop; simpl.
  - exists []. split; [reflexivity | constructor].
  - destruct (auditEntry_renders users e) as [a [Ha Hr]];
      [apply Hpop; now left|].
    destruct IH as [trail [Ht Hf]]; [intros x Hx; apply Hpop; now right|].
    exists (a :: trail). rewrite Ha, Ht. simpl.
    split; [reflexivity | now constructor].
Qed.

Lemma renders_versions (users : list User) (events : list FinancialEvent.t)
  (trail : list AuditEntry.t) :
  Forall2 (renders users) events trail ->
  map AuditEntry.version trail = map FinancialEvent.version events.
Proof.
  induction 1 as [|e a rest trail Hr _ IH]; simpl; [reflexivity|].
  destruct Hr as [Hv _]. now rewrite Hv, IH.
Qed.

Lemma ascending_map {A : Type} (key : A -> Z) (l : list A) :
  ascending key l -> StronglySorted Z.le (map key l).
Proof.
  induction 1 as [|x rest _ IH Hall]; simpl; constructor; [assumption|].
  now apply Forall_map.
Qed.

(** For every entity whose events were all written by stored users:
    [generateAuditTrail] resolves with one entry per stored event of the
    entity, in ascending version order, each entry carrying the event's
    version, event type, actor name, timestamp, correlation id, and as its
    change summary the delta's diff for a delta event and the marker
    FULL_SNAPSHOT for a snapshot event. *)
Theorem generateAuditTrail_one_entry_per_event
  (c : FinancialEvent.Collection) (users : list User) (entity : ObjectId) :
  (forall e, In e c -> entityId e = entity -> populate users (userId e) <> None) ->
  exists events trail,
    ForensicReplayEngine.generateAuditTrail c users entity = Resolved trail /\
    Permutation events (filter (fun e => entityId e =? entity) c) /\
    ascendingVersions events /\
    Forall2 (renders users) events trail /\
    StronglySorted Z.le (map AuditEntry.version trail).
Proof.
  intros Hpop.
  destruct (mapP_auditEntry users (chainOf c entity)) as [trail [Ht Hf]].
  { intros e He. apply chainOf_In in He. destruct He as [Hin Hent].
    now apply Hpop. }
  exists (chainOf c entity), trail.
  unfold ForensicReplayEngine.generateAuditTrail.
  rewrite findSorted_entity. simpl.
  split; [exact Ht|].
  split; [apply chainOf_perm|].
  split; [apply chainOf_ascending|].
  split; [exact Hf|].
  rewrite (renders_versions users _ _ Hf).
  apply ascending_map, chainOf_ascending.
Qed.

(* ================================================================== *)
(** * GET /replay/:entityId *)
(* ================================================================== *)

Section ReplayRoute.
Context {R : Runtime}.
Variable c : FinancialEvent.Collection.

(** C8, as the handler has it.  The answer is 400 exactly when neither
    [time] nor [v] carries a non-empty value.  A non-empty [time] selects
    [replayToTime] whether or not [v] is there too; [v] selects
    [replayToVersion] when [time] is empty or absent.  A selected replay
    that resolves is answered with status 200 and {success: true, data},
    [data] being the reconstructed state or [null]. *)
Theorem getReplay_400_iff_neither
  (req : ForensicsRoutes.ReplayRequest) :
  (Http.status (ForensicsRoutes.getReplay c req) = 400 <->
   JS.truthy (ForensicsRoutes.query_time req) = false /\
   JS.truthy (ForensicsRoutes.query_v req) = false) /\
  (forall state,
     JS.truthy (ForensicsRoutes.query_time req) = true ->
     ForensicReplayEngine.replayToTime c (ForensicsRoutes.params_entityId req)
       (JS.str (ForensicsRoutes.query_time req)) = Resolved state ->
     ForensicsRoutes.getReplay c req = Http.ok {| ForensicsRoutes.data := state |}) /\
  (forall state,
     JS.truthy (ForensicsRoutes.query_time req) = false ->
     JS.truthy (ForensicsRoutes.query_v req) = true ->
     ForensicReplayEngine.replayToVersion c (ForensicsRoutes.params_entityId req)
       (JS.parseInt (JS.str (ForensicsRoutes.query_v req))) = Resolved state ->
     ForensicsRoutes.getReplay c req = Http.ok {| ForensicsRoutes.data := state |}).
Proof.
  unfold ForensicsRoutes.getReplay.
  destruct (JS.truthy (ForensicsRoutes.query_time req)) eqn:Ht.
  - split; [|split].
    + destruct (ForensicReplayEngine.replayToTime _ _ _); simpl;
        split; intros H; try discriminate; destruct H; discriminate.
    + intros state _ Hsel. now rewrite Hsel.
    + intros state H; discriminate.
  - destruct (JS.truthy (ForensicsRoutes.query_v req)) eqn:Hv.
    + split; [|split].
      * destruct (ForensicReplayEngine.replayToVersion _ _ _); simpl;
          split; intros H; try discriminate; destruct H; discriminate.
      * intros state H; discriminate.
      * intros state _ _ Hsel. now rewrite Hsel.
    + split; [|split].
      * simpl. split; [now split | reflexivity].
      * intros state H; discriminate.
      * intros state _ H; discriminate.
Qed.

(** C10. For every request whose [time] parameter is non-empty: the answer
    is the one built from [replayToTime(entityId, time)] (200 with its state,
    or 500 with its error), it is never 400, and it is the same whatever
    [v] holds, so [v] is neither parsed nor used. *)
Theorem getReplay_time_takes_precedence
  (req : ForensicsRoutes.ReplayRequest) :
  JS.truthy (ForensicsRoutes.query_time req) = true ->
  ForensicsRoutes.getReplay c req
  = match ForensicReplayEngine.replayToTime c (ForensicsRoutes.params_entityId req)
            (JS.str (ForensicsRoutes.query_time req)) with
    | Resolved state => Http.ok {| ForensicsRoutes.data := state |}
    | Rejected message => Http.fail 500 message
    end /\
  Http.status (ForensicsRoutes.getReplay c req) <> 400 /\
  forall v' : JS.Param,
    ForensicsRoutes.getReplay c
      {| ForensicsRoutes.params_entityId := ForensicsRoutes.params_entityId req;
         ForensicsRoutes.query_time := ForensicsRoutes.query_time req;
         ForensicsRoutes.query_v := v' |}
    = ForensicsRoutes.getReplay c req.
Proof.
  intros Ht. unfold ForensicsRoutes.getReplay. simpl. rewrite Ht.
  destruct (ForensicReplayEngine.replayToTime _ _ _); simpl.
  - repeat split; discriminate.
  - repeat split; discriminate.
Qed.

End ReplayRoute.

(* ================================================================== *)
(** * GET /delta *)
(* ================================================================== *)

Lemma nth_error_last_some {A : Type} (l : list A) :
  l <> [] -> exists x, nth_error l (List.length l - 1) = Some x.
Proof.
  intros Hne.
  destruct (nth_error l (List.length l - 1)) as [x|] eqn:Hn; [now exists x|].
  apply nth_error_None in Hn.
  destruct l; [congruence | simpl in Hn; lia].
Qed.

Lemma ascending_last_max {A : Type} (key : A -> Z) (l : list A) (x : A) :
  ascending key l ->
  nth_error l (List.length l - 1) = Some x ->
  Forall (fun y => key y <= key x) l.
Proof.
  induction 1 as [|a rest Hs IH Hall]; intros Hn; [constructor|].
  destruct rest as [|b rest'].
  - simpl in Hn. injection Hn as <-. constructor; [lia | constructor].
  - assert (Hn' : nth_error (b :: rest') (List.length (b :: rest') - 1) = Some x).
    { simpl in *. now rewrite Nat.sub_0_r in *. }
    specialize (IH Hn').
    constructor; [|exact IH].
    apply nth_error_In in Hn'.
    rewrite Forall_forall in Hall. now apply Hall.
Qed.

(** C9. For every caller of GET /delta whose parameter [v] reads as the
    last-seen version (0 when absent or not a number): the answer is 200
    {success: true, v, count, changes}, where [changes] holds exactly the
    user's mutations with a version above the last-seen one, ascending by
    version, [count] is the length of [changes], [v] is the latest version
    of the user's log when the last-seen version does not exceed it, and
    [changes] is empty when no mutation is newer than the last-seen
    version. *)
Theorem getDelta_changes_since
  (logs : list SyncLog.t) (req : SyncRoutes.DeltaRequest) :
  exists body,
    SyncRoutes.getDelta logs req = Http.ok body /\
    SyncRoutes.count body = List.length (SyncRoutes.changes body) /\
    Permutation (SyncRoutes.changes body)
      (filter
         (fun l => (SyncLog.userId l =? SyncRoutes.user_id req)
                   && (JS.orZero (JS.parseIntParam (SyncRoutes.query_v req))
                       <? SyncLog.version l))
         logs) /\
    ascending SyncLog.version (SyncRoutes.changes body) /\
    (forall latest,
       isLatestVersion logs (SyncRoutes.user_id req) latest ->
       JS.orZero (JS.parseIntParam (SyncRoutes.query_v req)) <= latest ->
       SyncRoutes.v body = latest) /\
    ((forall l, In l logs -> SyncLog.userId l = SyncRoutes.user_id req ->
                SyncLog.version l <= JS.orZero (JS.parseIntParam (SyncRoutes.query_v req))) ->
     SyncRoutes.changes body = []).
Proof.
  set (lastVersion := JS.orZero (JS.parseIntParam (SyncRoutes.query_v req))).
  set (newer := fun l => (SyncLog.userId l =? SyncRoutes.user_id req)
                         && (lastVersion <? SyncLog.version l)).
  set (changes := sortBy SyncLog.version (filter newer logs)).
  assert (Hin : forall l, In l changes <->
                  In l logs /\ SyncLog.userId l = SyncRoutes.user_id req
                  /\ lastVersion < SyncLog.version l).
  { intros l. unfold changes. rewrite sortBy_In, filter_In. unfold newer.
    rewrite andb_true_iff, Z.eqb_eq, Z.ltb_lt. tauto. }
  eexists. split; [unfold SyncRoutes.getDelta; simpl; reflexivity|].
  fold lastVersion. fold newer. fold changes. simpl.
  split; [reflexivity|].
  split; [apply sortBy_perm|].
  split; [apply sortBy_ascending|].
  split.
  - intros latest [[top [Htop [Huser Hver]]] Hmax] Hle.
    destruct changes as [|c0 rest] eqn:Hch.
    + simpl.
      destruct (Z.eq_dec lastVersion latest) as [Heq|Hne]; [assumption|].
      exfalso. apply (proj2 (Hin top)). repeat split; try assumption. lia.
    + replace (Nat.ltb 0 (List.length (c0 :: rest))) with true by reflexivity.
      destruct (nth_error_last_some (c0 :: rest)) as [x Hx]; [discriminate|].
      rewrite Hx.
      assert (Hxin : In x (c0 :: rest)) by (eapply nth_error_In; exact Hx).
      apply Hin in Hxin. destruct Hxin as [Hxl [Hxu Hxv]].
      assert (Hup : SyncLog.version x <= latest) by now apply Hmax.
      assert (Hall : Forall (fun y => SyncLog.version y <= SyncLog.version x) (c0 :: rest)).
      { apply ascending_last_max; [|exact Hx].
        rewrite <- Hch. apply sortBy_ascending. }
      assert (Htopin : In top (c0 :: rest)).
      { apply Hin. repeat split; try assumption. lia. }
      rewrite Forall_forall in Hall. specialize (Hall top Htopin). lia.
  - intros Hcurrent.
    destruct changes as [|c0 rest] eqn:Hch; [reflexivity|].
    exfalso.
    assert (Hc0 : In c0 (c0 :: rest)) by now left.
    apply Hin in Hc0. destruct Hc0 as [Hl [Hu Hv]].
    specialize (Hcurrent c0 Hl Hu). lia.
Qed.

(* ================================================================== *)
(** * The event processor: append *)
(* ================================================================== *)

Lemma lastOpt_cases {A : Type} (l : list A) :
  (l = [] /\ lastOpt l = None) \/ (exists pre x, l = pre ++ [x] /\ lastOpt l = Some x).
Proof.
  destruct l as [|a rest]; [now left|]. right.
  destruct (exists_last (l := a :: rest)) as [pre [x Hx]]; [discriminate|].
  exists pre, x. split; [assumption|].
  rewrite Hx. apply lastOpt_snoc.
Qed.

Lemma versionsUpTo_S (n : nat) :
  versionsUpTo (S n) = versionsUpTo n ++ [Z.of_nat n + 1].
Proof.
  unfold versionsUpTo. rewrite seq_S, map_app. simpl.
  do 2 f_equal. lia.
Qed.

Lemma versionsUpTo_In (n : nat) (v : Z) :
  In v (versionsUpTo n) <-> 1 <= v <= Z.of_nat n.
Proof.
  unfold versionsUpTo. rewrite in_map_iff. split.
  - intros [k [Hk Hin]]. apply in_seq in Hin. lia.
  - intros Hv. exists (Z.to_nat v). split; [lia|]. apply in_seq. lia.
Qed.

(** Versions 1..n are positive and strictly increasing. *)
Lemma versionsUpTo_increasing (n : nat) :
  StronglySorted Z.lt (versionsUpTo n) /\ Forall (fun v => 0 < v) (versionsUpTo n).
Proof.
  split.
  - induction n as [|n IH]; [constructor|].
    rewrite versionsUpTo_S.
    clear - IH. revert IH.
    generalize (eq_refl (versionsUpTo n)).
    generalize (versionsUpTo n) at 2 3 4 as l.
    intros l Hl Hs.
    assert (Hb : Forall (fun v => v < Z.of_nat n + 1) l).
    { apply Forall_forall. intros v Hv. rewrite <- Hl in Hv.
      apply versionsUpTo_In in Hv. lia. }
    clear Hl. induction Hs as [|a rest Hs IHs Hall]; simpl.
    + repeat constructor.
    + inversion Hb; subst. constructor; [now apply IHs|].
      apply Forall_app. split; [assumption | now constructor].
  - apply Forall_forall. intros v Hv. apply versionsUpTo_In in Hv. lia.
Qed.

Section AppendFacts.
Context {R : Runtime}.

Lemma append_unfold (c : FinancialEvent.Collection) (a : EventProcessor.AppendArgs) :
  EventProcessor.append c a
  = let event :=
      EventProcessor.newEvent a (lastOpt (chainOf c (EventProcessor.a_entityId a))) in
    match EventProcessor.insert c event with
    | Rejected m => (Rejected m, c)
    | Resolved c' => (Resolved event, c')
    end.
Proof.
  unfold EventProcessor.append. now rewrite findSorted_entity.
Qed.

(** What a successful append has done. *)
Lemma append_resolved (c c' : FinancialEvent.Collection)
  (a : EventProcessor.AppendArgs) (e : FinancialEvent.t) :
  EventProcessor.append c a = (Resolved e, c') ->
  c' = c ++ [e] /\
  e = EventProcessor.newEvent a (lastOpt (chainOf c (EventProcessor.a_entityId a))).
Proof.
  rewrite append_unfold. simpl.
  unfold EventProcessor.insert.
  destruct (existsb _ c); intros H; inversion H; subst.
  now split.
Qed.

(** Under the invariant the next version is one more than the chain's
    length. *)
Lemma newEvent_version (c : FinancialEvent.Collection) (a : EventProcessor.AppendArgs) :
  versionInvariant c ->
  version (EventProcessor.newEvent a (lastOpt (chainOf c (EventProcessor.a_entityId a))))
  = Z.of_nat (List.length (chainOf c (EventProcessor.a_entityId a))) + 1.
Proof.
  intros [_ Hcontig].
  specialize (Hcontig (EventProcessor.a_entityId a)).
  destruct (lastOpt_cases (chainOf c (EventProcessor.a_entityId a)))
    as [[Hnil Hlast] | [pre [p [Hsnoc Hlast]]]];
    rewrite Hlast; simpl.
  - now rewrite Hnil.
  - rewrite Hsnoc in Hcontig |- *.
    rewrite length_app in Hcontig |- *. simpl in Hcontig |- *.
    rewrite Nat.add_1_r in Hcontig |- *.
    rewrite versionsUpTo_S, map_app in Hcontig. simpl in Hcontig.
    apply app_inj_tail in Hcontig. destruct Hcontig as [_ Hp].
    lia.
Qed.

Lemma chain_versions_bounded (c : FinancialEvent.Collection) (x : FinancialEvent.t) :
  versionInvariant c ->
  In x c ->
  1 <= version x <= Z.of_nat (List.length (chainOf c (entityId x))).
Proof.
  intros [_ Hcontig] Hin.
  apply versionsUpTo_In. rewrite <- Hcontig.
  apply in_map. apply chainOf_In. now split.
Qed.

Lemma chainOf_snoc_same (c : FinancialEvent.Collection) (e : FinancialEvent.t) :
  (forall x, In x c -> entityId x = entityId e -> version x <= version e) ->
  chainOf (c ++ [e]) (entityId e) = chainOf c (entityId e) ++ [e].
Proof.
  intros Hmax. unfold chainOf, sortByVersion.
  rewrite filter_app. simpl. rewrite Z.eqb_refl.
  apply sortBy_snoc.
  apply Forall_forall. intros x Hx. apply filter_In in Hx.
  destruct Hx as [Hin Hent]. apply Z.eqb_eq in Hent. now apply Hmax.
Qed.

Lemma chainOf_snoc_other (c : FinancialEvent.Collection) (e : FinancialEvent.t)
  (entity : ObjectId) :
  entityId e <> entity ->
  chainOf (c ++ [e]) entity = chainOf c entity.
Proof.
  intros Hne. unfold chainOf.
  rewrite filter_app. simpl.
  apply Z.eqb_neq in Hne. rewrite Hne. now rewrite app_nil_r.
Qed.

Lemma versionInvariant_empty : versionInvariant [].
Proof. split; [constructor | reflexivity]. Qed.

(** An append to a collection that satisfies the invariant succeeds, and the
    collection afterwards satisfies it again. *)
Lemma append_preserves_versionInvariant
  (c : FinancialEvent.Collection) (a : EventProcessor.AppendArgs) :
  versionInvariant c ->
  exists e,
    EventProcessor.append c a = (Resolved e, c ++ [e]) /\
    entityId e = EventProcessor.a_entityId a /\
    version e = Z.of_nat (List.length (chainOf c (EventProcessor.a_entityId a))) + 1 /\
    versionInvariant (c ++ [e]).
Proof.
  intros Hinv.
  set (entity := EventProcessor.a_entityId a).
  set (e := EventProcessor.newEvent a (lastOpt (chainOf c entity))).
  assert (Hent : entityId e = entity) by reflexivity.
  assert (Hver : version e = Z.of_nat (List.length (chainOf c entity)) + 1)
    by (apply newEvent_version; assumption).
  assert (Hbelow : forall x, In x c -> entityId x = entityId e -> version x < version e).
  { intros x Hx Hxe.
    pose proof (chain_versions_bounded c x Hinv Hx) as Hb.
    rewrite Hxe, Hent in Hb. lia. }
  assert (Hfresh : ~ In (indexKey e) (map indexKey c)).
  { intros Hin. apply in_map_iff in Hin. destruct Hin as [x [Hk Hx]].
    unfold indexKey in Hk. injection Hk as Hxe Hxv.
    pose proof (Hbelow x Hx Hxe) as Hlt.
    rewrite Hxv in Hlt. exact (Z.lt_irrefl _ Hlt). }
  exists e. split; [|split; [exact Hent | split; [exact Hver|]]].
  - rewrite append_unfold. fold entity. fold e. simpl.
    unfold EventProcessor.insert.
    destruct (existsb _ c) eqn:Hex; [|reflexivity].
    exfalso. apply existsb_exists in Hex. destruct Hex as [x [Hx Hk]].
    apply andb_prop in Hk. destruct Hk as [Hxe Hxv].
    apply Z.eqb_eq in Hxe. apply Z.eqb_eq in Hxv.
    pose proof (Hbelow x Hx Hxe) as Hlt.
    rewrite Hxv in Hlt. exact (Z.lt_irrefl _ Hlt).
  - destruct Hinv as [Huniq Hcontig]. split.
    + unfold uniqueIndex in *. rewrite map_app. simpl.
      apply NoDup_app; [assumption | repeat constructor; intros [] | ].
      intros k Hk [Heq|[]]. subst k. contradiction.
    + intros entity'.
      destruct (Z.eq_dec (entityId e) entity') as [Heq|Hne].
      * subst entity'.
        rewrite chainOf_snoc_same
          by (intros x Hx Hxe; apply Z.lt_le_incl; now apply Hbelow).
        rewrite map_app, length_app. simpl.
        rewrite Nat.add_1_r, versionsUpTo_S.
        rewrite Hcontig. do 2 f_equal. exact Hver.
      * rewrite chainOf_snoc_other by assumption. apply Hcontig.
Qed.

End AppendFacts.

Section ProcessorProofs.
Context {R : Runtime}.

Lemma appended_versionInvariant (c : FinancialEvent.Collection) :
  EventProcessor.appended c -> versionInvariant c.
Proof.
  induction 1 as [|c a e c' _ IH Hstep]; [apply versionInvariant_empty|].
  destruct (append_preserves_versionInvariant c a IH) as [e' [He' [_ [_ Hinv']]]].
  rewrite He' in Hstep. inversion Hstep; subst. exact Hinv'.
Qed.

(** C4. For every collection built by appends: the versions of each
    entity's events, in version order, are 1, 2, ..., n (so positive,
    strictly increasing and without gaps) and the pair (entityId, version)
    is unique in the collection; every further append succeeds, gives the
    new event the next version of its entity, and leaves a collection with
    the same property. *)
Theorem appended_versions_contiguous (c : FinancialEvent.Collection) :
  EventProcessor.appended c ->
  (uniqueIndex c /\
   forall entity,
     map version (chainOf c entity) = versionsUpTo (List.length (chainOf c entity)) /\
     StronglySorted Z.lt (map version (chainOf c entity)) /\
     Forall (fun v => 0 < v) (map version (chainOf c entity))) /\
  forall a, exists e,
    EventProcessor.append c a = (Resolved e, c ++ [e]) /\
    version e = Z.of_nat (List.length (chainOf c (EventProcessor.a_entityId a))) + 1 /\
    versionInvariant (c ++ [e]).
Proof.
  intros Happ.
  pose proof (appended_versionInvariant c Happ) as Hinv.
  split.
  - destruct Hinv as [Huniq Hcontig]. split; [exact Huniq|].
    intros entity. split; [apply Hcontig|].
    rewrite Hcontig. apply versionsUpTo_increasing.
  - intros a.
    destruct (append_preserves_versionInvariant c a Hinv) as [e [He [_ [Hv Hinv']]]].
    exists e. split; [exact He | split; [exact Hv | exact Hinv']].
Qed.

(* ------------------------------------------------------------------ *)
(** ** verifyIntegrity *)

Lemma optIdEqb_eq (x y : option ObjectId) :
  EventProcessor.optIdEqb x y = true <-> x = y.
Proof.
  destruct x as [a|], y as [b|]; simpl; split; intros H;
    try discriminate; try reflexivity.
  - apply Z.eqb_eq in H. now subst.
  - injection H as ->. apply Z.eqb_refl.
Qed.

Lemma eventIntact_iff (prev : option ObjectId) (e : FinancialEvent.t) :
  EventProcessor.eventIntact prev e = true <-> intact (prev, e).
Proof.
  unfold EventProcessor.eventIntact, EventProcessor.computeChecksum, intact; simpl.
  now rewrite andb_true_iff, optIdEqb_eq, String.eqb_eq.
Qed.

Lemma linked_In (prev : option ObjectId) (chain : list FinancialEvent.t)
  (pe : option ObjectId * FinancialEvent.t) :
  In pe (linked prev chain) -> In (snd pe) chain.
Proof.
  revert prev. induction chain as [|e rest IH]; intros prev; simpl; [tauto|].
  intros [<-|Hin]; [now left | right; eauto].
Qed.

(** The walk either finds every event intact, or stops at the first event
    that is not; in an ascending chain that event has the least version
    among the events that are not intact. *)
Lemma walk_first_break (prev : option ObjectId) (chain : list FinancialEvent.t) :
  ascendingVersions chain ->
  (Forall intact (linked prev chain) /\
   EventProcessor.walk prev chain
   = {| EventProcessor.valid := true; EventProcessor.brokenAtVersion := None |})
  \/
  (exists pe,
     In pe (linked prev chain) /\ ~ intact pe /\
     EventProcessor.walk prev chain
     = {| EventProcessor.valid := false;
          EventProcessor.brokenAtVersion := Some (version (snd pe)) |} /\
     forall pe', In pe' (linked prev chain) -> ~ intact pe' ->
                 version (snd pe) <= version (snd pe')).
Proof.
  intros Hasc. revert prev.
  induction Hasc as [|e rest Hrest IH Hall]; intros prev; simpl.
  - left. split; [constructor | reflexivity].
  - destruct (EventProcessor.eventIntact prev e) eqn:Hok.
    + apply eventIntact_iff in Hok.
      destruct (IH (Some (_id e))) as [[Hf Hw] | [pe [Hin [Hbad [Hw Hmin]]]]].
      * left. split; [now constructor | exact Hw].
      * right. exists pe. split; [now right|].
        split; [exact Hbad|]. split; [exact Hw|].
        intros pe' [<-|Hin'] Hbad'; [contradiction | now apply Hmin].
    + right. exists (prev, e). split; [now left|].
      split.
      * intros Hi. apply eventIntact_iff in Hi. congruence.
      * split; [reflexivity|].
        intros pe' [<-|Hin'] _; simpl; [lia|].
        apply linked_In in Hin'.
        rewrite Forall_forall in Hall. now apply Hall.
Qed.

(** C2. For every entity: [verifyIntegrity] leaves the collection as it was;
    when every event of the chain, taken in version order, is intact (link
    and recomputed checksum), the result is {valid: true, brokenAtVersion:
    null}; otherwise it is valid: false with brokenAtVersion the version of
    an event that is not intact, and no event that is not intact has a
    smaller version.  POST /verify answers 200 with that result. *)
Theorem verifyIntegrity_first_broken_version
  (c : FinancialEvent.Collection) (entity : ObjectId) :
  exists result,
    EventProcessor.verifyIntegrity c entity = (Resolved result, c) /\
    ForensicsRoutes.postVerify c entity = (Http.ok result, c) /\
    (Forall intact (linked None (chainOf c entity)) ->
     result = {| EventProcessor.valid := true;
                 EventProcessor.brokenAtVersion := None |}) /\
    (~ Forall intact (linked None (chainOf c entity)) ->
     exists pe,
       In pe (linked None (chainOf c entity)) /\ ~ intact pe /\
       result = {| EventProcessor.valid := false;
                   EventProcessor.brokenAtVersion := Some (version (snd pe)) |} /\
       forall pe', In pe' (linked None (chainOf c entity)) -> ~ intact pe' ->
                   version (snd pe) <= version (snd pe')).
Proof.
  exists (EventProcessor.walk None (chainOf c entity)).
  assert (Hv : EventProcessor.verifyIntegrity c entity
               = (Resolved (EventProcessor.walk None (chainOf c entity)), c)).
  { unfold EventProcessor.verifyIntegrity. now rewrite findSorted_entity. }
  split; [exact Hv|].
  split; [unfold ForensicsRoutes.postVerify; now rewrite Hv|].
  destruct (walk_first_break None (chainOf c entity) (chainOf_ascending c entity))
    as [[Hf Hw] | [pe [Hin [Hbad [Hw Hmin]]]]].
  - split; [intros _; exact Hw | intros Hn; contradiction].
  - split.
    + intros Hf. exfalso. apply Hbad.
      rewrite Forall_forall in Hf. now apply Hf.
    + intros _. exists pe. now repeat split.
Qed.

(* ------------------------------------------------------------------ *)
(** ** A chain built by appends verifies *)

Lemma linked_snoc (prev : option ObjectId) (chain : list FinancialEvent.t)
  (e : FinancialEvent.t) :
  linked prev (chain ++ [e])
  = linked prev chain
    ++ [(match lastOpt chain with Some p => Some (_id p) | None => prev end, e)].
Proof.
  revert prev. induction chain as [|a rest IH]; intros prev; [reflexivity|].
  simpl linked. rewrite IH. simpl app. do 3 f_equal.
  destruct rest as [|b rest']; [reflexivity|].
  destruct (lastOpt_cases (b :: rest')) as [[Hnil _] | [pre [p [_ Hlast]]]];
    [discriminate|].
  change (lastOpt (a :: b :: rest')) with (lastOpt (b :: rest')).
  now rewrite Hlast.
Qed.

Lemma appended_chain_intact (c : FinancialEvent.Collection) (entity : ObjectId) :
  EventProcessor.appended c ->
  Forall intact (linked None (chainOf c entity)).
Proof.
  intros Happ. revert entity.
  induction Happ as [|c a e c' Happ IH Hstep]; intros entity; [constructor|].
  pose proof (appended_versionInvariant c Happ) as Hinv.
  apply append_resolved in Hstep. destruct Hstep as [-> He].
  destruct (Z.eq_dec (entityId e) entity) as [Heq|Hne].
  - subst entity.
    assert (Hent : entityId e = EventProcessor.a_entityId a) by now subst e.
    rewrite chainOf_snoc_same.
    + rewrite linked_snoc. apply Forall_app. split; [apply IH|].
      constructor; [|constructor].
      rewrite Hent. subst e. unfold intact; simpl.
      destruct (lastOpt (chainOf c (EventProcessor.a_entityId a))); now split.
    + intros x Hx Hxe.
      pose proof (chain_versions_bounded c x Hinv Hx) as Hb.
      rewrite Hxe, Hent in Hb.
      pose proof (newEvent_version c a Hinv) as Hv.
      rewrite <- He in Hv. lia.
  - rewrite chainOf_snoc_other by assumption. apply IH.
Qed.

(** After any sequence of appends every chain verifies as valid. *)
Lemma appended_verifies (c : FinancialEvent.Collection) (entity : ObjectId) :
  EventProcessor.appended c ->
  EventProcessor.verifyIntegrity c entity
  = (Resolved {| EventProcessor.valid := true;
                 EventProcessor.brokenAtVersion := None |}, c).
Proof.
  intros Happ.
  unfold EventProcessor.verifyIntegrity. rewrite findSorted_entity.
  destruct (walk_first_break None (chainOf c entity) (chainOf_ascending c entity))
    as [[_ Hw] | [pe [Hin [Hbad _]]]].
  - now rewrite Hw.
  - exfalso. apply Hbad.
    pose proof (appended_chain_intact c entity Happ) as Hf.
    rewrite Forall_forall in Hf. now apply Hf.
Qed.

End ProcessorProofs.

(* ================================================================== *)
(** * The worked log, evaluated *)
(* ================================================================== *)

#[local] Existing Instance Sample.runtime.

Example parseInt_examples :
  JS.parseInt "2" = JS.Num 2 /\
  JS.parseInt "  -0x1F" = JS.Num (-31) /\
  JS.parseInt "12px" = JS.Num 12 /\
  JS.parseInt "abc" = JS.NaN.
Proof. repeat split; reflexivity. Qed.

Example sample_log : Sample.afterUpdate = [Sample.created; Sample.updated].
Proof. reflexivity. Qed.

Lemma sample_appended : EventProcessor.appended Sample.afterUpdate.
Proof.
  eapply EventProcessor.appended_step with (c := Sample.afterCreate) (a := Sample.update).
  - eapply EventProcessor.appended_step with (c := []) (a := Sample.create).
    + apply EventProcessor.appended_empty.
    + reflexivity.
  - reflexivity.
Defined.

Lemma sample_uniqueIndex : uniqueIndex Sample.afterUpdate.
Proof.
  unfold uniqueIndex. simpl.
  constructor.
  - intros [H|[]]. discriminate H.
  - constructor; [intros [] | constructor].
Defined.

(** The scenario of the specification: version 1 has amount 10, version 2
    has amount 20, and an instant between the two events sees amount 10. *)
Example sample_replays :
  ForensicReplayEngine.replayToVersion Sample.afterUpdate 1 (JS.Num 1)
  = Resolved (Some [("amount", VNum 10); ("category", VStr "food")]) /\
  ForensicReplayEngine.replayToVersion Sample.afterUpdate 1 (JS.Num 2)
  = Resolved (Some [("amount", VNum 20); ("category", VStr "food")]) /\
  ForensicReplayEngine.replayToTime Sample.afterUpdate 1 Sample.jan2
  = Resolved (Some [("amount", VNum 10); ("category", VStr "food")]).
Proof. repeat split; reflexivity. Qed.

(** An overwritten payload at version 1 is reported at version 1. *)
Example sample_tampered_detected :
  EventProcessor.verifyIntegrity Sample.tampered 1
  = (Resolved {| EventProcessor.valid := false;
                 EventProcessor.brokenAtVersion := Some 1 |},
     Sample.tampered).
Proof. reflexivity. Qed.

(** A version that is not a number is a cast error, answered with 500. *)
Example sample_replay_nan :
  Http.status
    (ForensicsRoutes.getReplay Sample.afterUpdate
       {| ForensicsRoutes.params_entityId := 1;
          ForensicsRoutes.query_time := None;
          ForensicsRoutes.query_v := Some "abc" |})
  = 500.
Proof. reflexivity. Qed.

(** An event whose user is not stored makes the audit route answer 500,
    and so does a path parameter that is no ObjectId. *)
Example sample_audit_unknown_actor :
  Http.status
    (ForensicsRoutes.getAudit Sample.afterUpdate Sample.remainingUsers
       Sample.objectIdOf Sample.entity1) = 500 /\
  Http.status
    (ForensicsRoutes.getAudit Sample.afterUpdate Sample.users
       Sample.objectIdOf "tx-1") = 500 /\
  Http.status
    (ForensicsRoutes.getAudit Sample.afterUpdate Sample.users
       Sample.objectIdOf Sample.entity1) = 200.
Proof. repeat split; reflexivity. Qed.

(* ================================================================== *)
(** * The statements at the worked log *)
(* ================================================================== *)

Lemma verifyIntegrity_first_broken_version_witness :
  exists result,
    EventProcessor.verifyIntegrity Sample.tampered 1 = (Resolved result, Sample.tampered) /\
    ForensicsRoutes.postVerify Sample.tampered 1 = (Http.ok result, Sample.tampered) /\
    (Forall intact (linked None (chainOf Sample.tampered 1)) ->
     result = {| EventProcessor.valid := true;
                 EventProcessor.brokenAtVersion := None |}) /\
    (~ Forall intact (linked None (chainOf Sample.tampered 1)) ->
     exists pe,
       In pe (linked None (chainOf Sample.tampered 1)) /\ ~ intact pe /\
       result = {| EventProcessor.valid := false;
                   EventProcessor.brokenAtVersion := Some (version (snd pe)) |} /\
       forall pe', In pe' (linked None (chainOf Sample.tampered 1)) -> ~ intact pe' ->
                   version (snd pe) <= version (snd pe')).
Proof.
  exact (verifyIntegrity_first_broken_version Sample.tampered 1).
Defined.

Lemma replayToVersion_fold_next_witness :
  uniqueIndex Sample.afterUpdate /\
  In Sample.updated Sample.afterUpdate /\
  exists s,
    ForensicReplayEngine.replayToVersion Sample.afterUpdate 1 (JS.Num 1)
    = Resolved (Some s) /\
    ForensicReplayEngine.replayToVersion Sample.afterUpdate 1 (JS.Num (1 + 1))
    = Resolved (Some (applyEvent s Sample.updated)).
Proof.
  split; [exact sample_uniqueIndex|].
  split; [right; left; reflexivity|].
  apply (replayToVersion_fold_next Sample.afterUpdate 1 1 Sample.updated).
  - exact sample_uniqueIndex.
  - right; left; reflexivity.
  - reflexivity.
  - reflexivity.
  - exists Sample.created. split; [left; reflexivity|].
    split; [reflexivity | simpl; lia].
Defined.

Lemma appended_versions_contiguous_witness :
  EventProcessor.appended Sample.afterUpdate /\
  map version (chainOf Sample.afterUpdate 1) = [1; 2] /\
  forall a, exists e,
    EventProcessor.append Sample.afterUpdate a = (Resolved e, Sample.afterUpdate ++ [e]) /\
    version e
    = Z.of_nat (List.length (chainOf Sample.afterUpdate (EventProcessor.a_entityId a))) + 1 /\
    versionInvariant (Sample.afterUpdate ++ [e]).
Proof.
  split; [exact sample_appended|].
  destruct (appended_versions_contiguous Sample.afterUpdate sample_appended)
    as [[_ Hchain] Hnext].
  split; [exact (proj1 (Hchain 1)) | exact Hnext].
Defined.

Lemma replayToVersion_no_events_null_witness :
  (forall e, In e Sample.afterUpdate -> entityId e = 1 -> ~ version e <= 0) /\
  ForensicReplayEngine.replayToVersion Sample.afterUpdate 1 (JS.Num 0) = Resolved None.
Proof.
  assert (H : forall e, In e Sample.afterUpdate -> entityId e = 1 -> ~ version e <= 0).
  { intros e [<-|[<-|[]]] _; simpl; lia. }
  split; [exact H|].
  exact (replayToVersion_no_events_null Sample.afterUpdate 1 0 H).
Defined.

Lemma replayToTime_folds_events_until_witness :
  Date_new Sample.jan2 = JS.Millis 1704153600000 /\
  exists events,
    Permutation events
      (filter (fun e => (entityId e =? 1) && (timestamp (metadata e) <=? 1704153600000))
         Sample.afterUpdate) /\
    ascendingVersions events /\
    ForensicReplayEngine.replayToTime Sample.afterUpdate 1 Sample.jan2
    = Resolved
        match events with
        | [] => None
        | _ :: _ => Some (reconstruct emptyState events)
        end.
Proof.
  split; [reflexivity|].
  exact (replayToTime_folds_events_until Sample.afterUpdate 1 Sample.jan2 1704153600000
           eq_refl).
Defined.

Lemma generateAuditTrail_one_entry_per_event_witness :
  (forall e, In e Sample.afterUpdate -> entityId e = 1 ->
             populate Sample.users (userId e) <> None) /\
  exists events trail,
    ForensicReplayEngine.generateAuditTrail Sample.afterUpdate Sample.users 1
    = Resolved trail /\
    Permutation events (filter (fun e => entityId e =? 1) Sample.afterUpdate) /\
    ascendingVersions events /\
    Forall2 (renders Sample.users) events trail /\
    StronglySorted Z.le (map AuditEntry.version trail).
Proof.
  assert (H : forall e, In e Sample.afterUpdate -> entityId e = 1 ->
                        populate Sample.users (userId e) <> None).
  { intros e [<-|[<-|[]]] _; simpl; discriminate. }
  split; [exact H|].
  exact (generateAuditTrail_one_entry_per_event Sample.afterUpdate Sample.users 1 H).
Defined.

(** C7 fails on the code once the author of an event is no longer stored.
    The log holds the two events of entity 1, versions 1 and 2, both written
    by user 7.  With no user 7 among the users, [populate] leaves [null] in
    [event.userId], reading [event.userId.name] throws, and
    [generateAuditTrail] rejects: neither event gets its entry. *)
Theorem generateAuditTrail_unknown_actor_rejects :
  map version (filter (fun e => entityId e =? 1) Sample.afterUpdate) = [1; 2] /\
  map userId Sample.afterUpdate = [7; 7] /\
  populate Sample.remainingUsers 7 = None /\
  ForensicReplayEngine.generateAuditTrail Sample.afterUpdate Sample.remainingUsers 1
  = Rejected "Cannot read properties of null (reading 'name')" /\
  forall trail,
    ForensicReplayEngine.generateAuditTrail Sample.afterUpdate Sample.remainingUsers 1
    <> Resolved trail.
Proof.
  repeat split; try reflexivity.
  intros trail H. vm_compute in H. discriminate H.
Qed.

(** C8 as stated fails: a request that supplies both [time] and [v] is not
    answered with 400; it is answered with 200 and the state at [time]. *)
Lemma getReplay_both_supplied_is_200 :
  ForensicsRoutes.query_time Sample.bothRequest = Some Sample.jan2 /\
  ForensicsRoutes.query_v Sample.bothRequest = Some "2" /\
  ForensicsRoutes.getReplay Sample.afterUpdate Sample.bothRequest
  = Http.ok {| ForensicsRoutes.data :=
                 Some [("amount", VNum 10); ("category", VStr "food")] |} /\
  Http.status (ForensicsRoutes.getReplay Sample.afterUpdate Sample.bothRequest) <> 400.
Proof.
  repeat split; try reflexivity.
  simpl. discriminate.
Qed.

Lemma getReplay_400_iff_neither_witness :
  JS.truthy (ForensicsRoutes.query_time Sample.versionRequest) = false /\
  JS.truthy (ForensicsRoutes.query_v Sample.versionRequest) = true /\
  ForensicsRoutes.getReplay Sample.afterUpdate Sample.versionRequest
  = Http.ok {| ForensicsRoutes.data :=
                 Some [("amount", VNum 20); ("category", VStr "food")] |} /\
  Http.status (ForensicsRoutes.getReplay Sample.afterUpdate Sample.bareRequest) = 400.
Proof.
  split; [reflexivity|]. split; [reflexivity|]. split.
  - exact (proj2 (proj2 (getReplay_400_iff_neither Sample.afterUpdate Sample.versionRequest))
             _ eq_refl eq_refl eq_refl).
  - exact (proj2 (proj1 (getReplay_400_iff_neither Sample.afterUpdate Sample.bareRequest))
             (conj eq_refl eq_refl)).
Defined.

Lemma getReplay_time_takes_precedence_witness :
  JS.truthy (ForensicsRoutes.query_time Sample.bothRequest) = true /\
  Http.status (ForensicsRoutes.getReplay Sample.afterUpdate Sample.bothRequest) <> 400 /\
  ForensicsRoutes.getReplay Sample.afterUpdate
    {| ForensicsRoutes.params_entityId := 1;
       ForensicsRoutes.query_time := Some Sample.jan2;
       ForensicsRoutes.query_v := None |}
  = ForensicsRoutes.getReplay Sample.afterUpdate Sample.bothRequest.
Proof.
  split; [reflexivity|].
  destruct (getReplay_time_takes_precedence Sample.afterUpdate Sample.bothRequest eq_refl)
    as [_ [H400 Hv]].
  split; [exact H400 | exact (Hv None)].
Defined.

Lemma getDelta_changes_since_witness :
  exists body,
    SyncRoutes.getDelta Sample.syncLogs Sample.deltaRequest = Http.ok body /\
    SyncRoutes.count body = 2%nat /\
    SyncRoutes.v body = 3 /\
    map SyncLog.version (SyncRoutes.changes body) = [2; 3].
Proof.
  destruct (getDelta_changes_since Sample.syncLogs Sample.deltaRequest)
    as [body [Hbody _]].
  exists body. split; [exact Hbody|].
  vm_compute in Hbody. injection Hbody as <-.
  repeat split; reflexivity.
Defined.

(* ================================================================== *)
(** * The sync interceptor *)
(* ================================================================== *)

Section InterceptorProofs.
Import SyncInterceptor.

Lemma isMutation_cases (m : string) :
  isMutation m = true ->
  m = "POST" \/ m = "PUT" \/ m = "PATCH" \/ m = "DELETE".
Proof.
  unfold isMutation. simpl. rewrite !orb_true_iff, !String.eqb_eq.
  intuition congruence.
Qed.

Lemma operationOf_cases (m : string) :
  isMutation m = true ->
  (operationOf m = "CREATE" /\ m = "POST") \/
  (operationOf m = "DELETE" /\ m = "DELETE") \/
  (operationOf m = "UPDATE" /\ (m = "PUT" \/ m = "PATCH")).
Proof.
  intros H. apply isMutation_cases in H.
  destruct H as [-> | [-> | [-> | ->]]]; vm_compute; tauto.
Qed.

Lemma deviceIdOf_nonempty (h : JS.Param) : deviceIdOf h <> EmptyString.
Proof.
  unfold deviceIdOf. destruct h as [[|c s]|]; simpl; discriminate.
Qed.

(** What the installed [json] logs when it does not throw. *)
Lemma hookedJson_resolved (req : Request) (deviceId : string) (status : Z)
  (data : Json.t) (logged : list Mutation) (sent : Json.t) :
  hookedJson req deviceId status data = Resolved (logged, sent) ->
  sent = data /\
  (logged = [] \/
   ((status = 200 \/ status = 201) /\
    exists success entities,
      Json.get data "success" = Resolved success /\ Json.truthy success = true /\
      Json.get data "data" = Resolved entities /\ Json.truthy entities = true /\
      logged =
        map (fun entity =>
               {| m_userId := user_id req;
                  m_deviceId := deviceId;
                  m_entity := entity;
                  m_operation := operationOf (method req);
                  m_changes := body req |})
            (Json.asArray entities))).
Proof.
  unfold hookedJson.
  destruct ((status =? 200) || (status =? 201)) eqn:Hst; simpl.
  - assert (Hs : status = 200 \/ status = 201).
    { apply orb_true_iff in Hst. rewrite !Z.eqb_eq in Hst. exact Hst. }
    destruct (Json.get data "success") as [success|m] eqn:Hsucc; simpl;
      [|discriminate].
    destruct (Json.truthy success) eqn:Hts; simpl.
    + destruct (Json.get data "data") as [entities|m] eqn:Hent; simpl;
        [|discriminate].
      destruct (Json.truthy entities) eqn:Hte; simpl;
        intros H; injection H as <- <-; (split; [reflexivity|]).
      * right. split; [exact Hs|]. exists success, entities. now repeat split.
      * now left.
    + intros H; injection H as <- <-. split; [reflexivity | now left].
  - intros H; injection H as <- <-. split; [reflexivity | now left].
Qed.

Lemma hookedJson_rejected (req : Request) (deviceId : string) (status : Z)
  (data : Json.t) (message : string) :
  hookedJson req deviceId status data = Rejected message ->
  (data = Json.Undefined \/ data = Json.Null) /\ (status = 200 \/ status = 201).
Proof.
  unfold hookedJson.
  destruct ((status =? 200) || (status =? 201)) eqn:Hst; simpl; [|discriminate].
  apply orb_true_iff in Hst. rewrite !Z.eqb_eq in Hst.
  destruct data as [ | | b | n | s | items | fields]; simpl; try discriminate.
  - intros _. split; [now left | exact Hst].
  - intros _. split; [now right | exact Hst].
  - destruct (Json.truthy (Json.lookup "success" fields)); simpl;
      [destruct (Json.truthy (Json.lookup "data" fields))|]; discriminate.
Qed.

Lemma respond_cases (req : Request) (status : Z) (data : Json.t) :
  (isMutation (method req) = true /\ isSyncable (originalUrl req) = true /\
   respond req status data
   = hookedJson req (deviceIdOf (x_device_id req)) status data)
  \/
  ((isMutation (method req) = false \/ isSyncable (originalUrl req) = false) /\
   respond req status data = Resolved ([], data)).
Proof.
  unfold respond, syncInterceptor.
  destruct (isMutation (method req)); simpl;
    [destruct (isSyncable (originalUrl req)); simpl|]; tauto.
Qed.

(** X1. The interceptor never changes what a route sends: whenever the
    call of [res.json(data)] returns, the original [json] received exactly
    [data]; the call throws only when a mutation on a synced route answers
    200 or 201 with a [null] or [undefined] body. *)
Theorem respond_sends_data_unchanged (req : Request) (status : Z) (data : Json.t) :
  (forall logged sent,
     respond req status data = Resolved (logged, sent) -> sent = data) /\
  (forall message,
     respond req status data = Rejected message ->
     (data = Json.Undefined \/ data = Json.Null) /\
     (status = 200 \/ status = 201) /\
     isMutation (method req) = true /\
     isSyncable (originalUrl req) = true).
Proof.
  destruct (respond_cases req status data) as [[Hm [Hs ->]] | [_ ->]].
  - split.
    + intros logged sent H. now apply hookedJson_resolved in H.
    + intros message H. apply hookedJson_rejected in H. tauto.
  - split.
    + intros logged sent H. now injection H as _ <-.
    + discriminate.
Qed.

(** X2. Nothing is logged unless a mutation succeeded: when a response
    leads to at least one [logMutation] call, the request was a POST, PUT,
    PATCH or DELETE on a synced route, the status was 200 or 201, and the
    body's [success] and [data] were both truthy. *)
Theorem respond_logs_only_successful_mutations
  (req : Request) (status : Z) (data : Json.t)
  (logged : list Mutation) (sent : Json.t) :
  respond req status data = Resolved (logged, sent) ->
  logged <> [] ->
  isMutation (method req) = true /\
  isSyncable (originalUrl req) = true /\
  (status = 200 \/ status = 201) /\
  exists success entities,
    Json.get data "success" = Resolved success /\ Json.truthy success = true /\
    Json.get data "data" = Resolved entities /\ Json.truthy entities = true.
Proof.
  intros H Hne.
  destruct (respond_cases req status data) as [[Hm [Hs Heq]] | [_ Heq]];
    rewrite Heq in H.
  - apply hookedJson_resolved in H.
    destruct H as [_ [Hnil | [Hst [success [entities [H1 [H2 [H3 [H4 _]]]]]]]]];
      [contradiction|].
    repeat split; try assumption.
    exists success, entities. now repeat split.
  - injection H as <- _. contradiction.
Qed.

(** X3. Every logged mutation is attributed to the requester and carries
    the request body as its changes, a device id that is the header or
    'web-default' and never empty, and the operation of the method: CREATE
    for POST, DELETE for DELETE, UPDATE for PUT and PATCH. *)
Theorem respond_logged_mutation_fields
  (req : Request) (status : Z) (data : Json.t)
  (logged : list Mutation) (sent : Json.t) (m : Mutation) :
  respond req status data = Resolved (logged, sent) ->
  In m logged ->
  m_userId m = user_id req /\
  m_changes m = body req /\
  m_deviceId m = deviceIdOf (x_device_id req) /\
  m_deviceId m <> EmptyString /\
  ((m_operation m = "CREATE" /\ method req = "POST") \/
   (m_operation m = "DELETE" /\ method req = "DELETE") \/
   (m_operation m = "UPDATE" /\ (method req = "PUT" \/ method req = "PATCH"))).
Proof.
  intros H Hin.
  destruct (respond_cases req status data) as [[Hm [Hs Heq]] | [_ Heq]];
    rewrite Heq in H.
  - apply hookedJson_resolved in H.
    destruct H as [_ [-> | [_ [success [entities [_ [_ [_ [_ ->]]]]]]]]];
      [contradiction|].
    apply in_map_iff in Hin. destruct Hin as [entity [<- _]]. simpl.
    repeat split; try reflexivity.
    + apply deviceIdOf_nonempty.
    + now apply operationOf_cases.
  - injection H as <- _. contradiction.
Qed.

(** X4. One mutation per entity: a mutation on a synced route answered 200
    or 201 with truthy [success] and truthy [data] logs the elements of
    [data] in order when it is an array, and [data] itself otherwise. *)
Theorem respond_logs_each_entity
  (req : Request) (status : Z) (fields : list (string * Json.t)) :
  isMutation (method req) = true ->
  isSyncable (originalUrl req) = true ->
  status = 200 \/ status = 201 ->
  Json.truthy (Json.lookup "success" fields) = true ->
  Json.truthy (Json.lookup "data" fields) = true ->
  exists logged,
    respond req status (Json.Obj fields) = Resolved (logged, Json.Obj fields) /\
    map m_entity logged = Json.asArray (Json.lookup "data" fields) /\
    List.length logged = List.length (Json.asArray (Json.lookup "data" fields)).
Proof.
  intros Hm Hs Hst Hsucc Hdata.
  unfold respond, syncInterceptor. rewrite Hm, Hs. simpl.
  unfold hookedJson.
  assert (Hb : (status =? 200) || (status =? 201) = true).
  { apply orb_true_iff. rewrite !Z.eqb_eq. exact Hst. }
  rewrite Hb. simpl. rewrite Hsucc. simpl. rewrite Hdata. simpl.
  eexists. split; [reflexivity|].
  split.
  - rewrite map_map. simpl. apply map_id.
  - now rewrite length_map.
Qed.

End InterceptorProofs.

(* ================================================================== *)
(** * POST /push *)
(* ================================================================== *)

(** X5. POST /push answers 400 exactly when the body is an object whose
    [entityType] or [data] is falsy; the answer is then
    {success: false, error: 'Missing sync payload'} and
    [applyIncomingUpdate] has no part in it. *)
Theorem postPush_400_iff_payload_missing
  (applyIncomingUpdate : ObjectId -> string -> Json.t -> Json.t -> Promise Json.t)
  (req : SyncPush.PushRequest) :
  (Http.status (SyncPush.postPush applyIncomingUpdate req) = 400 <->
   exists entityType data,
     Json.get (SyncPush.body req) "entityType" = Resolved entityType /\
     Json.get (SyncPush.body req) "data" = Resolved data /\
     (Json.truthy entityType = false \/ Json.truthy data = false)) /\
  (Http.status (SyncPush.postPush applyIncomingUpdate req) = 400 ->
   forall other,
     SyncPush.postPush other req = Http.fail 400 "Missing sync payload").
Proof.
  unfold SyncPush.postPush.
  destruct (Json.get (SyncPush.body req) "entityType") as [entityType|m] eqn:He; simpl.
  2:{ split.
      - split; [discriminate | intros [t [d [H _]]]; discriminate].
      - discriminate. }
  destruct (Json.get (SyncPush.body req) "data") as [data|m] eqn:Hd; simpl.
  2:{ split.
      - split; [discriminate | intros [t [d [_ [H _]]]]; discriminate].
      - discriminate. }
  destruct (negb (Json.truthy entityType) || negb (Json.truthy data)) eqn:Hmiss; simpl.
  - split.
    + split; [|reflexivity].
      intros _. exists entityType, data.
      apply orb_true_iff in Hmiss. rewrite !negb_true_iff in Hmiss.
      now repeat split.
    + reflexivity.
  - apply orb_false_iff in Hmiss. rewrite !negb_false_iff in Hmiss.
    destruct Hmiss as [Ht Hdt].
    assert (Hnot : Http.status
                     (tryCatch
                        (await result <- applyIncomingUpdate (SyncPush.user_id req)
                                           (SyncInterceptor.deviceIdOf (SyncPush.x_device_id req))
                                           entityType data ;;
                         await action <- Json.get result "action" ;;
                         await entity <- Json.get result "entity" ;;
                         await logs <- Json.get result "logs" ;;
                         Resolved
                           (Http.ok {| SyncPush.action := action;
                                       SyncPush.entity := entity;
                                       SyncPush.logs := logs |}))
                        (fun message => Http.fail 500 message)) <> 400).
    { destruct (applyIncomingUpdate _ _ _ _) as [result|m]; simpl; [|discriminate].
      destruct (Json.get result "action"); simpl; [|discriminate].
      destruct (Json.get result "entity"); simpl; [|discriminate].
      destruct (Json.get result "logs"); simpl; discriminate. }
    split.
    + split; [intros H; contradiction|].
      intros [t [d [H1 [H2 [H3|H3]]]]].
      * injection H1 as <-. congruence.
      * injection H2 as <-. congruence.
    + intros H; contradiction.
Qed.

(* ================================================================== *)
(** * The workspace service *)
(* ================================================================== *)

Section WorkspaceServiceProofs.
Import Workspace.

Lemma findMember_some (ms : list Member) (id : ObjectId) (m : Member) :
  findMember ms id = Some m -> In m ms /\ user m = id.
Proof.
  unfold findMember. intros H. apply find_some in H.
  now rewrite Z.eqb_eq in H.
Qed.

Lemma findMember_none (ms : list Member) (id : ObjectId) :
  findMember ms id = None -> forall m, In m ms -> user m <> id.
Proof.
  unfold findMember. intros H m Hin Heq.
  pose proof (find_none _ _ H m Hin) as Hf. simpl in Hf.
  apply Z.eqb_neq in Hf. contradiction.
Qed.

(** The entry [find] returns splits the list: nothing of the user before
    it. *)
Lemma findMember_split (ms : list Member) (id : ObjectId) (m : Member) :
  findMember ms id = Some m ->
  exists before after,
    ms = before ++ m :: after /\
    (forall x, In x before -> user x <> id) /\
    user m = id.
Proof.
  unfold findMember.
  induction ms as [|x rest IH]; simpl; [discriminate|].
  destruct (user x =? id) eqn:Hx.
  - intros H; injection H as <-.
    exists [], rest. apply Z.eqb_eq in Hx.
    split; [reflexivity|]. split; [intros y [] | exact Hx].
  - intros H. destruct (IH H) as [before [after [-> [Hb Hm]]]].
    exists (x :: before), after.
    split; [reflexivity|]. split; [|exact Hm].
    intros y [<-|Hy]; [now apply Z.eqb_neq | now apply Hb].
Qed.

Lemma setRoleOfFirst_split (id : ObjectId) (r : string)
  (before after : list Member) (m : Member) :
  (forall x, In x before -> user x <> id) ->
  user m = id ->
  setRoleOfFirst id r (before ++ m :: after) = before ++ withRole m r :: after.
Proof.
  intros Hb Hm.
  induction before as [|x rest IH]; simpl.
  - apply Z.eqb_eq in Hm. now rewrite Hm.
  - assert (Hx : (user x =? id) = false)
      by (apply Z.eqb_neq, Hb; now left).
    rewrite Hx. f_equal. apply IH. intros y Hy. apply Hb. now right.
Qed.

Lemma removeFirst_split (id : ObjectId) (before after : list Member) (m : Member) :
  (forall x, In x before -> user x <> id) ->
  user m = id ->
  removeFirst id (before ++ m :: after) = before ++ after.
Proof.
  intros Hb Hm.
  induction before as [|x rest IH]; simpl.
  - apply Z.eqb_eq in Hm. now rewrite Hm.
  - assert (Hx : (user x =? id) = false)
      by (apply Z.eqb_neq, Hb; now left).
    rewrite Hx. f_equal. apply IH. intros y Hy. apply Hb. now right.
Qed.

Lemma setRoleOfFirst_users (id : ObjectId) (r : string) (ms : list Member) :
  map user (setRoleOfFirst id r ms) = map user ms.
Proof.
  induction ms as [|x rest IH]; simpl; [reflexivity|].
  destruct (user x =? id); simpl; [reflexivity | now rewrite IH].
Qed.

(** Entries of other users are not touched by a role change. *)
Lemma setRoleOfFirst_others (id : ObjectId) (r : string) (ms : list Member)
  (x : Member) :
  user x <> id -> (In x (setRoleOfFirst id r ms) <-> In x ms).
Proof.
  intros Hx.
  induction ms as [|y rest IH]; simpl; [tauto|].
  destruct (user y =? id) eqn:Hy; simpl.
  - apply Z.eqb_eq in Hy. split.
    + intros [<-|H]; [simpl in Hx; contradiction | now right].
    + intros [<-|H]; [contradiction | now right].
  - rewrite IH. tauto.
Qed.

Lemma lacksAuthority_false (w : Workspace.t) (adminId : ObjectId) :
  WorkspaceService.lacksAuthority w adminId = false ->
  owner w = adminId \/
  exists m, findMember (members w) adminId = Some m /\ role m = "admin".
Proof.
  unfold WorkspaceService.lacksAuthority.
  destruct (owner w =? adminId) eqn:Ho; simpl.
  - intros _. left. now apply Z.eqb_eq.
  - destruct (findMember (members w) adminId) as [m|]; [|discriminate].
    intros H. apply negb_false_iff, String.eqb_eq in H.
    right. now exists m.
Qed.

Lemma save_unit (save : Workspace.t -> Promise unit) (w : Workspace.t)
  (A : Type) (k : unit -> Promise A) (a : A) :
  bind (save w) k = Resolved a -> save w = Resolved tt /\ k tt = Resolved a.
Proof.
  destruct (save w) as [[]|m]; simpl; [tauto | discriminate].
Qed.

Variable save : Workspace.t -> Promise unit.
Variable db : list Workspace.t.

(** X6. A [removeMember] that resolves was asked by the owner or by a user
    whose first entry has role 'admin', did not target the owner, and stored
    the workspace it returns: same owner, no entry of the target left, and
    every other entry kept, in order. *)
Theorem removeMember_resolved
  (workspaceId adminId targetUserId : ObjectId) (w' : Workspace.t) :
  WorkspaceService.removeMember save db workspaceId adminId targetUserId = Resolved w' ->
  exists w,
    WorkspaceService.findById db workspaceId = Some w /\
    (owner w = adminId \/
     exists m, findMember (members w) adminId = Some m /\ role m = "admin") /\
    owner w <> targetUserId /\
    owner w' = owner w /\
    members w' = filter (fun m => negb (user m =? targetUserId)) (members w) /\
    (forall m, In m (members w') <-> In m (members w) /\ user m <> targetUserId) /\
    save w' = Resolved tt.
Proof.
  unfold WorkspaceService.removeMember.
  destruct (WorkspaceService.findById db workspaceId) as [w|]; [|discriminate].
  destruct (WorkspaceService.lacksAuthority w adminId) eqn:Hauth; [discriminate|].
  destruct (owner w =? targetUserId) eqn:Hown; [discriminate|].
  intros H. apply save_unit in H. destruct H as [Hsave H].
  injection H as <-.
  exists w. split; [reflexivity|].
  split; [now apply lacksAuthority_false|].
  split; [now apply Z.eqb_neq|].
  split; [reflexivity|].
  split; [reflexivity|].
  split; [|exact Hsave].
  intros m. simpl. rewrite filter_In, negb_true_iff, Z.eqb_neq. tauto.
Qed.

(** X7. An [updateMemberRole] that resolves was asked by the owner or an
    admin and stored the workspace it returns: same owner, the same entries
    in the same order, except that the first entry of the target user now has
    the new role. *)
Theorem updateMemberRole_resolved
  (workspaceId adminId targetUserId : ObjectId) (newRole : string)
  (w' : Workspace.t) :
  WorkspaceService.updateMemberRole save db workspaceId adminId targetUserId newRole
  = Resolved w' ->
  exists w m before after,
    WorkspaceService.findById db workspaceId = Some w /\
    (owner w = adminId \/
     exists a, findMember (members w) adminId = Some a /\ role a = "admin") /\
    members w = before ++ m :: after /\
    (forall x, In x before -> user x <> targetUserId) /\
    user m = targetUserId /\
    members w' = before ++ withRole m newRole :: after /\
    owner w' = owner w /\
    save w' = Resolved tt.
Proof.
  unfold WorkspaceService.updateMemberRole.
  destruct (WorkspaceService.findById db workspaceId) as [w|]; [|discriminate].
  destruct (WorkspaceService.lacksAuthority w adminId) eqn:Hauth; [discriminate|].
  destruct (findMember (members w) targetUserId) as [m|] eqn:Hm; [|discriminate].
  intros H. apply save_unit in H. destruct H as [Hsave H].
  injection H as <-.
  destruct (findMember_split _ _ _ Hm) as [before [after [Hsplit [Hb Hu]]]].
  exists w, m, before, after.
  split; [reflexivity|].
  split; [now apply lacksAuthority_false|].
  split; [exact Hsplit|].
  split; [exact Hb|].
  split; [exact Hu|].
  split; [|split; [reflexivity | exact Hsave]].
  simpl. rewrite Hsplit. now apply setRoleOfFirst_split.
Qed.

(** X8. Neither service operation can leave a workspace whose owner is not
    among its members: if the owner has an entry before a [removeMember] or
    an [updateMemberRole] that resolves, the owner has one afterwards. *)
Theorem service_keeps_owner_member
  (workspaceId adminId targetUserId : ObjectId) (newRole : string)
  (w w' : Workspace.t) :
  WorkspaceService.findById db workspaceId = Some w ->
  ownerIsMember w ->
  WorkspaceService.removeMember save db workspaceId adminId targetUserId = Resolved w' \/
  WorkspaceService.updateMemberRole save db workspaceId adminId targetUserId newRole
  = Resolved w' ->
  ownerIsMember w'.
Proof.
  intros Hfind [o [Hin Ho]] [H|H].
  - unfold WorkspaceService.removeMember in H. rewrite Hfind in H.
    destruct (WorkspaceService.lacksAuthority w adminId); [discriminate|].
    destruct (owner w =? targetUserId) eqn:Hown; [discriminate|].
    apply save_unit in H. destruct H as [_ H]. injection H as <-.
    apply Z.eqb_neq in Hown.
    exists o. split; [|exact Ho].
    simpl. apply filter_In. split; [exact Hin|].
    apply negb_true_iff, Z.eqb_neq. congruence.
  - unfold WorkspaceService.updateMemberRole in H. rewrite Hfind in H.
    destruct (WorkspaceService.lacksAuthority w adminId); [discriminate|].
    destruct (findMember (members w) targetUserId) as [m|] eqn:Hm; [|discriminate].
    apply save_unit in H. destruct H as [_ H]. injection H as <-.
    assert (Hu : In (owner w) (map user (members w))).
    { rewrite <- Ho. now apply in_map. }
    rewrite <- (setRoleOfFirst_users targetUserId newRole) in Hu.
    apply in_map_iff in Hu. destruct Hu as [x [Hx Hxin]].
    exists x. now split.
Qed.

End WorkspaceServiceProofs.

Section WorkspaceServiceProofs2.
Import Workspace.

Variable save : Workspace.t -> Promise unit.
Variable db : list Workspace.t.

(** X9. [updateWorkspace] resolves exactly when the workspace exists, the
    requester has an entry among its members whose role is 'admin' or who is
    the owner, and the save succeeds; an owner without an entry of their own
    is turned away like anyone else. *)
Theorem updateWorkspace_resolves_iff
  (Data : Type) (objectAssign : Workspace.t -> Data -> Workspace.t)
  (workspaceId userId : ObjectId) (data : Data) (w' : Workspace.t) :
  WorkspaceService.updateWorkspace save db Data objectAssign workspaceId userId data
  = Resolved w' <->
  exists w m,
    WorkspaceService.findById db workspaceId = Some w /\
    findMember (members w) userId = Some m /\
    (role m = "admin" \/ owner w = userId) /\
    w' = objectAssign w data /\
    save w' = Resolved tt.
Proof.
  unfold WorkspaceService.updateWorkspace.
  destruct (WorkspaceService.findById db workspaceId) as [w|].
  2:{ split; [discriminate | intros [w [m [H _]]]; discriminate H]. }
  destruct (findMember (members w) userId) as [m|] eqn:Hm.
  2:{ split; [discriminate|]. intros [w0 [m [Hf [H _]]]]. injection Hf as <-. rewrite Hm in H. discriminate H. }
  destruct (negb (String.eqb (role m) "admin") && negb (owner w =? userId)) eqn:Hc.
  - split; [discriminate|].
    intros [w0 [m0 [Hf [Hm0 [Hor _]]]]].
    injection Hf as <-. rewrite Hm in Hm0. injection Hm0 as <-.
    apply andb_true_iff in Hc. rewrite !negb_true_iff in Hc.
    destruct Hc as [Hr Ho]. apply String.eqb_neq in Hr. apply Z.eqb_neq in Ho.
    tauto.
  - assert (Hor : role m = "admin" \/ owner w = userId).
    { apply andb_false_iff in Hc. rewrite !negb_false_iff in Hc.
      rewrite String.eqb_eq, Z.eqb_eq in Hc. exact Hc. }
    split.
    + intros H. destruct (save (objectAssign w data)) as [[]|e] eqn:Hs;
        simpl in H; [|discriminate].
      injection H as <-. exists w, m. now repeat split.
    + intros [w0 [m0 [Hf [_ [_ [-> Hs]]]]]].
      injection Hf as <-. now rewrite Hs.
Qed.

End WorkspaceServiceProofs2.

Section DiscussionProofs.
Import Workspace.

Variable db : list Workspace.t.

Lemma newestFirst_order (ds : list Discussion) :
  newestFirstOrder (WorkspaceService.newestFirst ds).
Proof.
  unfold newestFirstOrder, WorkspaceService.newestFirst.
  pose proof (sortBy_ascending (fun d => - lastMessageAt d) ds) as Hs.
  unfold ascending in Hs.
  induction Hs as [|a rest _ IH Hall]; constructor; [exact IH|].
  eapply Forall_impl; [|exact Hall].
  simpl. intros b Hb. lia.
Qed.

(** X10. [getDiscussions] on an existing workspace answers newest first
    (descending by [lastMessageAt]).  Without a [parentType] it answers
    every discussion of the workspace, whatever [parentId] holds; with one,
    exactly the discussions of that parent type, and among them, when
    [parentId] is given too, those whose parent id is that string. *)
Theorem getDiscussions_newest_first
  (workspaceId : ObjectId) (parentType parentId : JS.Param) (w : Workspace.t) :
  WorkspaceService.findById db workspaceId = Some w ->
  exists ds,
    WorkspaceService.getDiscussions db workspaceId parentType parentId = Resolved ds /\
    newestFirstOrder ds /\
    (JS.truthy parentType = false -> Permutation ds (discussions w)) /\
    (JS.truthy parentType = true ->
     forall d,
       In d ds <->
       In d (discussions w) /\
       Workspace.parentType d = JS.str parentType /\
       (JS.truthy parentId = true ->
        Workspace.parentId d = Json.Str (JS.str parentId))).
Proof.
  intros Hfind. unfold WorkspaceService.getDiscussions. rewrite Hfind.
  eexists. split; [reflexivity|].
  split; [apply newestFirst_order|].
  split.
  - intros Hf. rewrite Hf. apply sortBy_perm.
  - intros Ht d. rewrite Ht.
    unfold WorkspaceService.newestFirst. rewrite sortBy_In.
    assert (Hstrict : forall v s,
               WorkspaceService.strictEqString v s = true <-> v = Json.Str s).
    { intros v s. destruct v; simpl; try (split; [discriminate | congruence]).
      rewrite String.eqb_eq. split; congruence. }
    destruct (JS.truthy parentId).
    + rewrite !filter_In, String.eqb_eq, Hstrict. tauto.
    + rewrite filter_In, String.eqb_eq. split.
      * intros [H1 H2]. repeat split; auto. discriminate.
      * tauto.
Qed.

End DiscussionProofs.

(* ================================================================== *)
(** * The workspace routes *)
(* ================================================================== *)

Section WorkspaceRouteProofs.
Import Workspace.

Lemma findMember_setRoleOfFirst (id id' : ObjectId) (r : string) (ms : list Member) :
  findMember (setRoleOfFirst id r ms) id'
  = if id' =? id
    then option_map (fun m => withRole m r) (findMember ms id)
    else findMember ms id'.
Proof.
  unfold findMember.
  induction ms as [|x rest IH]; simpl.
  - now destruct (id' =? id).
  - destruct (user x =? id) eqn:Hx; simpl.
    + apply Z.eqb_eq in Hx.
      destruct (id' =? id) eqn:Hi.
      * apply Z.eqb_eq in Hi. subst id'. rewrite <- Hx at 1.
        now rewrite Z.eqb_refl.
      * apply Z.eqb_neq in Hi.
        assert (Hn : (user x =? id') = false) by (apply Z.eqb_neq; congruence).
        now rewrite Hn.
    + destruct (user x =? id') eqn:Hx'.
      * apply Z.eqb_eq in Hx'. apply Z.eqb_neq in Hx.
        assert (Hn : (id' =? id) = false) by (apply Z.eqb_neq; congruence).
        now rewrite Hn.
      * exact IH.
Qed.

Variable ROLE_VALUES : list string.
Variable canManageRole : Workspace.t -> ObjectId -> string -> bool.
Variable logActivity : Workspace.t -> string -> ObjectId -> Json.t -> Workspace.t.
Variable save : Workspace.t -> Promise unit.

Lemma saveAndAnswer_saved (D : Type) (w w' : Workspace.t)
  (answer answer' : Rest.Answer D) :
  WorkspaceRoutes.saveAndAnswer save w answer = (answer', Some w') ->
  w' = w /\ answer' = answer /\ save w = Resolved tt.
Proof.
  unfold WorkspaceRoutes.saveAndAnswer.
  destruct (save w) as [[]|m]; intros H; inversion H; auto.
Qed.

(** X11. When PUT /:id/members/:userId stores anything, it answers 200 and
    the stored workspace has the owner it had and the entries it had, in
    order, except that the first entry of the target user carries the new
    role; that role is one of the known roles other than 'owner' which the
    requester may manage, the target is not the owner, and so no entry of
    the owner is touched. *)
Theorem putMemberRole_stored
  (w : Workspace.t) (requester userId : ObjectId) (role : JS.Param)
  (answer : Rest.Answer Member) (w' : Workspace.t) :
  keepsMembership logActivity ->
  WorkspaceRoutes.putMemberRole ROLE_VALUES canManageRole logActivity save
    w requester userId role = (answer, Some w') ->
  Rest.code answer = 200 /\
  owner w' = owner w /\
  userId <> owner w /\
  (exists r m before after,
     role = Some r /\ In r ROLE_VALUES /\ r <> "owner" /\
     canManageRole w requester r = true /\
     members w = before ++ m :: after /\
     (forall x, In x before -> user x <> userId) /\
     user m = userId /\
     members w' = before ++ withRole m r :: after) /\
  (forall m, In m (members w) -> user m = owner w -> In m (members w')).
Proof.
  intros Hframe. unfold WorkspaceRoutes.putMemberRole.
  destruct role as [r|]; simpl; [|discriminate].
  destruct (existsb (String.eqb r) ROLE_VALUES) eqn:Hrole; simpl; [|discriminate].
  destruct (owner w =? userId) eqn:Hown; [discriminate|].
  destruct (String.eqb r "owner") eqn:Hro; [discriminate|].
  destruct (canManageRole w requester r) eqn:Hcan; simpl; [|discriminate].
  destruct (findMember (members w) userId) as [m|] eqn:Hm; [|discriminate].
  intros H. apply saveAndAnswer_saved in H. destruct H as [-> [-> _]].
  destruct (Hframe (withMembers w (setRoleOfFirst userId r (members w)))
              "member:role_changed" requester
              (Json.Obj [("targetUser", WorkspaceRoutes.idJson userId);
                         ("oldRole", Json.Str (Workspace.role m));
                         ("newRole", Json.Str r)])) as [Ho Hmem].
  simpl in Ho, Hmem.
  apply Z.eqb_neq in Hown. apply String.eqb_neq in Hro.
  destruct (findMember_split _ _ _ Hm) as [before [after [Hsplit [Hb Hu]]]].
  split; [reflexivity|].
  split; [exact Ho|].
  split; [congruence|].
  split.
  - exists r, m, before, after.
    split; [reflexivity|].
    split.
    { apply existsb_exists in Hrole. destruct Hrole as [x [Hx Hxr]].
      apply String.eqb_eq in Hxr. now subst x. }
    split; [exact Hro|]. split; [exact Hcan|].
    split; [exact Hsplit|]. split; [exact Hb|]. split; [exact Hu|].
    rewrite Hmem, Hsplit. now apply setRoleOfFirst_split.
  - intros x Hx Hxo. rewrite Hmem.
    apply setRoleOfFirst_others; [congruence | exact Hx].
Qed.

(** X12. When DELETE /:id/members/:userId or POST /:id/leave stores
    anything, it answers 200 and the stored workspace has the owner it had
    and its entries in order, less the first entry of the user who is
    removed; that user is not the owner. *)
Theorem member_removal_stored
  (w : Workspace.t) (requester userId : ObjectId)
  (answer : Rest.Answer unit) (w' : Workspace.t) :
  keepsMembership logActivity ->
  WorkspaceRoutes.deleteMember canManageRole logActivity save w requester userId
  = (answer, Some w') \/
  WorkspaceRoutes.postLeave logActivity save w userId = (answer, Some w') ->
  Rest.code answer = 200 /\
  owner w' = owner w /\
  userId <> owner w /\
  exists m before after,
    members w = before ++ m :: after /\
    (forall x, In x before -> user x <> userId) /\
    user m = userId /\
    members w' = before ++ after.
Proof.
  intros Hframe H.
  assert (Hcore :
            owner w <> userId /\
            exists m action actor details answer0,
              findMember (members w) userId = Some m /\
              WorkspaceRoutes.saveAndAnswer save
                (logActivity (withMembers w (removeFirst userId (members w)))
                   action actor details)
                answer0 = (answer, Some w') /\
              Rest.code answer0 = 200).
  { destruct H as [H|H].
    - unfold WorkspaceRoutes.deleteMember in H.
      destruct (owner w =? userId) eqn:Hown; [discriminate|].
      apply Z.eqb_neq in Hown. split; [exact Hown|].
      destruct (findMember (members w) userId) as [m|] eqn:Hm; [|discriminate].
      destruct (canManageRole w requester (Workspace.role m)); simpl in H;
        [|discriminate].
      exists m. do 4 eexists. split; [reflexivity|]. split; [exact H | reflexivity].
    - unfold WorkspaceRoutes.postLeave in H.
      destruct (owner w =? userId) eqn:Hown; [discriminate|].
      apply Z.eqb_neq in Hown. split; [exact Hown|].
      destruct (findMember (members w) userId) as [m|] eqn:Hm; [|discriminate].
      exists m. do 4 eexists. split; [reflexivity|]. split; [exact H | reflexivity]. }
  destruct Hcore as [Hown [m [action [actor [details [answer0 [Hm [Hs Hc]]]]]]]].
  apply saveAndAnswer_saved in Hs. destruct Hs as [-> [-> _]].
  destruct (Hframe (withMembers w (removeFirst userId (members w)))
              action actor details) as [Ho Hmem].
  simpl in Ho, Hmem.
  destruct (findMember_split _ _ _ Hm) as [before [after [Hsplit [Hb Hu]]]].
  split; [exact Hc|].
  split; [exact Ho|].
  split; [congruence|].
  exists m, before, after.
  split; [exact Hsplit|]. split; [exact Hb|]. split; [exact Hu|].
  rewrite Hmem, Hsplit. now apply removeFirst_split.
Qed.

(** X13. When POST /:id/transfer stores anything, it answers 200, the new
    owner was already a member and is the owner of the stored workspace, and
    the members are the same users in the same order.  If the new owner is
    another user, their first entry now has role 'owner' and the first entry
    of the previous owner, if there is one, has role 'manager'; if the owner
    transfers to themselves, their first entry ends with role 'manager'. *)
Theorem postTransfer_stored
  (w : Workspace.t) (requester : ObjectId) (newOwnerId : option ObjectId)
  (answer : Rest.Answer Workspace.t) (w' : Workspace.t) :
  keepsMembership logActivity ->
  WorkspaceRoutes.postTransfer logActivity save w requester newOwnerId
  = (answer, Some w') ->
  exists newOwner m,
    newOwnerId = Some newOwner /\
    Rest.code answer = 200 /\
    owner w' = newOwner /\
    map user (members w') = map user (members w) /\
    findMember (members w) newOwner = Some m /\
    (newOwner <> owner w ->
     findMember (members w') newOwner = Some (withRole m "owner") /\
     forall o, findMember (members w) (owner w) = Some o ->
               findMember (members w') (owner w) = Some (withRole o "manager")) /\
    (newOwner = owner w ->
     findMember (members w') newOwner = Some (withRole m "manager")).
Proof.
  intros Hframe. unfold WorkspaceRoutes.postTransfer.
  destruct newOwnerId as [newOwner|]; [|discriminate].
  destruct (findMember (members w) newOwner) as [m|] eqn:Hm; [|discriminate].
  intros H. apply saveAndAnswer_saved in H. destruct H as [-> [-> _]].
  match goal with
  | |- context [logActivity ?x ?a ?u ?d] =>
      destruct (Hframe x a u d) as [Ho Hmem]
  end.
  simpl in Ho, Hmem.
  exists newOwner, m.
  split; [reflexivity|]. split; [reflexivity|]. split; [exact Ho|].
  set (promoted := setRoleOfFirst newOwner "owner" (members w)) in *.
  assert (Hpn : findMember promoted newOwner = Some (withRole m "owner")).
  { unfold promoted. rewrite findMember_setRoleOfFirst, Z.eqb_refl, Hm.
    reflexivity. }
  split.
  { rewrite Hmem.
    destruct (findMember promoted (owner w)); unfold promoted;
      now rewrite ?setRoleOfFirst_users. }
  split; [exact Hm|].
  split.
  - intros Hne.
    assert (Hpo : findMember promoted (owner w) = findMember (members w) (owner w)).
    { unfold promoted. rewrite findMember_setRoleOfFirst.
      assert (Hn : (owner w =? newOwner) = false) by (apply Z.eqb_neq; congruence).
      now rewrite Hn. }
    rewrite Hmem, Hpo.
    destruct (findMember (members w) (owner w)) as [o|] eqn:Hold.
    + split.
      * rewrite findMember_setRoleOfFirst.
        assert (Hn : (newOwner =? owner w) = false) by now apply Z.eqb_neq.
        now rewrite Hn.
      * intros o' Ho'. injection Ho' as <-.
        rewrite findMember_setRoleOfFirst, Z.eqb_refl, Hpo. reflexivity.
    + split; [exact Hpn | discriminate].
  - intros Heq. rewrite Hmem. rewrite <- Heq.
    rewrite Hpn.
    rewrite findMember_setRoleOfFirst, Z.eqb_refl, Hpn. reflexivity.
Qed.

(** X14. None of the four membership routes can store a workspace whose
    owner is not among its members: if the owner has an entry before the
    request, the owner of the stored workspace has one. *)
Theorem routes_keep_owner_member
  (w w' : Workspace.t) (requester userId : ObjectId) (role : JS.Param)
  (newOwnerId : option ObjectId)
  (a1 : Rest.Answer Member) (a2 : Rest.Answer unit) (a3 : Rest.Answer Workspace.t) :
  keepsMembership logActivity ->
  ownerIsMember w ->
  WorkspaceRoutes.putMemberRole ROLE_VALUES canManageRole logActivity save
    w requester userId role = (a1, Some w') \/
  WorkspaceRoutes.deleteMember canManageRole logActivity save w requester userId
  = (a2, Some w') \/
  WorkspaceRoutes.postLeave logActivity save w userId = (a2, Some w') \/
  WorkspaceRoutes.postTransfer logActivity save w requester newOwnerId
  = (a3, Some w') ->
  ownerIsMember w'.
Proof.
  intros Hframe [o [Hin Ho]] H.
  assert (Huse : forall ms newOwner x action actor details (answer : Type),
             w' = logActivity (withMembers (withOwner w newOwner) ms) action actor details ->
             In x ms -> user x = newOwner -> ownerIsMember w').
  { intros ms newOwner x action actor details _ -> Hx Hxo.
    destruct (Hframe (withMembers (withOwner w newOwner) ms) action actor details)
      as [Ho' Hmem]. simpl in Ho', Hmem.
    exists x. rewrite Hmem, Ho'. now split. }
  assert (Hsame : forall ms action actor details,
             w' = logActivity (withMembers w ms) action actor details ->
             In (owner w) (map user ms) -> ownerIsMember w').
  { intros ms action actor details -> Hu.
    destruct (Hframe (withMembers w ms) action actor details) as [Ho' Hmem].
    simpl in Ho', Hmem.
    apply in_map_iff in Hu. destruct Hu as [x [Hx Hxin]].
    exists x. rewrite Hmem, Ho'. now split. }
  assert (Howner : In (owner w) (map user (members w))).
  { rewrite <- Ho. now apply in_map. }
  destruct H as [H | [H | [H | H]]].
  - unfold WorkspaceRoutes.putMemberRole in H.
    destruct (negb _); [discriminate|].
    destruct (owner w =? userId); [discriminate|].
    destruct (String.eqb _ _); [discriminate|].
    destruct (negb _); [discriminate|].
    destruct (findMember (members w) userId); [|discriminate].
    apply saveAndAnswer_saved in H. destruct H as [Hw _].
    eapply Hsame; [exact Hw|]. now rewrite setRoleOfFirst_users.
  - unfold WorkspaceRoutes.deleteMember in H.
    destruct (owner w =? userId) eqn:Hown; [discriminate|].
    destruct (findMember (members w) userId) as [m|] eqn:Hm; [|discriminate].
    destruct (negb _); [discriminate|].
    apply saveAndAnswer_saved in H. destruct H as [Hw _].
    eapply Hsame; [exact Hw|].
    destruct (findMember_split _ _ _ Hm) as [before [after [Hsplit [Hb Hu]]]].
    rewrite Hsplit, removeFirst_split by assumption.
    rewrite Hsplit, map_app in Howner. simpl in Howner.
    rewrite map_app. apply in_app_or in Howner. apply in_or_app.
    destruct Howner as [Hl | [Heq | Hr]]; [now left | | now right].
    apply Z.eqb_neq in Hown. congruence.
  - unfold WorkspaceRoutes.postLeave in H.
    destruct (owner w =? userId) eqn:Hown; [discriminate|].
    destruct (findMember (members w) userId) as [m|] eqn:Hm; [|discriminate].
    apply saveAndAnswer_saved in H. destruct H as [Hw _].
    eapply Hsame; [exact Hw|].
    destruct (findMember_split _ _ _ Hm) as [before [after [Hsplit [Hb Hu]]]].
    rewrite Hsplit, removeFirst_split by assumption.
    rewrite Hsplit, map_app in Howner. simpl in Howner.
    rewrite map_app. apply in_app_or in Howner. apply in_or_app.
    destruct Howner as [Hl | [Heq | Hr]]; [now left | | now right].
    apply Z.eqb_neq in Hown. congruence.
  - unfold WorkspaceRoutes.postTransfer in H.
    destruct newOwnerId as [newOwner|]; [|discriminate].
    destruct (findMember (members w) newOwner) as [m|] eqn:Hm; [|discriminate].
    apply saveAndAnswer_saved in H. destruct H as [Hw _].
    assert (Hin' : In newOwner (map user (members w))).
    { apply findMember_some in Hm. destruct Hm as [Hmi <-]. now apply in_map. }
    set (ms := match findMember (setRoleOfFirst newOwner "owner" (members w)) (owner w) with
               | Some _ => setRoleOfFirst (owner w) "manager"
                             (setRoleOfFirst newOwner "owner" (members w))
               | None => setRoleOfFirst newOwner "owner" (members w)
               end) in *.
    assert (Hms : map user ms = map user (members w)).
    { unfold ms. destruct (findMember _ (owner w));
        now rewrite ?setRoleOfFirst_users. }
    rewrite <- Hms in Hin'. apply in_map_iff in Hin'.
    destruct Hin' as [x [Hx Hxin]].
    eapply (Huse ms newOwner x _ _ _ unit); [exact Hw | exact Hxin | exact Hx].
Qed.

End WorkspaceRouteProofs.

Section WorkspaceCreateProofs.
Import Workspace.

Variable logActivity : Workspace.t -> string -> ObjectId -> Json.t -> Workspace.t.
Variable save : Workspace.t -> Promise unit.

(** X15. POST / stores a workspace only for a name that is not blank, and
    then answers 201; the stored workspace is owned by the requester and its
    only member is the requester, active, with role 'owner', so the owner is
    among the members from the start.  A missing or blank name is answered
    400 and nothing is stored. *)
Theorem postCreate_stored
  (newId requester : ObjectId) (now : Z) (name description : JS.Param)
  (settings : Json.t) :
  keepsMembership logActivity ->
  (forall answer w',
     WorkspaceRoutes.postCreate logActivity save newId requester now
       name description settings = (answer, Some w') ->
     Rest.code answer = 201 /\
     JS.truthy name = true /\
     JSString.trim (JS.str name) <> EmptyString /\
     owner w' = requester /\
     members w'
     = [{| user := requester; role := "owner"; status := "active"; joinedAt := now |}] /\
     ownerIsMember w') /\
  (JS.truthy name = false \/ JSString.trim (JS.str name) = EmptyString ->
   WorkspaceRoutes.postCreate logActivity save newId requester now
     name description settings
   = (Rest.Failure 400 "Workspace name is required", None)).
Proof.
  intros Hframe. unfold WorkspaceRoutes.postCreate.
  split.
  - intros answer w'.
    destruct (negb (JS.truthy name)
              || Nat.eqb (String.length (JSString.trim (JS.str name))) 0) eqn:Hbad;
      [discriminate|].
    apply orb_false_iff in Hbad. destruct Hbad as [Hname Hblank].
    apply negb_false_iff in Hname. apply Nat.eqb_neq in Hblank.
    match goal with
    | |- context [logActivity ?x ?a ?u ?d] =>
        destruct (Hframe x a u d) as [Ho Hmem];
        destruct (save (logActivity x a u d)) as [[]|m]
    end; [|discriminate].
    intros H. injection H as <- <-. simpl in Ho, Hmem.
    split; [reflexivity|]. split; [exact Hname|].
    split; [intros Hnil; rewrite Hnil in Hblank; now apply Hblank|].
    split; [exact Ho|]. split; [exact Hmem|].
    eexists. rewrite Hmem, Ho. split; [now left | reflexivity].
  - intros [Hname | Hblank].
    + now rewrite Hname.
    + rewrite Hblank. simpl. now rewrite orb_true_r.
Qed.

End WorkspaceCreateProofs.

(* ================================================================== *)
(** * GET /:id/activity and POST /join *)
(* ================================================================== *)

(** The window [slice(-limit - offset, -offset || undefined)], reversed: the
    [limit] newest elements after the [offset] newest. *)
Lemma slice_newest_window {A : Type} (l : list A) (limit offset : Z) :
  0 <= limit -> 0 <= offset -> 0 < limit + offset ->
  rev (JSNum.slice l
         (JSNum.sub (JSNum.neg (JS.Num limit)) (JS.Num offset))
         (JSNum.orUndefined (JSNum.neg (JS.Num offset))))
  = firstn (Z.to_nat limit) (skipn (Z.to_nat offset) (rev l)).
Proof.
  intros Hl Ho Hpos.
  set (n := List.length l).
  set (a := Z.to_nat limit). set (b := Z.to_nat offset).
  assert (Hk : JSNum.relativeIndex n (JS.Num (- limit - offset)) = (n - (a + b))%nat).
  { unfold JSNum.relativeIndex.
    assert (Hneg : (- limit - offset <? 0) = true) by (apply Z.ltb_lt; lia).
    rewrite Hneg. unfold a, b. lia. }
  assert (Hf : match JSNum.orUndefined (JS.Num (- offset)) with
               | None => n
               | Some e => JSNum.relativeIndex n e
               end = (n - b)%nat).
  { unfold JSNum.orUndefined.
    destruct (- offset =? 0) eqn:Hz.
    - apply Z.eqb_eq in Hz. unfold b. lia.
    - apply Z.eqb_neq in Hz. unfold JSNum.relativeIndex.
      assert (Hneg : (- offset <? 0) = true) by (apply Z.ltb_lt; lia).
      rewrite Hneg. unfold b. lia. }
  unfold JSNum.slice. simpl JSNum.neg. simpl JSNum.sub.
  fold n. rewrite Hk, Hf.
  rewrite skipn_rev, firstn_rev. fold n.
  rewrite length_firstn. fold n.
  f_equal.
  rewrite skipn_firstn_comm.
  replace (Init.Nat.min (n - b) n - a)%nat with (n - (a + b))%nat by lia.
  reflexivity.
Qed.

(** X16. GET /:id/activity pages the log from its newest end: with a limit
    above 0 and an offset of at least 0 it answers the [limit] newest
    activities after skipping the [offset] newest, newest first, and the
    total is the length of the whole log; without parameters that is the 50
    newest.  With limit 0 and offset 0 it answers the whole log, newest
    first. *)
Theorem getActivity_newest_page (w : Workspace.t) (limit offset : Z) :
  0 < limit -> 0 <= offset ->
  WorkspaceRoutes.getActivity w (Some (JS.Num limit)) (Some (JS.Num offset))
  = Rest.Success 200
      (Some {| WorkspaceRoutes.data :=
                 firstn (Z.to_nat limit)
                   (skipn (Z.to_nat offset) (rev (Workspace.activityLog w)));
               WorkspaceRoutes.total := List.length (Workspace.activityLog w) |})
      None /\
  WorkspaceRoutes.getActivity w None None
  = Rest.Success 200
      (Some {| WorkspaceRoutes.data := firstn 50 (rev (Workspace.activityLog w));
               WorkspaceRoutes.total := List.length (Workspace.activityLog w) |})
      None /\
  WorkspaceRoutes.getActivity w (Some (JS.Num 0)) (Some (JS.Num 0))
  = Rest.Success 200
      (Some {| WorkspaceRoutes.data := rev (Workspace.activityLog w);
               WorkspaceRoutes.total := List.length (Workspace.activityLog w) |})
      None.
Proof.
  intros Hl Ho. unfold WorkspaceRoutes.getActivity.
  split; [|split].
  - rewrite slice_newest_window by lia. reflexivity.
  - rewrite (slice_newest_window (Workspace.activityLog w) 50 0) by lia.
    reflexivity.
  - assert (Hall : JSNum.slice (Workspace.activityLog w) (JS.Num 0) None
                   = Workspace.activityLog w).
    { unfold JSNum.slice.
      assert (Hk : JSNum.relativeIndex (List.length (Workspace.activityLog w)) (JS.Num 0)
                   = 0%nat).
      { unfold JSNum.relativeIndex. simpl. lia. }
      rewrite Hk, Nat.sub_0_r. simpl skipn. apply firstn_all. }
    change (JSNum.sub (JSNum.neg (JS.Num 0)) (JS.Num 0)) with (JS.Num 0).
    change (JSNum.orUndefined (JSNum.neg (JS.Num 0))) with (@None JS.Number).
    now rewrite Hall.
Qed.

(** X17. POST /join looks at [token] first.  With a non-empty [token] the
    answer is made from [acceptInvite(token, user)] alone: 200 with the
    result and its [message] when it resolves, 400 with the error's message
    when it rejects or resolves with [null] or [undefined]; [joinViaLink]
    and [linkToken] have no part in it.  With no [token] and a non-empty
    [linkToken] the same holds of [joinViaLink(linkToken, user)].  With
    neither the answer is 400, and no status but 200 and 400 is answered. *)
Theorem postJoin_token_first
  (acceptInvite joinViaLink : string -> ObjectId -> Promise Json.t)
  (userId : ObjectId) (token linkToken : JS.Param) :
  (JS.truthy token = true ->
   (forall result message,
      acceptInvite (JS.str token) userId = Resolved result ->
      Json.get result "message" = Resolved message ->
      WorkspaceRoutes.postJoin acceptInvite joinViaLink userId token linkToken
      = Rest.Success 200
          (Some {| WorkspaceRoutes.result := result;
                   WorkspaceRoutes.resultMessage := message |})
          None) /\
   (forall result error,
      acceptInvite (JS.str token) userId = Resolved result ->
      Json.get result "message" = Rejected error ->
      WorkspaceRoutes.postJoin acceptInvite joinViaLink userId token linkToken
      = Rest.Failure 400 error) /\
   (forall error,
      acceptInvite (JS.str token) userId = Rejected error ->
      WorkspaceRoutes.postJoin acceptInvite joinViaLink userId token linkToken
      = Rest.Failure 400 error) /\
   (forall otherJoin otherLink,
      WorkspaceRoutes.postJoin acceptInvite otherJoin userId token otherLink
      = WorkspaceRoutes.postJoin acceptInvite joinViaLink userId token linkToken)) /\
  (JS.truthy token = false -> JS.truthy linkToken = true ->
   (forall result message,
      joinViaLink (JS.str linkToken) userId = Resolved result ->
      Json.get result "message" = Resolved message ->
      WorkspaceRoutes.postJoin acceptInvite joinViaLink userId token linkToken
      = Rest.Success 200
          (Some {| WorkspaceRoutes.result := result;
                   WorkspaceRoutes.resultMessage := message |})
          None) /\
   (forall result error,
      joinViaLink (JS.str linkToken) userId = Resolved result ->
      Json.get result "message" = Rejected error ->
      WorkspaceRoutes.postJoin acceptInvite joinViaLink userId token linkToken
      = Rest.Failure 400 error) /\
   (forall error,
      joinViaLink (JS.str linkToken) userId = Rejected error ->
      WorkspaceRoutes.postJoin acceptInvite joinViaLink userId token linkToken
      = Rest.Failure 400 error) /\
   (forall otherAccept,
      WorkspaceRoutes.postJoin otherAccept joinViaLink userId token linkToken
      = WorkspaceRoutes.postJoin acceptInvite joinViaLink userId token linkToken)) /\
  (JS.truthy token = false -> JS.truthy linkToken = false ->
   WorkspaceRoutes.postJoin acceptInvite joinViaLink userId token linkToken
   = Rest.Failure 400 "Invite token or link token is required") /\
  (Rest.code (WorkspaceRoutes.postJoin acceptInvite joinViaLink userId token linkToken)
   = 200 \/
   Rest.code (WorkspaceRoutes.postJoin acceptInvite joinViaLink userId token linkToken)
   = 400).
Proof.
  unfold WorkspaceRoutes.postJoin.
  split; [|split; [|split]].
  - intros Ht. rewrite Ht. split; [|split; [|split]].
    + intros result message Hr Hm. rewrite Hr. simpl. now rewrite Hm.
    + intros result error Hr Hm. rewrite Hr. simpl. now rewrite Hm.
    + intros error Hr. now rewrite Hr.
    + reflexivity.
  - intros Ht Hl. rewrite Ht, Hl. split; [|split; [|split]].
    + intros result message Hr Hm. rewrite Hr. simpl. now rewrite Hm.
    + intros result error Hr Hm. rewrite Hr. simpl. now rewrite Hm.
    + intros error Hr. now rewrite Hr.
    + reflexivity.
  - intros Ht Hl. now rewrite Ht, Hl.
  - destruct (JS.truthy token).
    + destruct (acceptInvite (JS.str token) userId) as [r|m]; simpl; [|now right].
      destruct (Json.get r "message"); simpl; [now left | now right].
    + destruct (JS.truthy linkToken).
      * destruct (joinViaLink (JS.str linkToken) userId) as [r|m]; simpl; [|now right].
        destruct (Json.get r "message"); simpl; [now left | now right].
      * now right.
Qed.

(* ================================================================== *)
(** * The currency service *)
(* ================================================================== *)

Section CurrencyProofs.
Context {F : Doubles}.
Import CurrencyService.

Lemma cacheGet_cacheSet (k k' : string) (v : Cached) (c : Cache) :
  cacheGet k (cacheSet k' v c)
  = if String.eqb k' k then Some v else cacheGet k c.
Proof.
  induction c as [|[k0 v0] rest IH]; simpl.
  - reflexivity.
  - destruct (String.eqb k0 k') eqn:H0; simpl.
    + apply String.eqb_eq in H0. subst k0.
      destruct (String.eqb k' k); reflexivity.
    + rewrite IH. destruct (String.eqb k0 k) eqn:H1; [|reflexivity].
      apply String.eqb_eq in H1. subst k0.
      rewrite String.eqb_sym, H0. reflexivity.
Qed.

Lemma cacheKey_inj (a b : string) :
  String.append "rates_" a = String.append "rates_" b -> a = b.
Proof. simpl. congruence. Qed.

Lemma rateOf_setRate (c k : string) (v : double) (r : Rates) :
  rateOf c (setRate k v r) = if String.eqb k c then Some v else rateOf c r.
Proof.
  induction r as [|[k0 v0] rest IH]; simpl.
  - reflexivity.
  - destruct (String.eqb k0 k) eqn:H0; simpl.
    + apply String.eqb_eq in H0. subst k0.
      destruct (String.eqb k c); reflexivity.
    + rewrite IH. destruct (String.eqb k0 c) eqn:H1; [|reflexivity].
      apply String.eqb_eq in H1. subst k0.
      rewrite String.eqb_sym, H0. reflexivity.
Qed.

(** A spread never removes a key. *)
Lemma rateOf_spread_some (c : string) (newRates r : Rates) :
  rateOf c r <> None -> rateOf c (spread r newRates) <> None.
Proof.
  unfold spread. revert r.
  induction newRates as [|[k v] rest IH]; intros r Hr; simpl; [exact Hr|].
  apply IH. rewrite rateOf_setRate.
  destruct (String.eqb k c); [discriminate | exact Hr].
Qed.

(** A spread gives a key of the new rates its new value, when the new rates
    name each key once. *)
Lemma rateOf_spread_new (c : string) (v : double) (newRates r : Rates) :
  NoDup (map fst newRates) -> In (c, v) newRates ->
  rateOf c (spread r newRates) = Some v.
Proof.
  unfold spread. revert r.
  induction newRates as [|[k v0] rest IH]; intros r Hnd Hin; [contradiction|].
  simpl in Hnd. inversion Hnd as [|? ? Hnot Hnd']; subst.
  simpl. destruct Hin as [Heq|Hin].
  - injection Heq as -> ->.
    assert (Hkeep : forall rest' r',
               ~ In c (map fst rest') -> rateOf c r' = Some v ->
               rateOf c (fold_left (fun acc kv => setRate (fst kv) (snd kv) acc) rest' r')
               = Some v).
    { induction rest' as [|[k1 v1] rest' IH']; intros r' Hn Hr'; simpl; [exact Hr'|].
      apply IH'.
      - intros H. apply Hn. now right.
      - rewrite rateOf_setRate.
        destruct (String.eqb k1 c) eqn:Hk; [|exact Hr'].
        apply String.eqb_eq in Hk. exfalso. apply Hn. now left. }
    apply Hkeep; [exact Hnot|].
    rewrite rateOf_setRate, String.eqb_refl. reflexivity.
  - now apply IH.
Qed.

Lemma getRates_spec (s : t) (base : string) (now : Clock) :
  cacheCoherent s ->
  rates (fst (getExchangeRatesWithCache s base now)) = ratesFor (exchangeRates s) base /\
  exchangeRates (snd (getExchangeRatesWithCache s base now)) = exchangeRates s /\
  cacheCoherent (snd (getExchangeRatesWithCache s base now)).
Proof.
  intros Hc. unfold getExchangeRatesWithCache.
  assert (Hstore : forall stamp,
             cacheCoherent
               {| exchangeRates := exchangeRates s;
                  rateCache :=
                    cacheSet (String.append "rates_" base)
                      {| rates := ratesFor (exchangeRates s) base; timestamp := stamp |}
                      (rateCache s) |}).
  { intros stamp b entry. simpl rateCache. simpl exchangeRates.
    rewrite cacheGet_cacheSet.
    match goal with
    | |- context [String.eqb ?x ?y] => destruct (String.eqb x y) eqn:Hk
    end.
    - apply String.eqb_eq in Hk. apply (cacheKey_inj base b) in Hk. subst b.
      intros H. injection H as <-. reflexivity.
    - apply Hc. }
  destruct (cacheGet (String.append "rates_" base) (rateCache s)) as [cached|] eqn:Hget.
  - destruct (atTest now - timestamp cached <? cacheTTL).
    + simpl. split; [now apply Hc|]. split; [reflexivity | exact Hc].
    + simpl. split; [reflexivity|]. split; [reflexivity | apply Hstore].
  - simpl. split; [reflexivity|]. split; [reflexivity | apply Hstore].
Qed.

Lemma constructed_rated : validCurrenciesRated constructed.
Proof.
  intros c Hv. unfold isValidCurrency, validCurrencies in Hv. simpl in Hv.
  rewrite !orb_true_iff, !String.eqb_eq in Hv.
  destruct Hv as [-> | [-> | [-> | [-> | [-> | Hf]]]]];
    try discriminate Hf; simpl; eauto.
Qed.

Lemma reachable_invariants (s : t) :
  reachable s -> cacheCoherent s /\ validCurrenciesRated s.
Proof.
  induction 1 as [| s base now _ [Hc Hr] | s from to now _ [Hc Hr]
                  | s amount from to now _ [Hc Hr] | s _ [Hc Hr]
                  | s newRates _ [Hc Hr]].
  - split; [intros b e H; discriminate H | apply constructed_rated].
  - destruct (getRates_spec s base now Hc) as [_ [He Hc']].
    split; [exact Hc'|]. intros c Hv. rewrite He. now apply Hr.
  - unfold getExchangeRate.
    destruct (getRates_spec s "USD" now Hc) as [_ [He Hc']].
    destruct (getExchangeRatesWithCache s "USD" now) as [cached s']. simpl in *.
    split; [exact Hc'|]. intros c Hv. rewrite He. now apply Hr.
  - unfold convertCurrency.
    destruct (negb (isValidCurrency from) || negb (isValidCurrency to));
      [now split|].
    destruct (getRates_spec s "USD" now Hc) as [_ [He Hc']].
    destruct (getExchangeRatesWithCache s "USD" now) as [cached s']. simpl in *.
    split; [exact Hc'|]. intros c Hv. rewrite He. now apply Hr.
  - split; [intros b e H; discriminate H | exact Hr].
  - split; [intros b e H; discriminate H|].
    intros c Hv. simpl.
    destruct (Hr c Hv) as [r Hrc].
    destruct (rateOf c (spread (exchangeRates s) newRates)) as [r'|] eqn:Hs;
      [now exists r'|].
    exfalso. revert Hs. apply rateOf_spread_some. congruence.
Qed.

(** X18. The rate cache never serves stale rates: in every state the
    service can reach, [getExchangeRatesWithCache(base)] returns the rates
    computed from the current exchange rates for that base, whether it
    answers from the cache or not, and leaves the exchange rates as they
    are. *)
Theorem cache_never_stale (s : t) (base : string) (now : Clock) :
  reachable s ->
  rates (fst (getExchangeRatesWithCache s base now)) = ratesFor (exchangeRates s) base /\
  exchangeRates (snd (getExchangeRatesWithCache s base now)) = exchangeRates s.
Proof.
  intros Hr. apply reachable_invariants in Hr. destruct Hr as [Hc _].
  destruct (getRates_spec s base now Hc) as [H1 [H2 _]]. now split.
Qed.

(** X19. In every state the service can reach, a conversion between two
    of the five valid currencies resolves, and its figures come from the
    current exchange rates of the two: the rate is to/from and the
    amount is (amount / from) * to, rounded to cents.  No valid currency is
    ever without a rate. *)
Theorem convertCurrency_uses_current_rates
  (s : t) (amount : double) (from to : string) (now : Clock) :
  reachable s ->
  isValidCurrency from = true ->
  isValidCurrency to = true ->
  exists fromRate toRate,
    rateOf from (exchangeRates s) = Some fromRate /\
    rateOf to (exchangeRates s) = Some toRate /\
    fst (convertCurrency s amount from to now)
    = Resolved
        {| convertedAmount := round2 (fmul (fdiv amount fromRate) toRate);
           exchangeRate := fdiv toRate fromRate;
           c_fromCurrency := from;
           c_toCurrency := to |}.
Proof.
  intros Hr Hf Ht. apply reachable_invariants in Hr. destruct Hr as [Hc Hrated].
  destruct (Hrated from Hf) as [fromRate Hfr].
  destruct (Hrated to Ht) as [toRate Htr].
  exists fromRate, toRate. split; [exact Hfr|]. split; [exact Htr|].
  unfold convertCurrency. rewrite Hf, Ht. simpl.
  destruct (getRates_spec s "USD" now Hc) as [Hrates _].
  destruct (getExchangeRatesWithCache s "USD" now) as [cached s']. simpl in *.
  rewrite Hrates. unfold ratesFor. simpl.
  now rewrite Hfr, Htr.
Qed.

(** X20. New rates take effect at once: right after
    [updateExchangeRates(newRates)], with each currency named once in
    [newRates], the rates for base USD give every currency of [newRates] its
    new value, whatever the cache held before. *)
Theorem updateExchangeRates_takes_effect
  (s : t) (newRates : Rates) (currency : string) (v : double) (now : Clock) :
  NoDup (map fst newRates) ->
  In (currency, v) newRates ->
  rateOf currency
    (rates (fst (getExchangeRatesWithCache (updateExchangeRates s newRates) "USD" now)))
  = Some v.
Proof.
  intros Hnd Hin.
  unfold getExchangeRatesWithCache, updateExchangeRates, clearCache. simpl.
  now apply rateOf_spread_new.
Qed.

End CurrencyProofs.

(* ================================================================== *)
(** * The amortization schedule *)
(* ================================================================== *)

Section DebtProofs.
Context {F : Doubles}.
Import DebtService.

(** What the loop keeps: the rows so far are numbered 1..n, the next month
    is n + 1, and every row has the monthly payment. *)
Lemma amortize_invariant (rounds : nat) (rate pay : double) :
  forall (month : Z) (balance : double) (schedule : list Row),
    month = Z.of_nat (List.length schedule) + 1 ->
    monthsFromOne schedule ->
    Forall (fun r => payment r = pay) schedule ->
    (List.length schedule <= 600)%nat ->
    monthsFromOne (amortize rounds rate pay month balance schedule) /\
    Forall (fun r => payment r = pay) (amortize rounds rate pay month balance schedule) /\
    (List.length (amortize rounds rate pay month balance schedule) <= 600)%nat.
Proof.
  induction rounds as [|rounds IH]; intros month balance schedule Hm Hmonths Hpay Hlen;
    simpl; [now repeat split|].
  destruct (fgt balance (literal "0.01") && (month <=? maxMonths)) eqn:Hcond;
    [|now repeat split].
  apply andb_true_iff in Hcond. destruct Hcond as [_ Hle].
  apply Z.leb_le in Hle. unfold maxMonths in Hle.
  destruct (fge (fsub pay (fmul balance rate)) balance);
    (apply IH;
     [ rewrite length_app; simpl; lia
     | unfold monthsFromOne in *; rewrite map_app, length_app; simpl;
       rewrite Nat.add_1_r, versionsUpTo_S, Hmonths; do 2 f_equal; lia
     | apply Forall_app; split; [exact Hpay | now repeat constructor]
     | rewrite length_app; simpl; lia ]).
Qed.

(** The number of rounds allowed does not matter once it covers the months
    left up to [maxMonths]. *)
Lemma amortize_rounds_irrelevant (rate pay : double) (rounds1 : nat) :
  forall (rounds2 : nat) (month : Z) (balance : double) (schedule : list Row),
    month = Z.of_nat (List.length schedule) + 1 ->
    (600 <= rounds1 + List.length schedule)%nat ->
    (600 <= rounds2 + List.length schedule)%nat ->
    amortize rounds1 rate pay month balance schedule
    = amortize rounds2 rate pay month balance schedule.
Proof.
  assert (Hstop : forall rounds month balance schedule,
             month = Z.of_nat (List.length schedule) + 1 ->
             (600 <= List.length schedule)%nat ->
             amortize rounds rate pay month balance schedule = schedule).
  { intros rounds month balance schedule Hm Hlen.
    destruct rounds as [|rounds]; simpl; [reflexivity|].
    assert (Hgt : (month <=? maxMonths) = false)
      by (apply Z.leb_gt; unfold maxMonths; lia).
    now rewrite Hgt, andb_false_r. }
  induction rounds1 as [|rounds1 IH]; intros rounds2 month balance schedule Hm H1 H2.
  - simpl. symmetry. apply Hstop; [exact Hm | simpl in H1; lia].
  - destruct rounds2 as [|rounds2].
    + simpl amortize at 2. apply Hstop; [exact Hm | simpl in H2; lia].
    + simpl.
      destruct (fgt balance (literal "0.01") && (month <=? maxMonths));
        [|reflexivity].
      destruct (fge (fsub pay (fmul balance rate)) balance);
        (apply IH; [rewrite length_app; simpl; lia
                   | rewrite length_app; simpl; lia
                   | rewrite length_app; simpl; lia]).
Qed.

(** X21. An amortization schedule never has more than 600 rows, however
    the arithmetic turns out (a payment that does not cover the interest
    included); its rows are numbered 1, 2, ..., n, each row's payment is the
    monthly payment plus the extra payment, and the bound is the loop's own
    test on the month: allowing more rounds changes nothing. *)
Theorem calculateAmortizationSchedule_capped (debt : Debt) (extraPayment : double) :
  (List.length (calculateAmortizationSchedule debt extraPayment) <= 600)%nat /\
  monthsFromOne (calculateAmortizationSchedule debt extraPayment) /\
  Forall (fun r => payment r = fadd (monthlyPayment debt) extraPayment)
    (calculateAmortizationSchedule debt extraPayment) /\
  forall rounds,
    (600 <= rounds)%nat ->
    calculateAmortizationScheduleWithin rounds debt extraPayment
    = calculateAmortizationSchedule debt extraPayment.
Proof.
  unfold calculateAmortizationSchedule, calculateAmortizationScheduleWithin.
  set (rate := fdiv (fdiv (interestRate debt) (literal "100")) (literal "12")).
  set (pay := fadd (monthlyPayment debt) extraPayment).
  destruct (amortize_invariant 600 rate pay 1 (currentBalance debt) [])
    as [Hmonths [Hpay Hlen]];
    [reflexivity | reflexivity | constructor | simpl; lia |].
  split; [exact Hlen|]. split; [exact Hmonths|]. split; [exact Hpay|].
  intros rounds Hr.
  apply amortize_rounds_irrelevant; [reflexivity | simpl; lia | simpl; lia].
Qed.

End DebtProofs.

(* ================================================================== *)
(** * More on the forensic routes and replays *)
(* ================================================================== *)

Lemma mapP_auditEntry_resolved (users : list User) (events : list FinancialEvent.t)
  (trail : list AuditEntry.t) :
  mapP (ForensicReplayEngine.auditEntry users) events = Resolved trail ->
  List.length trail = List.length events /\
  forall e, In e events -> populate users (userId e) <> None.
Proof.
  revert trail. induction events as [|e rest IH]; intros trail; simpl.
  - intros H. injection H as <-. split; [reflexivity | intros e []].
  - unfold ForensicReplayEngine.auditEntry at 1.
    destruct (populate users (userId e)) as [u|] eqn:Hu; simpl; [|discriminate].
    destruct (mapP (ForensicReplayEngine.auditEntry users) rest) as [ys|m] eqn:Hrest;
      simpl; [|discriminate].
    intros H. injection H as <-.
    destruct (IH ys eq_refl) as [Hlen Hall].
    split; [simpl; now rewrite Hlen|].
    intros x [<-|Hx]; [congruence | now apply Hall].
Qed.

(** The answer of the audit handler once the path parameter has cast to
    [entity]. *)
Lemma audit_of_cast_id
  (c : FinancialEvent.Collection) (users : list User) (entity : ObjectId)
  (answer : Http.Response ForensicsRoutes.AuditBody) :
  answer
  = tryCatch
      (await trail <- ForensicReplayEngine.generateAuditTrail c users entity ;;
       Resolved (Http.ok {| ForensicsRoutes.trail := trail |}))
      (fun message => Http.fail 500 message) ->
  (Http.status answer = 500 <->
   exists e, In e c /\ entityId e = entity /\ populate users (userId e) = None) /\
  (Http.status answer = 200 \/ Http.status answer = 500) /\
  ((forall e, In e c -> entityId e <> entity) ->
   answer = Http.ok {| ForensicsRoutes.trail := [] |}).
Proof.
  intros ->.
  unfold ForensicReplayEngine.generateAuditTrail.
  rewrite findSorted_entity. simpl.
  destruct (mapP (ForensicReplayEngine.auditEntry users) (chainOf c entity))
    as [trail|m] eqn:Hmap; simpl.
  - apply mapP_auditEntry_resolved in Hmap. destruct Hmap as [Hlen Hall].
    split; [|split].
    + split; [discriminate|].
      intros [e [Hin [Hent Hnone]]]. exfalso.
      apply (Hall e); [|exact Hnone]. apply chainOf_In. now split.
    + now left.
    + intros Hnone.
      assert (Hnil : chainOf c entity = []).
      { destruct (chainOf c entity) as [|x rest] eqn:Hc; [reflexivity|].
        assert (Hx : In x (chainOf c entity)) by (rewrite Hc; now left).
        apply chainOf_In in Hx. destruct Hx as [Hx Hxe].
        exfalso. exact (Hnone x Hx Hxe). }
      rewrite Hnil in Hlen. destruct trail; [reflexivity | discriminate Hlen].
  - split; [|split].
    + split; [|reflexivity]. intros _.
      destruct (List.find (fun e => match populate users (userId e) with
                                    | None => true | Some _ => false end)
                  (chainOf c entity)) as [e|] eqn:Hf.
      * apply find_some in Hf. destruct Hf as [Hin Hp].
        apply chainOf_In in Hin. destruct Hin as [Hin Hent].
        exists e. split; [exact Hin|]. split; [exact Hent|].
        destruct (populate users (userId e)); [discriminate | reflexivity].
      * exfalso.
        destruct (mapP_auditEntry users (chainOf c entity)) as [trail [Ht _]].
        { intros e He Hnone.
          pose proof (find_none _ _ Hf e He) as Hp. simpl in Hp.
          rewrite Hnone in Hp. discriminate. }
        rewrite Ht in Hmap. discriminate.
    + now right.
    + intros Hnone. exfalso.
      assert (Hnil : chainOf c entity = []).
      { destruct (chainOf c entity) as [|x rest] eqn:Hc; [reflexivity|].
        assert (Hx : In x (chainOf c entity)) by (rewrite Hc; now left).
        apply chainOf_In in Hx. destruct Hx as [Hx Hxe].
        exfalso. exact (Hnone x Hx Hxe). }
      rewrite Hnil in Hmap. discriminate.
Qed.

(** X22. GET /audit/:entityId answers 200 or 500, and 500 exactly when the
    path parameter does not cast to an ObjectId or some stored event of the
    entity was written by a user that is not stored; a parameter that casts
    to an entity without events gets 200 and an empty trail. *)
Theorem getAudit_500_iff_bad_id_or_unknown_actor
  (castObjectId : string -> option ObjectId)
  (c : FinancialEvent.Collection) (users : list User) (entityId : string) :
  (Http.status (ForensicsRoutes.getAudit c users castObjectId entityId) = 500 <->
   castObjectId entityId = None \/
   exists entity e,
     castObjectId entityId = Some entity /\
     In e c /\ FinancialEvent.entityId e = entity /\
     populate users (userId e) = None) /\
  (Http.status (ForensicsRoutes.getAudit c users castObjectId entityId) = 200 \/
   Http.status (ForensicsRoutes.getAudit c users castObjectId entityId) = 500) /\
  (forall entity,
     castObjectId entityId = Some entity ->
     (forall e, In e c -> FinancialEvent.entityId e <> entity) ->
     ForensicsRoutes.getAudit c users castObjectId entityId
     = Http.ok {| ForensicsRoutes.trail := [] |}).
Proof.
  unfold ForensicsRoutes.getAudit.
  destruct (castObjectId entityId) as [entity|] eqn:Hcast.
  - destruct (audit_of_cast_id c users entity _ eq_refl) as [H500 [Hcode Hnone]].
    split; [|split].
    + rewrite H500. split.
      * intros [e He]. right. exists entity, e. now split.
      * intros [Hbad | [entity' [e [Heq He]]]]; [discriminate Hbad|].
        injection Heq as <-. now exists e.
    + exact Hcode.
    + intros entity' Heq. injection Heq as <-. exact Hnone.
  - split; [|split].
    + split; [now left | reflexivity].
    + now right.
    + intros entity Heq. discriminate Heq.
Qed.

Section ReplayFrames.
Context {R : Runtime}.

Lemma find_other_entity (c1 c2 : FinancialEvent.Collection) (e : FinancialEvent.t)
  (q : FinancialEvent.Query) :
  entityId e <> q_entityId q ->
  FinancialEvent.findSorted (c1 ++ e :: c2) q = FinancialEvent.findSorted (c1 ++ c2) q.
Proof.
  intros Hne. unfold FinancialEvent.findSorted, FinancialEvent.find.
  destruct (castOpt castNumber (q_version_lte q)) as [v|m]; simpl; [|reflexivity].
  destruct (castOpt castDate (q_timestamp_lte q)) as [ms|m]; simpl; [|reflexivity].
  rewrite !filter_app. simpl.
  apply Z.eqb_neq in Hne. now rewrite Hne.
Qed.

(** X23. The two replays agree when their bounds admit the same events:
    if, among the events of an entity, those stamped at or before the
    instant of [t] are exactly those with a version at or below [v], then
    [replayToTime(E, t)] and [replayToVersion(E, v)] give the same result. *)
Theorem replay_time_version_agree
  (c : FinancialEvent.Collection) (entity : ObjectId) (t : string) (ms v : Z) :
  Date_new t = JS.Millis ms ->
  (forall e, In e c -> entityId e = entity ->
             (FinancialEvent.timestamp (metadata e) <= ms <-> version e <= v)) ->
  ForensicReplayEngine.replayToTime c entity t
  = ForensicReplayEngine.replayToVersion c entity (JS.Num v).
Proof.
  intros Hdate Hsame.
  unfold ForensicReplayEngine.replayToTime, ForensicReplayEngine.replayToVersion.
  rewrite Hdate, findSorted_timestamp, findSorted_version.
  assert (Hf : filter (fun e => (entityId e =? entity)
                                && (FinancialEvent.timestamp (metadata e) <=? ms)) c
               = filter (fun e => (entityId e =? entity) && (version e <=? v)) c).
  { apply filter_ext_In. intros e He.
    destruct (entityId e =? entity) eqn:Hent; simpl; [|reflexivity].
    apply Z.eqb_eq in Hent. specialize (Hsame e He Hent).
    destruct (FinancialEvent.timestamp (metadata e) <=? ms) eqn:H1,
             (version e <=? v) eqn:H2; try reflexivity.
    - apply Z.leb_le in H1. apply Z.leb_gt in H2. apply Hsame in H1. lia.
    - apply Z.leb_gt in H1. apply Z.leb_le in H2. apply Hsame in H2. lia. }
  now rewrite Hf.
Qed.

(** X24. Events of other entities have no part in a replay or an audit
    trail: storing or dropping an event of another entity, anywhere in the
    collection, changes none of [replayToTime], [replayToVersion] and
    [generateAuditTrail] for this entity. *)
Theorem replay_ignores_other_entities
  (c1 c2 : FinancialEvent.Collection) (e : FinancialEvent.t) (entity : ObjectId)
  (t : string) (v : JS.Number) (users : list User) :
  entityId e <> entity ->
  ForensicReplayEngine.replayToTime (c1 ++ e :: c2) entity t
  = ForensicReplayEngine.replayToTime (c1 ++ c2) entity t /\
  ForensicReplayEngine.replayToVersion (c1 ++ e :: c2) entity v
  = ForensicReplayEngine.replayToVersion (c1 ++ c2) entity v /\
  ForensicReplayEngine.generateAuditTrail (c1 ++ e :: c2) users entity
  = ForensicReplayEngine.generateAuditTrail (c1 ++ c2) users entity.
Proof.
  intros Hne.
  unfold ForensicReplayEngine.replayToTime, ForensicReplayEngine.replayToVersion,
    ForensicReplayEngine.generateAuditTrail.
  rewrite !find_other_entity by exact Hne.
  now repeat split.
Qed.

End ReplayFrames.

(** X25. A version bound beyond the newest event gives the current state:
    when no event of the entity has a version above [v], every bound from
    [v] upwards replays to the same result as [v]. *)
Theorem replayToVersion_saturates
  (c : FinancialEvent.Collection) (entity : ObjectId) (v v' : Z) :
  (forall e, In e c -> entityId e = entity -> version e <= v) ->
  v <= v' ->
  ForensicReplayEngine.replayToVersion c entity (JS.Num v')
  = ForensicReplayEngine.replayToVersion c entity (JS.Num v).
Proof.
  intros Hmax Hle.
  unfold ForensicReplayEngine.replayToVersion.
  rewrite !findSorted_version.
  assert (Hf : filter (fun e => (entityId e =? entity) && (version e <=? v')) c
               = filter (fun e => (entityId e =? entity) && (version e <=? v)) c).
  { apply filter_ext_In. intros e He.
    destruct (entityId e =? entity) eqn:Hent; simpl; [|reflexivity].
    apply Z.eqb_eq in Hent. specialize (Hmax e He Hent).
    assert (H1 : (version e <=? v') = true) by (apply Z.leb_le; lia).
    assert (H2 : (version e <=? v) = true) by (apply Z.leb_le; lia).
    now rewrite H1, H2. }
  now rewrite Hf.
Qed.

(* ================================================================== *)
(** * The further models, evaluated *)
(* ================================================================== *)

Example trim_examples :
  JSString.trim "  Trip  " = "Trip" /\ JSString.trim "   " = EmptyString.
Proof. split; reflexivity. Qed.

(** A read is not hooked; a mutation on a synced route is, by prefix. *)
Example interceptor_examples :
  SyncInterceptor.isSyncable "/api/expenses/123" = true /\
  SyncInterceptor.isSyncable "/api/auth/login" = false /\
  SyncInterceptor.respond
    {| SyncInterceptor.method := "GET";
       SyncInterceptor.originalUrl := "/api/expenses";
       SyncInterceptor.x_device_id := None;
       SyncInterceptor.user_id := 7;
       SyncInterceptor.body := Json.Undefined |}
    200 Demo.created
  = Resolved ([], Demo.created).
Proof. repeat split; reflexivity. Qed.

(** An owner who transfers the workspace to themselves stays the owner and
    is left with the member role 'manager'. *)
Example transfer_to_self :
  option_map
    (fun w => (Workspace.owner w,
               option_map Workspace.role (Workspace.findMember (Workspace.members w) 1)))
    (snd (WorkspaceRoutes.postTransfer Demo.logActivity Demo.save Demo.team 1 (Some 1)))
  = Some (1, Some "manager").
Proof. reflexivity. Qed.

(** A limit that is not a number answers the whole log up to the offset. *)
Example activity_examples :
  WorkspaceRoutes.getActivity Demo.team (Some JS.NaN) None
  = Rest.Success 200
      (Some {| WorkspaceRoutes.data :=
                 [Json.Str "a5"; Json.Str "a4"; Json.Str "a3"; Json.Str "a2"; Json.Str "a1"];
               WorkspaceRoutes.total := 5 |})
      None.
Proof. reflexivity. Qed.

(* ================================================================== *)
(** * The further statements at the worked workspace *)
(* ================================================================== *)

Section FurtherWitnesses.
Import SyncInterceptor.
#[local] Existing Instance Demo.integers.

Lemma demo_logActivity_keeps : keepsMembership Demo.logActivity.
Proof. intros w action userId details. split; reflexivity. Defined.

Lemma demo_owner_is_member : ownerIsMember Demo.team.
Proof. exists (Demo.member 1 "owner"). split; [now left | reflexivity]. Defined.

Lemma respond_sends_data_unchanged_witness :
  match respond Demo.createExpense 201 Demo.created with
  | Resolved (_, sent) => sent = Demo.created
  | Rejected _ => False
  end.
Proof.
  destruct (respond Demo.createExpense 201 Demo.created) as [[logged sent]|m] eqn:H.
  - exact (proj1 (respond_sends_data_unchanged Demo.createExpense 201 Demo.created)
             logged sent H).
  - vm_compute in H. discriminate H.
Defined.

Lemma respond_logs_only_successful_mutations_witness :
  exists logged sent,
    respond Demo.createExpense 201 Demo.created = Resolved (logged, sent) /\
    logged <> [] /\
    isMutation (method Demo.createExpense) = true /\
    isSyncable (originalUrl Demo.createExpense) = true.
Proof.
  destruct (respond Demo.createExpense 201 Demo.created) as [[logged sent]|m] eqn:H;
    [|vm_compute in H; discriminate H].
  exists logged, sent.
  assert (Hne : logged <> []).
  { vm_compute in H. injection H as <- _. discriminate. }
  split; [reflexivity|]. split; [exact Hne|].
  destruct (respond_logs_only_successful_mutations
              Demo.createExpense 201 Demo.created logged sent H Hne)
    as [Hm [Hs _]].
  now split.
Defined.

Lemma respond_logged_mutation_fields_witness :
  exists logged sent m,
    respond Demo.createExpense 201 Demo.created = Resolved (logged, sent) /\
    In m logged /\
    m_userId m = 7 /\
    m_deviceId m = "phone-1".
Proof.
  destruct (respond Demo.createExpense 201 Demo.created) as [[logged sent]|e] eqn:H;
    [|vm_compute in H; discriminate H].
  destruct logged as [|m rest]; [vm_compute in H; discriminate H|].
  exists (m :: rest), sent, m.
  split; [reflexivity|]. split; [now left|].
  destruct (respond_logged_mutation_fields
              Demo.createExpense 201 Demo.created (m :: rest) sent m H
              (or_introl eq_refl))
    as [Hu [_ [Hd _]]].
  split; [exact Hu | exact Hd].
Defined.

Lemma respond_logs_each_entity_witness :
  exists logged,
    respond Demo.createExpense 201 (Json.Obj Demo.createdFields)
    = Resolved (logged, Json.Obj Demo.createdFields) /\
    List.length logged = 2%nat.
Proof.
  destruct (respond_logs_each_entity Demo.createExpense 201 Demo.createdFields
              eq_refl eq_refl (or_intror eq_refl) eq_refl eq_refl)
    as [logged [H [_ Hlen]]].
  exists logged. split; [exact H | exact Hlen].
Defined.

Lemma postPush_400_iff_payload_missing_witness :
  Http.status (SyncPush.postPush Demo.applied Demo.emptyPush) = 400.
Proof.
  apply (proj2 (proj1 (postPush_400_iff_payload_missing Demo.applied Demo.emptyPush))).
  exists (Json.Str "Transaction"), Json.Undefined.
  split; [reflexivity|]. split; [reflexivity | now right].
Defined.

Lemma removeMember_resolved_witness :
  exists w' w,
    WorkspaceService.removeMember Demo.save [Demo.team] 10 2 3 = Resolved w' /\
    WorkspaceService.findById [Demo.team] 10 = Some w /\
    Workspace.owner w' = Workspace.owner w /\
    Workspace.members w'
    = filter (fun m => negb (Workspace.user m =? 3)) (Workspace.members w).
Proof.
  destruct (WorkspaceService.removeMember Demo.save [Demo.team] 10 2 3)
    as [w'|m] eqn:H; [|vm_compute in H; discriminate H].
  destruct (removeMember_resolved Demo.save [Demo.team] 10 2 3 w' H)
    as [w [Hf [_ [_ [Ho [Hm _]]]]]].
  exists w', w. now repeat split.
Defined.

Lemma updateMemberRole_resolved_witness :
  exists w' w,
    WorkspaceService.updateMemberRole Demo.save [Demo.team] 10 1 3 "editor"
    = Resolved w' /\
    WorkspaceService.findById [Demo.team] 10 = Some w /\
    Workspace.owner w' = Workspace.owner w.
Proof.
  destruct (WorkspaceService.updateMemberRole Demo.save [Demo.team] 10 1 3 "editor")
    as [w'|m] eqn:H; [|vm_compute in H; discriminate H].
  destruct (updateMemberRole_resolved Demo.save [Demo.team] 10 1 3 "editor" w' H)
    as [w [m [before [after [Hf [_ [_ [_ [_ [_ [Ho _]]]]]]]]]]].
  exists w', w. now repeat split.
Defined.

Lemma service_keeps_owner_member_witness :
  exists w',
    WorkspaceService.removeMember Demo.save [Demo.team] 10 2 3 = Resolved w' /\
    ownerIsMember w'.
Proof.
  destruct (WorkspaceService.removeMember Demo.save [Demo.team] 10 2 3)
    as [w'|m] eqn:H; [|vm_compute in H; discriminate H].
  exists w'. split; [reflexivity|].
  exact (service_keeps_owner_member Demo.save [Demo.team] 10 2 3 "editor"
           Demo.team w' eq_refl demo_owner_is_member (or_introl H)).
Defined.

Lemma updateWorkspace_resolves_iff_witness :
  WorkspaceService.updateWorkspace Demo.save [Demo.team] string Demo.rename 10 2 "Home"
  = Resolved (Demo.rename Demo.team "Home").
Proof.
  apply (proj2 (updateWorkspace_resolves_iff Demo.save [Demo.team] string Demo.rename
                  10 2 "Home" (Demo.rename Demo.team "Home"))).
  exists Demo.team, (Demo.member 2 "admin").
  split; [reflexivity|]. split; [reflexivity|].
  split; [now left|]. split; reflexivity.
Defined.

Lemma getDiscussions_newest_first_witness :
  WorkspaceService.findById [Demo.team] 10 = Some Demo.team /\
  exists ds,
    WorkspaceService.getDiscussions [Demo.team] 10 (Some "expense") None = Resolved ds /\
    newestFirstOrder ds.
Proof.
  split; [reflexivity|].
  destruct (getDiscussions_newest_first [Demo.team] 10 (Some "expense") None
              Demo.team eq_refl) as [ds [H [Hs _]]].
  exists ds. now split.
Defined.

Lemma putMemberRole_stored_witness :
  exists answer w',
    WorkspaceRoutes.putMemberRole Demo.roles Demo.canManageRole Demo.logActivity
      Demo.save Demo.team 1 3 (Some "editor") = (answer, Some w') /\
    Rest.code answer = 200 /\
    Workspace.owner w' = Workspace.owner Demo.team.
Proof.
  destruct (WorkspaceRoutes.putMemberRole Demo.roles Demo.canManageRole
              Demo.logActivity Demo.save Demo.team 1 3 (Some "editor"))
    as [answer [w'|]] eqn:H; [|vm_compute in H; discriminate H].
  exists answer, w'. split; [reflexivity|].
  destruct (putMemberRole_stored Demo.roles Demo.canManageRole Demo.logActivity
              Demo.save Demo.team 1 3 (Some "editor") answer w'
              demo_logActivity_keeps H) as [Hc [Ho _]].
  now split.
Defined.

Lemma member_removal_stored_witness :
  exists answer w',
    WorkspaceRoutes.postLeave Demo.logActivity Demo.save Demo.team 3
    = (answer, Some w') /\
    Rest.code answer = 200 /\
    Workspace.owner w' = Workspace.owner Demo.team.
Proof.
  destruct (WorkspaceRoutes.postLeave Demo.logActivity Demo.save Demo.team 3)
    as [answer [w'|]] eqn:H; [|vm_compute in H; discriminate H].
  exists answer, w'. split; [reflexivity|].
  destruct (member_removal_stored Demo.canManageRole Demo.logActivity Demo.save
              Demo.team 1 3 answer w' demo_logActivity_keeps (or_intror H))
    as [Hc [Ho _]].
  now split.
Defined.

Lemma postTransfer_stored_witness :
  exists answer w' newOwner,
    WorkspaceRoutes.postTransfer Demo.logActivity Demo.save Demo.team 1 (Some 2)
    = (answer, Some w') /\
    Workspace.owner w' = newOwner /\
    newOwner = 2.
Proof.
  destruct (WorkspaceRoutes.postTransfer Demo.logActivity Demo.save Demo.team 1 (Some 2))
    as [answer [w'|]] eqn:H; [|vm_compute in H; discriminate H].
  destruct (postTransfer_stored Demo.logActivity Demo.save Demo.team 1 (Some 2)
              answer w' demo_logActivity_keeps H)
    as [newOwner [m [Hn [_ [Ho _]]]]].
  exists answer, w', newOwner. split; [reflexivity|]. split; [exact Ho|].
  now injection Hn as <-.
Defined.

Lemma routes_keep_owner_member_witness :
  exists answer w',
    WorkspaceRoutes.postTransfer Demo.logActivity Demo.save Demo.team 1 (Some 2)
    = (answer, Some w') /\
    ownerIsMember w'.
Proof.
  destruct (WorkspaceRoutes.postTransfer Demo.logActivity Demo.save Demo.team 1 (Some 2))
    as [answer [w'|]] eqn:H; [|vm_compute in H; discriminate H].
  exists answer, w'. split; [reflexivity|].
  exact (routes_keep_owner_member Demo.roles Demo.canManageRole Demo.logActivity
           Demo.save Demo.team w' 1 3 None (Some 2)
           (Rest.Failure 400 "none") (Rest.Failure 400 "none") answer
           demo_logActivity_keeps demo_owner_is_member
           (or_intror (or_intror (or_intror H)))).
Defined.

Lemma postCreate_stored_witness :
  exists answer w',
    WorkspaceRoutes.postCreate Demo.logActivity Demo.save 11 4 1704067200000
      (Some "  Trip  ") None Json.Undefined = (answer, Some w') /\
    Rest.code answer = 201 /\
    ownerIsMember w'.
Proof.
  destruct (WorkspaceRoutes.postCreate Demo.logActivity Demo.save 11 4 1704067200000
              (Some "  Trip  ") None Json.Undefined)
    as [answer [w'|]] eqn:H; [|vm_compute in H; discriminate H].
  exists answer, w'. split; [reflexivity|].
  destruct (proj1 (postCreate_stored Demo.logActivity Demo.save 11 4 1704067200000
                     (Some "  Trip  ") None Json.Undefined demo_logActivity_keeps)
              answer w' H) as [Hc [_ [_ [_ [_ Ho]]]]].
  now split.
Defined.

Lemma getActivity_newest_page_witness :
  WorkspaceRoutes.getActivity Demo.team (Some (JS.Num 2)) (Some (JS.Num 1))
  = Rest.Success 200
      (Some {| WorkspaceRoutes.data := [Json.Str "a4"; Json.Str "a3"];
               WorkspaceRoutes.total := 5 |})
      None.
Proof.
  assert (H0 : 0 < 2) by lia. assert (H1 : 0 <= 1) by lia.
  exact (proj1 (getActivity_newest_page Demo.team 2 1 H0 H1)).
Defined.

Lemma postJoin_token_first_witness :
  WorkspaceRoutes.postJoin Demo.accepted Demo.expired 7 (Some "invite-1") (Some "link-1")
  = Rest.Success 200
      (Some {| WorkspaceRoutes.result := Json.Obj [("message", Json.Str "Joined")];
               WorkspaceRoutes.resultMessage := Json.Str "Joined" |})
      None.
Proof.
  exact (proj1 (proj1 (postJoin_token_first Demo.accepted Demo.expired 7
                         (Some "invite-1") (Some "link-1")) eq_refl)
           (Json.Obj [("message", Json.Str "Joined")]) (Json.Str "Joined")
           eq_refl eq_refl).
Defined.

Lemma cache_never_stale_witness :
  CurrencyService.reachable CurrencyService.constructed /\
  CurrencyService.rates
    (fst (CurrencyService.getExchangeRatesWithCache
            CurrencyService.constructed "EUR" Demo.noon))
  = CurrencyService.ratesFor
      (CurrencyService.exchangeRates CurrencyService.constructed) "EUR".
Proof.
  split; [apply CurrencyService.reach_constructed|].
  exact (proj1 (cache_never_stale CurrencyService.constructed "EUR" Demo.noon
                  CurrencyService.reach_constructed)).
Defined.

Lemma convertCurrency_uses_current_rates_witness :
  exists fromRate toRate,
    CurrencyService.rateOf "EUR"
      (CurrencyService.exchangeRates CurrencyService.constructed) = Some fromRate /\
    CurrencyService.rateOf "INR"
      (CurrencyService.exchangeRates CurrencyService.constructed) = Some toRate.
Proof.
  destruct (convertCurrency_uses_current_rates (F := Demo.integers)
              CurrencyService.constructed 100
              "EUR" "INR" Demo.noon CurrencyService.reach_constructed eq_refl eq_refl)
    as [fromRate [toRate [Hf [Ht _]]]].
  exists fromRate, toRate. now split.
Defined.

Lemma updateExchangeRates_takes_effect_witness :
  CurrencyService.rateOf "EUR"
    (CurrencyService.rates
       (fst (CurrencyService.getExchangeRatesWithCache
               (CurrencyService.updateExchangeRates (F := Demo.integers)
                  CurrencyService.constructed [("EUR", 2)])
               "USD" Demo.noon)))
  = Some 2.
Proof.
  apply (updateExchangeRates_takes_effect (F := Demo.integers)
           CurrencyService.constructed [("EUR", 2)] "EUR" 2 Demo.noon).
  - simpl. constructor; [intros [] | constructor].
  - now left.
Defined.

Lemma calculateAmortizationSchedule_capped_witness :
  (List.length (DebtService.calculateAmortizationSchedule (F := Demo.integers) Demo.loan 0%Z)
   <= 600)%nat.
Proof.
  exact (proj1 (calculateAmortizationSchedule_capped (F := Demo.integers) Demo.loan 0)).
Defined.

Lemma getAudit_500_iff_bad_id_or_unknown_actor_witness :
  Http.status
    (ForensicsRoutes.getAudit Sample.afterUpdate Sample.remainingUsers
       Sample.objectIdOf Sample.entity1) = 500 /\
  Http.status
    (ForensicsRoutes.getAudit Sample.afterUpdate Sample.users Sample.objectIdOf "tx-1")
  = 500.
Proof.
  split.
  - apply (proj2 (proj1 (getAudit_500_iff_bad_id_or_unknown_actor Sample.objectIdOf
                           Sample.afterUpdate Sample.remainingUsers Sample.entity1))).
    right. exists 1, Sample.created.
    split; [reflexivity|]. split; [now left|]. split; reflexivity.
  - apply (proj2 (proj1 (getAudit_500_iff_bad_id_or_unknown_actor Sample.objectIdOf
                           Sample.afterUpdate Sample.users "tx-1"))).
    left. reflexivity.
Defined.

Lemma replay_time_version_agree_witness :
  ForensicReplayEngine.replayToTime Sample.afterUpdate 1 Sample.jan2
  = ForensicReplayEngine.replayToVersion Sample.afterUpdate 1 (JS.Num 1).
Proof.
  apply (replay_time_version_agree Sample.afterUpdate 1 Sample.jan2 1704153600000 1).
  - reflexivity.
  - intros e [<-|[<-|[]]] _; simpl; lia.
Defined.

Lemma replay_ignores_other_entities_witness :
  ForensicReplayEngine.replayToVersion
    (Sample.created :: Demo.elsewhere :: [Sample.updated]) 1 (JS.Num 2)
  = ForensicReplayEngine.replayToVersion
      (Sample.created :: [Sample.updated]) 1 (JS.Num 2).
Proof.
  assert (Hne : entityId Demo.elsewhere <> 1) by (simpl; lia).
  exact (proj1 (proj2 (replay_ignores_other_entities [Sample.created] [Sample.updated]
                         Demo.elsewhere 1 Sample.jan1 (JS.Num 2) [] Hne))).
Defined.

Lemma replayToVersion_saturates_witness :
  ForensicReplayEngine.replayToVersion Sample.afterUpdate 1 (JS.Num 9)
  = ForensicReplayEngine.replayToVersion Sample.afterUpdate 1 (JS.Num 2).
Proof.
  apply (replayToVersion_saturates Sample.afterUpdate 1 2 9).
  - intros e [<-|[<-|[]]] _; simpl; lia.
  - lia.
Defined.

End FurtherWitnesses.
